(** * Balti Voice AI: recording session and translation pipeline

    A shallow embedding of [main.py]: the Python string operations the
    translation client applies to the model's reply, [json.loads], the
    prompt construction, [GeminiService], [AudioRecorder] and the
    [/api/record] handler, followed by the properties of the
    specification that concern them; then [json.dump], [ConfigManager],
    [API_KEY] and the [/api/config] handler, with the properties of the
    configuration file, of the client and of the session that the code
    shows beyond the specification.

    Conventions.
    - A Python [str] is the list of its code points ([N]).
    - A call that may raise returns an [outcome]; calls to the outside
      world (files, network, audio device, console) are recorded, in
      program order, in a [trace] of [event]s, and what each of them
      answers is read from a [world].
    - Floating point is not interpreted: audio samples are an abstract
      type, and a JSON number with a fraction or an exponent keeps its
      lexeme.
    - The capture callback runs between the calls of the recorder's
      methods, not during one; CPython's resource limits (recursion
      depth, digits of an [int] literal) and the exceptions that are no
      [Exception] are outside the model. *)

From Stdlib Require Import List NArith ZArith String Ascii Bool Lia.
Import ListNotations.

Set Implicit Arguments.

(* ================================================================== *)
(** * Python strings *)
(* ================================================================== *)

Module PyStr.

Local Open Scope N_scope.

Definition char := N.
Definition pystr := list char.

Definition chr (a : ascii) : char := N_of_ascii a.

(** The code points of a literal. *)
Definition str (s : string) : pystr := map chr (list_ascii_of_string s).

(** A literal in which the apostrophe stands for the double quote. *)
Definition qstr (s : string) : pystr :=
  map (fun c => if c =? 39 then 34 else c) (str s).

Fixpoint eqb (s t : pystr) : bool :=
  match s, t with
  | [], [] => true
  | c :: s', d :: t' => (c =? d) && eqb s' t'
  | _, _ => false
  end.

(** [str.isspace] on one code point: the Unicode white space of CPython. *)
Definition isspace (c : char) : bool :=
  ((9 <=? c) && (c <=? 13)) || ((28 <=? c) && (c <=? 32))
  || (c =? 133) || (c =? 160) || (c =? 5760)
  || ((8192 <=? c) && (c <=? 8202))
  || (c =? 8232) || (c =? 8233) || (c =? 8239) || (c =? 8287)
  || (c =? 12288).

Fixpoint lstrip (s : pystr) : pystr :=
  match s with
  | [] => []
  | c :: s' => if isspace c then lstrip s' else s
  end.

Definition rstrip (s : pystr) : pystr := rev (lstrip (rev s)).

(** [s.strip()] *)
Definition strip (s : pystr) : pystr := rstrip (lstrip s).

(** [s.startswith(prefix)] *)
Fixpoint startswith (s prefix : pystr) {struct prefix} : bool :=
  match prefix, s with
  | [], _ => true
  | p :: prefix', c :: s' => (c =? p) && startswith s' prefix'
  | _ :: _, [] => false
  end.

(** [sub in s] *)
Fixpoint contains (s sub : pystr) : bool :=
  startswith s sub
  || match s with
     | [] => false
     | _ :: s' => contains s' sub
     end.

(** The scan of [str.replace] for a non-empty [old]: at each position not
    inside a match already replaced, the leftmost occurrence of [old] is
    replaced and the scan resumes behind it ([skip] counts the code
    points of the current match still to pass). *)
Fixpoint replace_from (old new : pystr) (skip : nat) (s : pystr) : pystr :=
  match s with
  | [] => []
  | c :: s' =>
      match skip with
      | S k => replace_from old new k s'
      | O =>
          if startswith s old
          then new ++ replace_from old new (Nat.pred (List.length old)) s'
          else c :: replace_from old new 0 s'
      end
  end.

(** [s.replace(old, new)]; for an empty [old] Python puts [new] before
    every code point and at the end. *)
Definition replace (s old new : pystr) : pystr :=
  match old with
  | [] => new ++ flat_map (fun c => c :: new) s
  | _ :: _ => replace_from old new 0 s
  end.

(** [sep.join(items)] *)
Fixpoint join (sep : pystr) (items : list pystr) : pystr :=
  match items with
  | [] => []
  | [x] => x
  | x :: rest => x ++ sep ++ join sep rest
  end.

(** [s.split(sep)] for the one-code-point separator [sep]. *)
Fixpoint split (sep : char) (s : pystr) : list pystr :=
  match s with
  | [] => [[]]
  | c :: s' =>
      if c =? sep then [] :: split sep s'
      else match split sep s' with
           | [] => [[c]]
           | l :: ls => (c :: l) :: ls
           end
  end.

End PyStr.

Import PyStr.

(* ================================================================== *)
(** * JSON values and [json.loads] *)
(* ================================================================== *)

Module Json.

Local Open Scope N_scope.

(** What [json.loads] returns: [None], [bool], [int], [float] (kept as
    the lexeme, [NaN], [Infinity] and [-Infinity] included), [str],
    [list], and [dict] as the list of its items in insertion order. *)
#[warnings="-register-all"]
Inductive json : Type :=
| JNull
| JBool (b : bool)
| JInt (z : Z)
| JFloat (lexeme : pystr)
| JString (s : pystr)
| JArray (items : list json)
| JObject (items : list (pystr * json)).

(** [d[k] = v] on a dict: an existing key keeps its place. *)
Fixpoint dict_set (k : pystr) (v : json) (d : list (pystr * json))
  : list (pystr * json) :=
  match d with
  | [] => [(k, v)]
  | (k', v') :: d' =>
      if PyStr.eqb k' k then (k', v) :: d' else (k', v') :: dict_set k v d'
  end.

(** [dict(pairs)] *)
Definition dict (pairs : list (pystr * json)) : list (pystr * json) :=
  fold_left (fun d kv => dict_set (fst kv) (snd kv) d) pairs [].

(** [d.get(k)] *)
Fixpoint dict_get (k : pystr) (d : list (pystr * json)) : option json :=
  match d with
  | [] => None
  | (k', v) :: d' => if PyStr.eqb k' k then Some v else dict_get k d'
  end.

(** ** Lexical level *)

Inductive token : Type :=
| TLBrace | TRBrace | TLBracket | TRBracket | TColon | TComma
| TString (s : pystr)
| TInt (z : Z)
| TFloat (lexeme : pystr)
| TTrue | TFalse | TNull.

(** The decoder's white space: space, tab, line feed, carriage return. *)
Definition is_ws (c : char) : bool :=
  (c =? 32) || (c =? 9) || (c =? 10) || (c =? 13).

Definition is_digit (c : char) : bool := (48 <=? c) && (c <=? 57).

Definition hexval (c : char) : option N :=
  if is_digit c then Some (c - 48)
  else if (97 <=? c) && (c <=? 102) then Some (c - 87)
  else if (65 <=? c) && (c <=? 70) then Some (c - 55)
  else None.

Definition hex4 (h1 h2 h3 h4 : char) : option N :=
  match hexval h1, hexval h2, hexval h3, hexval h4 with
  | Some a, Some b, Some c, Some d => Some (((a * 16 + b) * 16 + c) * 16 + d)
  | _, _, _, _ => None
  end.

Definition is_high_surrogate (u : N) : bool := (55296 <=? u) && (u <=? 56319).
Definition is_low_surrogate (u : N) : bool := (56320 <=? u) && (u <=? 57343).
Definition join_surrogates (hi lo : N) : N :=
  65536 + ((hi - 55296) * 1024 + (lo - 56320)).

(** The one-letter escapes after a backslash. *)
Definition unescape (e : char) : option char :=
  if e =? 34 then Some 34          (* quote *)
  else if e =? 92 then Some 92     (* backslash *)
  else if e =? 47 then Some 47     (* slash *)
  else if e =? 98 then Some 8      (* b *)
  else if e =? 102 then Some 12    (* f *)
  else if e =? 110 then Some 10    (* n *)
  else if e =? 114 then Some 13    (* r *)
  else if e =? 116 then Some 9     (* t *)
  else None.

Definition push (c : char) (r : option (pystr * pystr)) : option (pystr * pystr) :=
  match r with
  | Some (v, rest) => Some (c :: v, rest)
  | None => None
  end.

(** The body of a string literal, behind its opening quote: the decoded
    content and what follows the closing quote.  Strict mode: a control
    character inside the literal is an error.  A high surrogate escape
    directly followed by a low surrogate escape is one code point. *)
Fixpoint scanstring (s : pystr) : option (pystr * pystr) :=
  match s with
  | [] => None
  | c :: s1 =>
      if c =? 34 then Some ([], s1)
      else if c =? 92 then
        match s1 with
        | [] => None
        | e :: s2 =>
            if e =? 117 then
              match s2 with
              | h1 :: h2 :: h3 :: h4 :: s3 =>
                  match hex4 h1 h2 h3 h4 with
                  | None => None
                  | Some u =>
                      if is_high_surrogate u then
                        match s3 with
                        | b :: e' :: g1 :: g2 :: g3 :: g4 :: s4 =>
                            if (b =? 92) && (e' =? 117) then
                              match hex4 g1 g2 g3 g4 with
                              | None => None
                              | Some u2 =>
                                  if is_low_surrogate u2
                                  then push (join_surrogates u u2) (scanstring s4)
                                  else push u (scanstring s3)
                              end
                            else push u (scanstring s3)
                        | _ => push u (scanstring s3)
                        end
                      else push u (scanstring s3)
                  end
              | _ => None
              end
            else
              match unescape e with
              | Some c' => push c' (scanstring s2)
              | None => None
              end
        end
      else if c <? 32 then None
      else push c (scanstring s1)
  end.

(** The longest prefix of ASCII digits, and the rest. *)
Fixpoint span_digits (s : pystr) : pystr * pystr :=
  match s with
  | [] => ([], [])
  | c :: s' =>
      if is_digit c
      then let (ds, r) := span_digits s' in (c :: ds, r)
      else ([], s)
  end.

(** The integer part: an optional minus sign, then a single zero or a
    non-zero digit followed by digits. *)
Definition scan_int (s : pystr) : option (pystr * pystr) :=
  let (sign, s1) :=
    match s with
    | c :: s' => if c =? 45 then ([c], s') else ([], s)
    | [] => ([], s)
    end in
  match s1 with
  | [] => None
  | d :: s2 =>
      if d =? 48 then Some (sign ++ [d], s2)
      else if is_digit d
           then let (ds, r) := span_digits s2 in Some (sign ++ d :: ds, r)
           else None
  end.

(** The fraction: a dot and at least one digit. *)
Definition scan_frac (s : pystr) : option (pystr * pystr) :=
  match s with
  | [] => None
  | c :: s1 =>
      if c =? 46 then
        match span_digits s1 with
        | ([], _) => None
        | (ds, r) => Some (c :: ds, r)
        end
      else None
  end.

(** The exponent: [e] or [E], an optional sign, at least one digit. *)
Definition scan_exp (s : pystr) : option (pystr * pystr) :=
  match s with
  | [] => None
  | e :: s1 =>
      if (e =? 101) || (e =? 69) then
        let (sign, s2) :=
          match s1 with
          | c :: s' => if (c =? 43) || (c =? 45) then ([c], s') else ([], s1)
          | [] => ([], s1)
          end in
        match span_digits s2 with
        | ([], _) => None
        | (ds, r) => Some (e :: sign ++ ds, r)
        end
      else None
  end.

Definition decimal (ds : pystr) : Z :=
  fold_left (fun acc d => (acc * 10 + Z.of_N (d - 48))%Z) ds 0%Z.

(** [int(lexeme)] for the lexeme of [scan_int]. *)
Definition int_of (lexeme : pystr) : Z :=
  match lexeme with
  | c :: ds => if c =? 45 then (- decimal ds)%Z else decimal lexeme
  | [] => 0%Z
  end.

(** The number at the head of [s]: an [int] when it has neither fraction
    nor exponent, else a [float]. *)
Definition scan_number (s : pystr) : option (token * pystr) :=
  match scan_int s with
  | None => None
  | Some (i, r1) =>
      let (f, r2) :=
        match scan_frac r1 with Some (f, r) => (f, r) | None => ([], r1) end in
      let (e, r3) :=
        match scan_exp r2 with Some (e, r) => (e, r) | None => ([], r2) end in
      match f, e with
      | [], [] => Some (TInt (int_of i), r3)
      | _, _ => Some (TFloat (i ++ f ++ e), r3)
      end
  end.

(** The constants, [NaN], [Infinity] and [-Infinity] included. *)
Definition scan_literal (s : pystr) : option (token * pystr) :=
  if startswith s (str "null") then Some (TNull, skipn 4 s)
  else if startswith s (str "true") then Some (TTrue, skipn 4 s)
  else if startswith s (str "false") then Some (TFalse, skipn 5 s)
  else if startswith s (str "NaN") then Some (TFloat (str "NaN"), skipn 3 s)
  else if startswith s (str "Infinity")
       then Some (TFloat (str "Infinity"), skipn 8 s)
  else if startswith s (str "-Infinity")
       then Some (TFloat (str "-Infinity"), skipn 9 s)
  else None.

(** The token at the head of [s] and the rest of [s]. *)
Definition next_token (s : pystr) : option (token * pystr) :=
  match s with
  | [] => None
  | c :: s' =>
      if c =? 123 then Some (TLBrace, s')
      else if c =? 125 then Some (TRBrace, s')
      else if c =? 91 then Some (TLBracket, s')
      else if c =? 93 then Some (TRBracket, s')
      else if c =? 58 then Some (TColon, s')
      else if c =? 44 then Some (TComma, s')
      else if c =? 34 then
        match scanstring s' with
        | Some (v, r) => Some (TString v, r)
        | None => None
        end
      else
        match scan_number s with
        | Some r => Some r
        | None => scan_literal s
        end
  end.

(** The tokens of [s], white space between them skipped; [None] when some
    position starts no token.  Every step consumes a code point, so the
    length of [s] is fuel enough. *)
Fixpoint lex (fuel : nat) (s : pystr) : option (list token) :=
  match s with
  | [] => Some []
  | c :: s' =>
      match fuel with
      | O => None
      | S f =>
          if is_ws c then lex f s'
          else
            match next_token s with
            | Some (t, r) => option_map (cons t) (lex f r)
            | None => None
            end
      end
  end.

(** ** Grammar *)

Fixpoint parse_value (fuel : nat) (ts : list token)
  : option (json * list token) :=
  match fuel with
  | O => None
  | S f =>
      match ts with
      | TString s :: r => Some (JString s, r)
      | TInt z :: r => Some (JInt z, r)
      | TFloat l :: r => Some (JFloat l, r)
      | TTrue :: r => Some (JBool true, r)
      | TFalse :: r => Some (JBool false, r)
      | TNull :: r => Some (JNull, r)
      | TLBrace :: TRBrace :: r => Some (JObject [], r)
      | TLBrace :: r =>
          match parse_members f r with
          | Some (ms, r') => Some (JObject (dict ms), r')
          | None => None
          end
      | TLBracket :: TRBracket :: r => Some (JArray [], r)
      | TLBracket :: r =>
          match parse_elements f r with
          | Some (xs, r') => Some (JArray xs, r')
          | None => None
          end
      | _ => None
      end
  end

with parse_members (fuel : nat) (ts : list token)
  : option (list (pystr * json) * list token) :=
  match fuel with
  | O => None
  | S f =>
      match ts with
      | TString k :: TColon :: r =>
          match parse_value f r with
          | Some (v, TRBrace :: r') => Some ([(k, v)], r')
          | Some (v, TComma :: r') =>
              match parse_members f r' with
              | Some (ms, r'') => Some ((k, v) :: ms, r'')
              | None => None
              end
          | _ => None
          end
      | _ => None
      end
  end

with parse_elements (fuel : nat) (ts : list token)
  : option (list json * list token) :=
  match fuel with
  | O => None
  | S f =>
      match parse_value f ts with
      | Some (v, TRBracket :: r') => Some ([v], r')
      | Some (v, TComma :: r') =>
          match parse_elements f r' with
          | Some (xs, r'') => Some (v :: xs, r'')
          | None => None
          end
      | _ => None
      end
  end.

(** [json.loads(s)]: one value, white space around it allowed, nothing
    else; [None] stands for [JSONDecodeError]. *)
Definition loads (s : pystr) : option json :=
  match lex (List.length s) s with
  | None => None
  | Some ts =>
      match parse_value (S (List.length ts)) ts with
      | Some (v, []) => Some v
      | _ => None
      end
  end.

(** ** Notions for the statements about the decoder *)

(** The tokens of [s]. *)
Definition tokens (s : pystr) : option (list token) := lex (List.length s) s.

(** The code points a token may begin with, and end with. *)
Definition is_start (c : char) : bool :=
  (c =? 123) || (c =? 125) || (c =? 91) || (c =? 93) || (c =? 58) || (c =? 44)
  || (c =? 34) || (c =? 45) || is_digit c
  || (c =? 110) || (c =? 116) || (c =? 102) || (c =? 78) || (c =? 73).

Definition is_end (c : char) : bool :=
  (c =? 123) || (c =? 125) || (c =? 91) || (c =? 93) || (c =? 58) || (c =? 44)
  || (c =? 34) || is_digit c
  || (c =? 108) || (c =? 101) || (c =? 78) || (c =? 121).

(** [lexeme] is a non-empty text that begins and ends as a token does. *)
Definition token_text (lexeme : pystr) : Prop :=
  exists c rest, lexeme = c :: rest /\ is_start c = true
                 /\ is_end (last lexeme 0) = true.

(** The result of a scan, with [b] behind the text scanned. *)
Definition extend {A} (b : pystr) (o : option (A * pystr)) : option (A * pystr) :=
  match o with
  | Some (v, r) => Some (v, r ++ b)
  | None => None
  end.

(** [parse] keeps, with more fuel, the result it has with [fuel]. *)
Definition keeps_with_more {A} (parse : nat -> list token -> option A)
    (fuel : nat) : Prop :=
  forall ts r, parse fuel ts = Some r ->
    forall fuel', (fuel <= fuel')%nat -> parse fuel' ts = Some r.

(** [parse] reaches the result it has with [fuel] with as much fuel as
    it consumes tokens. *)
Definition consumed_is_enough {A}
    (parse : nat -> list token -> option (A * list token)) (fuel : nat)
  : Prop :=
  forall ts r rest, parse fuel ts = Some (r, rest) ->
    exists used, ts = used ++ rest
                 /\ parse (List.length used) ts = Some (r, rest).

End Json.

Import Json.

(* ================================================================== *)
(** * [json.dump] *)
(* ================================================================== *)

Module Encoder.

Local Open Scope N_scope.

(** The text the encoder writes for a [float]: [NaN], [Infinity],
    [-Infinity], or [float.__repr__] of the number the lexeme denotes.
    Floating point is not interpreted. *)
Class Float : Type := { floatstr : pystr -> pystr }.

Definition hexdigit (n : N) : char := if n <? 10 then 48 + n else 87 + n.

(** ['{0:04x}'.format(n)], for [n] below [0x10000]. *)
Definition hex4_of (n : N) : pystr :=
  [hexdigit (n / 4096 mod 16); hexdigit (n / 256 mod 16);
   hexdigit (n / 16 mod 16); hexdigit (n mod 16)].

Definition escape_u (n : N) : pystr := 92 :: 117 :: hex4_of n.

(** What [encode_basestring_ascii] writes for one code point: the short
    escapes, the printable ASCII as it is, [\uXXXX] for the rest of the
    basic plane, a surrogate pair of escapes beyond it. *)
Definition escape (c : char) : pystr :=
  if c =? 34 then [92; 34]
  else if c =? 92 then [92; 92]
  else if c =? 10 then [92; 110]
  else if c =? 13 then [92; 114]
  else if c =? 9 then [92; 116]
  else if c =? 8 then [92; 98]
  else if c =? 12 then [92; 102]
  else if (32 <=? c) && (c <=? 126) then [c]
  else if c <? 65536 then escape_u c
  else
    let n := c - 65536 in
    let s1 := N.lor 55296 (N.land (N.shiftr n 10) 1023) in
    let s2 := N.lor 56320 (N.land n 1023) in
    escape_u s1 ++ escape_u s2.

Definition encode_basestring_ascii (s : pystr) : pystr :=
  34 :: flat_map escape s ++ [34].

(** The decimal digits of [n] before [acc], most significant first. *)
Fixpoint digits_of (fuel : nat) (n : N) (acc : pystr) : pystr :=
  match fuel with
  | O => acc
  | S f =>
      if n <? 10 then (48 + n) :: acc
      else digits_of f (n / 10) ((48 + n mod 10) :: acc)
  end.

(** [int.__repr__] *)
Definition int_repr (z : Z) : pystr :=
  match z with
  | Z0 => [48]
  | Zpos p => digits_of (S (N.to_nat (N.size (Npos p)))) (Npos p) []
  | Zneg p => 45 :: digits_of (S (N.to_nat (N.size (Npos p)))) (Npos p) []
  end.

(** ['\n' + _indent * _current_indent_level], for [indent=2]. *)
Definition newline_indent (level : nat) : pystr := 10 :: repeat 32 (2 * level).

Section Iterencode.
Context `{Float}.

(** [_iterencode(o, _current_indent_level)] of the encoder
    [json.dump(obj, fp, indent=2)] builds: the chunks it yields, joined.
    The item separator is a comma, the key separator a colon and a
    space; the keys of a [dict] are [str]s, as [json.loads] gives
    them. *)
Fixpoint iterencode (level : nat) (o : json) : pystr :=
  match o with
  | JString s => encode_basestring_ascii s
  | JNull => str "null"
  | JBool true => str "true"
  | JBool false => str "false"
  | JInt z => int_repr z
  | JFloat lexeme => floatstr lexeme
  | JArray [] => str "[]"
  | JArray items =>
      [91] ++ newline_indent (S level)
      ++ join (44 :: newline_indent (S level))
              (map (iterencode (S level)) items)
      ++ newline_indent level ++ [93]
  | JObject [] => str "{}"
  | JObject items =>
      [123] ++ newline_indent (S level)
      ++ join (44 :: newline_indent (S level))
              (map (fun kv => encode_basestring_ascii (fst kv) ++ [58; 32]
                              ++ iterencode (S level) (snd kv))
                   items)
      ++ newline_indent level ++ [125]
  end.

(** What [json.dump(obj, fp, indent=2)] writes to [fp]. *)
Definition dump (obj : json) : pystr := iterencode 0 obj.
End Iterencode.

(** ** Notions for the statements about the encoder *)

(** The code points of a Python [str], with no high surrogate directly
    before a low one: such a pair is written as two escapes, which the
    decoder reads as one code point. *)
Fixpoint well_formed (s : pystr) : bool :=
  match s with
  | [] => true
  | c :: s' =>
      (c <? 1114112)
      && negb (is_high_surrogate c
               && match s' with d :: _ => is_low_surrogate d | [] => false end)
      && well_formed s'
  end.

(** No two of the keys are equal. *)
Fixpoint distinct (keys : list pystr) : bool :=
  match keys with
  | [] => true
  | k :: rest => negb (existsb (PyStr.eqb k) rest) && distinct rest
  end.

(** A value without a [float], whose strings are well formed and whose
    dicts have each key once. *)
Fixpoint plain (o : json) : bool :=
  match o with
  | JFloat _ => false
  | JString s => well_formed s
  | JArray items => forallb plain items
  | JObject items =>
      distinct (map fst items)
      && forallb (fun kv => well_formed (fst kv) && plain (snd kv)) items
  | _ => true
  end.

(** A value without a [float]. *)
Fixpoint float_free (o : json) : bool :=
  match o with
  | JFloat _ => false
  | JArray items => forallb float_free items
  | JObject items => forallb (fun kv => float_free (snd kv)) items
  | _ => true
  end.

(** The code points [json.dump] writes: printable ASCII and the line
    feed. *)
Definition is_ascii_text (c : char) : bool :=
  ((32 <=? c) && (c <=? 126)) || (c =? 10).

(** The tokens of the text written for a value. *)
Fixpoint separated (sep : token) (groups : list (list token)) : list token :=
  match groups with
  | [] => []
  | [g] => g
  | g :: rest => g ++ sep :: separated sep rest
  end.

Fixpoint tokens_of (o : json) : list token :=
  match o with
  | JNull => [TNull]
  | JBool true => [TTrue]
  | JBool false => [TFalse]
  | JInt z => [TInt z]
  | JFloat lexeme => [TFloat lexeme]
  | JString s => [TString s]
  | JArray items =>
      TLBracket :: separated TComma (map tokens_of items) ++ [TRBracket]
  | JObject items =>
      TLBrace
      :: separated TComma
           (map (fun kv => TString (fst kv) :: TColon :: tokens_of (snd kv)) items)
      ++ [TRBrace]
  end.

(** What may follow a number in a text: not a digit, a dot or an
    exponent mark. *)
Definition ends_number (rest : pystr) : bool :=
  match rest with
  | [] => true
  | c :: _ => negb (is_digit c || (c =? 46) || (c =? 101) || (c =? 69))
  end.

(** What follows does not begin with the escape of a low surrogate, nor
    with a broken escape. *)
Definition no_low_escape (r : pystr) : Prop :=
  forall g1 g2 g3 g4 s4, r = 92 :: 117 :: g1 :: g2 :: g3 :: g4 :: s4 ->
    exists u2, hex4 g1 g2 g3 g4 = Some u2 /\ is_low_surrogate u2 = false.

(** [parse] reads the tokens [ts] as [v], whatever follows them. *)
Definition reads {A} (parse : nat -> list token -> option (A * list token))
    (ts : list token) (v : A) : Prop :=
  exists fuel, forall r, parse fuel (ts ++ r) = Some (v, r).

Section Induction.
Variable P : json -> Prop.
Hypothesis Hnull : P JNull.
Hypothesis Hbool : forall b, P (JBool b).
Hypothesis Hint : forall z, P (JInt z).
Hypothesis Hfloat : forall lexeme, P (JFloat lexeme).
Hypothesis Hstring : forall s, P (JString s).
Hypothesis Harray : forall items, Forall P items -> P (JArray items).
Hypothesis Hobject :
  forall items, Forall (fun kv => P (snd kv)) items -> P (JObject items).

(** Induction on a value, with the property for every item of a list and
    every value of a dict. *)
Fixpoint json_induction (o : json) : P o :=
  match o with
  | JNull => Hnull
  | JBool b => Hbool b
  | JInt z => Hint z
  | JFloat lexeme => Hfloat lexeme
  | JString s => Hstring s
  | JArray items =>
      Harray
        ((fix all (l : list json) : Forall P l :=
            match l with
            | [] => Forall_nil _
            | x :: l' => Forall_cons x (json_induction x) (all l')
            end) items)
  | JObject items =>
      Hobject
        ((fix all (l : list (pystr * json)) : Forall (fun kv => P (snd kv)) l :=
            match l with
            | [] => Forall_nil _
            | kv :: l' =>
                Forall_cons kv
                  (match kv return P (snd kv) with
                   | (_, v) => json_induction v
                   end)
                  (all l')
            end) items)
  end.
End Induction.

End Encoder.

Import Encoder.

(* ================================================================== *)
(** * Effects: exceptions, the outside world, program state *)
(* ================================================================== *)

Module Effects.

(** The exceptions of the model; all of them are [Exception]s, so both
    [except Exception] and a bare [except] catch them. *)
Inductive exn : Type :=
| OSError             (* wav.write, os.remove *)
| APIError            (* genai: configure, upload_file, generate_content, delete *)
| ValueError          (* response.text of a reply without text *)
| KeyError (key : pystr)
| JSONDecodeError
| PortAudioError      (* sd.InputStream(...), stream.start() *)
| AttributeError.

Inductive outcome (A : Type) : Type :=
| Returned (a : A)
| Raised (e : exn).
Arguments Raised {A} e.

(** What [generate_content] returns; reading [text] raises when the reply
    carries none. *)
Record Response : Type := { text : option pystr }.

(** The handle [genai.upload_file] returns. *)
Inductive File : Type := UploadedFile (path : pystr).

(** The stream object [sd.InputStream(...)] returns. *)
Inductive Stream : Type := InputStream (channels samplerate : Z).

Inductive message : Type :=
| GeminiConfigError (e : exn)
| TranslationError (e : exn)
| MicError (e : exn)
| RecordingStarted
| RecordingStopped.

(** The calls that leave the process, with their arguments. *)
Inductive event : Type :=
| GenaiConfigure (api_key : pystr)
| WavWrite (filename : pystr) (rate : Z) (data : list Z)
| UploadFile (path : pystr)
| GenerateContent (model : pystr) (prompt : pystr) (audio_file : File)
| FileDelete (audio_file : File)
| OsRemove (path : pystr)
| StreamOpen (channels samplerate : Z)
| StreamStart
| StreamStop
| StreamClose
| Print (m : message).

Definition trace := list event.

(** What the outside world answers during one request: [true] when a
    call returns, [false] when it raises. *)
Record world : Type := {
  genai_configure_ok : bool;
  wav_write_ok : bool;
  upload_file_ok : bool;
  generate_content : option Response;
  file_delete_ok : bool;
  os_remove_ok : bool;
  stream_open_ok : bool;
  stream_start_ok : bool
}.

(** A piece of program over the state [S]: it reads the world, appends to
    the trace, changes the state, and returns or raises.  The state
    reached when an exception is raised is kept, as in Python. *)
Definition prog (S A : Type) : Type := world -> S -> trace * S * outcome A.

Section Monad.
Context {S : Type}.

Definition ret {A} (a : A) : prog S A := fun _ s => ([], s, Returned a).

Definition raise {A} (e : exn) : prog S A := fun _ s => ([], s, Raised e).

Definition bind {A B} (m : prog S A) (k : A -> prog S B) : prog S B :=
  fun w s =>
    match m w s with
    | (t, s', Returned a) =>
        let '(t', s'', r) := k a w s' in (t ++ t', s'', r)
    | (t, s', Raised e) => (t, s', Raised e)
    end.

(** [try: body / except: handler] *)
Definition try_except {A} (body : prog S A) (handler : exn -> prog S A)
  : prog S A :=
  fun w s =>
    match body w s with
    | (t, s', Raised e) =>
        let '(t', s'', r) := handler e w s' in (t ++ t', s'', r)
    | r => r
    end.

Definition get : prog S S := fun _ s => ([], s, Returned s).

Definition put (s : S) : prog S unit := fun _ _ => ([], s, Returned tt).

Definition emit (ev : event) : prog S unit := fun _ s => ([ev], s, Returned tt).

(** An outside call: recorded, then answered by the world. *)
Definition call {A} (ev : event) (answer : world -> option A) (e : exn)
  : prog S A :=
  fun w s =>
    ([ev], s, match answer w with Some a => Returned a | None => Raised e end).

Definition of_option {A} (o : option A) (e : exn) : prog S A :=
  match o with Some a => ret a | None => raise e end.

Definition print (m : message) : prog S unit := emit (Print m).
End Monad.

(** A method of a component run on the whole state. *)
Definition zoom {S T A} (proj : S -> T) (upd : T -> S -> S) (m : prog T A)
  : prog S A :=
  fun w s => let '(t, c, r) := m w (proj s) in (t, upd c s, r).

Definition ok_unit (b : bool) : option unit := if b then Some tt else None.

Fixpoint mapM {S A B} (f : A -> prog S B) (l : list A) : prog S (list B) :=
  match l with
  | [] => ret []
  | x :: l' => bind (f x) (fun y => bind (mapM f l') (fun ys => ret (y :: ys)))
  end.

(** The events of the translation's audio artifact and model call. *)
Definition is_model_call (ev : event) : bool :=
  match ev with GenerateContent _ _ _ => true | _ => false end.

Definition is_cleanup (ev : event) : bool :=
  match ev with FileDelete _ | OsRemove _ => true | _ => false end.

Definition is_file_or_network (ev : event) : bool :=
  match ev with
  | GenaiConfigure _ | WavWrite _ _ _ | UploadFile _ | GenerateContent _ _ _
  | FileDelete _ | OsRemove _ => true
  | _ => false
  end.

Definition trace_of {S A} (r : trace * S * outcome A) : trace := fst (fst r).
Definition state_of {S A} (r : trace * S * outcome A) : S := snd (fst r).
Definition result_of {S A} (r : trace * S * outcome A) : outcome A := snd r.

End Effects.

Import Effects.

Notation "x <- m ;; k" := (bind m (fun x => k))
  (at level 61, m at next level, right associativity).
Notation "m ;; k" := (bind m (fun _ => k))
  (at level 61, right associativity).

(* ================================================================== *)
(** * The configuration *)
(* ================================================================== *)

(** One entry of the custom dictionary, a dict read with [d['balti']] and
    [d['english']]: a missing key is [None] here and a [KeyError] there. *)
Record DictEntry : Type := { balti : option pystr; english : option pystr }.

(** The configuration dict, read with [config.get(key, default)]: a
    missing key is [None].  The values have the types of
    [ConfigManager.load]'s defaults: a list of entries, two strings, a
    list of strings. *)
Record Config : Type := {
  dictionary : option (list DictEntry);
  tone : option pystr;
  context : option pystr;
  forbiddenWords : option (list pystr)
}.

(** [d.get(key, default)] *)
Definition get_default {A} (field : option A) (default : A) : A :=
  match field with Some v => v | None => default end.

(** [ConfigManager.load]'s [default_config]. *)
Definition default_config : Config :=
  {| dictionary := Some [];
     tone := Some (str "Casual");
     context := Some [];
     forbiddenWords := Some [] |}.

(* ================================================================== *)
(** * GeminiService *)
(* ================================================================== *)

(** The float audio of the recorder; [to_int16 x] stands for
    [(x * 32767).astype(np.int16)] on one sample. *)
Class Audio (sample : Type) : Type := { to_int16 : sample -> Z }.

Definition error_result (reason : pystr) : json :=
  JObject [(str "balti", JString (str "Error")); (str "english", JString reason)].

(** The acknowledgement of [handle_record]'s [start] branch. *)
Definition started : json := JObject [(str "status", JString (str "started"))].

Module GeminiService.

Record t : Type := { model : option pystr }.

(** [GeminiService(api_key)]; [not api_key] holds for [None] and for the
    empty string. *)
Definition __init__ (api_key : option pystr) : prog unit t :=
  match api_key with
  | None | Some [] => ret {| model := None |}
  | Some key =>
      try_except
        (call (GenaiConfigure key) (fun w => ok_unit (genai_configure_ok w)) APIError ;;
         ret {| model := Some (str "gemini-2.5-flash-preview-09-2025") |})
        (fun e => print (GeminiConfigError e) ;; ret {| model := None |})
  end.

Definition nl : pystr := [10%N].
Definition indent : pystr := str "            ".

(** One line of the prompt template, with the indentation it has in the
    source. *)
Definition template_line (content : pystr) : pystr := indent ++ content ++ nl.

(** [f"- {d['balti']} -> {d['english']}"] *)
Definition entry_line (d : DictEntry) : prog t pystr :=
  b <- of_option (balti d) (KeyError (str "balti")) ;;
  e <- of_option (english d) (KeyError (str "english")) ;;
  ret (str "- " ++ b ++ str " -> " ++ e).

(** [dict_str]: the entries' lines joined by line feeds; the list
    comprehension raises [KeyError] at the first entry that lacks a key. *)
Definition dict_str (config : Config) : prog t pystr :=
  lines <- mapM entry_line (get_default (dictionary config) []) ;;
  ret (join nl lines).

Definition forbidden_str (config : Config) : pystr :=
  join (str ", ") (get_default (forbiddenWords config) []).

(** The f-string [prompt], for the values of [dict_str] and
    [forbidden_str]. *)
Definition prompt (config : Config) (dict_str forbidden_str : pystr) : pystr :=
  nl
  ++ template_line (str "You are an expert Balti-to-English translator.")
  ++ template_line []
  ++ template_line (str "CONFIGURATION:")
  ++ template_line
       (str "- Context: " ++ get_default (context config) (str "General"))
  ++ template_line (str "- Tone: " ++ get_default (tone config) (str "Casual"))
  ++ template_line (str "- Blocked Words: " ++ forbidden_str)
  ++ template_line []
  ++ template_line (str "CUSTOM DICTIONARY:")
  ++ template_line dict_str
  ++ template_line []
  ++ template_line (str "TASK:")
  ++ template_line (str "1. Transcribe the Balti speech.")
  ++ template_line (str "2. Translate it to English.")
  ++ template_line []
  ++ template_line (str "RESPONSE FORMAT (JSON ONLY):")
  ++ template_line (qstr "{ 'balti': '...', 'english': '...' }")
  ++ indent.

(** The two markers [translate] removes from the reply. *)
Definition json_fence : pystr := str "```json".
Definition fence : pystr := str "```".

(** [response.text.replace('```json', '').replace('```', '').strip()] *)
Definition clean (response_text : pystr) : pystr :=
  strip (replace (replace response_text json_fence []) fence []).

Section Translate.
Context {sample : Type} `{Audio sample}.

Definition translate (audio_data : list sample) (sample_rate : Z)
  (config : Config) : prog t json :=
  self <- get ;;
  match model self with
  | None => ret (error_result (str "API Key Missing"))
  | Some model_name =>
      try_except
        (let filename := str "temp_audio.wav" in
         let audio_int16 := map to_int16 audio_data in
         call (WavWrite filename sample_rate audio_int16)
              (fun w => ok_unit (wav_write_ok w)) OSError ;;
         audio_file <-
           call (UploadFile filename)
                (fun w => if upload_file_ok w
                          then Some (UploadedFile filename) else None)
                APIError ;;
         dict_str <- dict_str config ;;
         let forbidden_str := forbidden_str config in
         let prompt := prompt config dict_str forbidden_str in
         response <-
           call (GenerateContent model_name prompt audio_file)
                generate_content APIError ;;
         try_except
           (call (FileDelete audio_file)
                 (fun w => ok_unit (file_delete_ok w)) APIError ;;
            call (OsRemove filename)
                 (fun w => ok_unit (os_remove_ok w)) OSError)
           (fun _ => ret tt) ;;
         response_text <- of_option (text response) ValueError ;;
         let text := clean response_text in
         of_option (loads text) JSONDecodeError)
        (fun e =>
           print (TranslationError e) ;;
           ret (error_result (str "Translation Failed")))
  end.
End Translate.

End GeminiService.

(* ================================================================== *)
(** * AudioRecorder *)
(* ================================================================== *)

Module AudioRecorder.

Section Recorder.
Context {sample : Type}.

(** One buffer of the capture callback. *)
Definition frame : Type := list sample.

Record t : Type := {
  recording : bool;
  audio_data : list frame;
  stream : option Stream;
  sample_rate : Z
}.

Definition __init__ : t :=
  {| recording := false; audio_data := []; stream := None; sample_rate := 16000 |}.

Definition set_recording (b : bool) : prog t unit :=
  self <- get ;;
  put {| recording := b; audio_data := audio_data self;
         stream := stream self; sample_rate := sample_rate self |}.

Definition set_audio_data (d : list frame) : prog t unit :=
  self <- get ;;
  put {| recording := recording self; audio_data := d;
         stream := stream self; sample_rate := sample_rate self |}.

Definition set_stream (s : option Stream) : prog t unit :=
  self <- get ;;
  put {| recording := recording self; audio_data := audio_data self;
         stream := s; sample_rate := sample_rate self |}.

Definition start : prog t unit :=
  set_recording true ;;
  set_audio_data [] ;;
  try_except
    (self <- get ;;
     s <- call (StreamOpen 1 (sample_rate self))
               (fun w => if stream_open_ok w
                         then Some (InputStream 1 (sample_rate self)) else None)
               PortAudioError ;;
     set_stream (Some s) ;;
     call StreamStart (fun w => ok_unit (stream_start_ok w)) PortAudioError ;;
     print RecordingStarted)
    (fun e =>
       print (MicError e) ;;
       set_recording false).

(** [np.concatenate(self.audio_data, axis=0) if self.audio_data else
    np.array([])]; the stream's [stop] and [close] ignore errors. *)
Definition stop : prog t (list sample) :=
  set_recording false ;;
  self <- get ;;
  match stream self with
  | Some _ => emit StreamStop ;; emit StreamClose ;; print RecordingStopped
  | None => ret tt
  end ;;
  self <- get ;;
  ret (match audio_data self with
       | [] => []
       | _ :: _ => List.concat (audio_data self)
       end).

(** The capture callback, for the buffer [indata]; the copy appended is
    the content of the buffer at the time of the call. *)
Definition _callback (indata : frame) : prog t unit :=
  self <- get ;;
  if recording self
  then set_audio_data (audio_data self ++ [indata])
  else ret tt.

(** The capture backend calling back once per buffer, in order. *)
Fixpoint deliver (frames : list frame) : prog t unit :=
  match frames with
  | [] => ret tt
  | indata :: rest => _callback indata ;; deliver rest
  end.
End Recorder.

Arguments t : clear implicits.
Arguments frame : clear implicits.

End AudioRecorder.

(* ================================================================== *)
(** * The Flask handler of [/api/record] *)
(* ================================================================== *)

Section App.
Context {sample : Type} `{Audio sample}.

(** The module-level objects [gemini], [recorder] and [config]. *)
Record App : Type := {
  gemini : GeminiService.t;
  recorder : AudioRecorder.t sample;
  config : Config
}.

Definition with_gemini (m : GeminiService.t) (a : App) : App :=
  {| gemini := m; recorder := recorder a; config := config a |}.

Definition with_recorder (r : AudioRecorder.t sample) (a : App) : App :=
  {| gemini := gemini a; recorder := r; config := config a |}.

(** [action == literal] for the value of [data.get('action')]. *)
Definition action_is (action : option json) (literal : pystr) : bool :=
  match action with
  | Some (JString s) => PyStr.eqb s literal
  | _ => false
  end.

(** [handle_record], for the request body [data]; the result is the
    argument of [jsonify], or [None] when the function ends without a
    [return]. *)
Definition handle_record (data : json) : prog App (option json) :=
  action <-
    match data with
    | JObject items => ret (dict_get (str "action") items)
    | _ => raise AttributeError
    end ;;
  if action_is action (str "start") then
    zoom recorder with_recorder AudioRecorder.start ;;
    ret (Some started)
  else if action_is action (str "stop") then
    audio <- zoom recorder with_recorder AudioRecorder.stop ;;
    if Nat.eqb (List.length audio) 0 then
      ret (Some (error_result (str "No audio captured")))
    else
      app <- get ;;
      result <-
        zoom gemini with_gemini (GeminiService.translate audio 16000 (config app)) ;;
      ret (Some result)
  else ret None.
End App.

Arguments App sample : clear implicits.

(* ================================================================== *)
(** * ConfigManager, the API key and the handler of [/api/config] *)
(* ================================================================== *)

Module ConfigManager.

Definition CONFIG_FILE : pystr := str "config.json".

(** What the process finds at [CONFIG_FILE]. *)
Inductive file : Type :=
| Missing                    (* os.path.exists(CONFIG_FILE) is False *)
| Unreadable                 (* open(CONFIG_FILE, "r") or f.read() raises *)
| Text (content : pystr).    (* f.read() returns content *)

(** The disk: the file at [CONFIG_FILE], and whether
    [open(CONFIG_FILE, "w")] succeeds.  The writes to an opened file
    succeed, and what is written is what a later read returns. *)
Record disk : Type := { config_file : file; writable : bool }.

(** The items of [default_config]. *)
Definition defaults : list (pystr * json) :=
  [(str "dictionary", JArray []);
   (str "tone", JString (str "Casual"));
   (str "context", JString []);
   (str "forbiddenWords", JArray [])].

Definition default_config : json := JObject defaults.

(** [{**a, **b}] for the items of two dicts. *)
Definition merge (a b : list (pystr * json)) : list (pystr * json) :=
  fold_left (fun d kv => dict_set (fst kv) (snd kv) d) b a.

(** [ConfigManager.load()].  Whatever is raised inside the [try] (by
    [open], by [json.load], or by unpacking a value that is no dict) is
    discarded by the bare [except], and the defaults are returned. *)
Definition load (d : disk) : json :=
  match config_file d with
  | Missing => default_config
  | Unreadable => default_config
  | Text content =>
      match loads content with
      | Some (JObject items) => JObject (merge defaults items)
      | Some _ => default_config
      | None => default_config
      end
  end.

Section Save.
Context `{Float}.

(** [ConfigManager.save(config)] *)
Definition save (config : json) : prog disk unit :=
  d <- get ;;
  if writable d
  then put {| config_file := Text (dump config); writable := true |}
  else raise OSError.
End Save.

End ConfigManager.

(** [a or b] for two results of [os.getenv]: [None] and the empty string
    are false. *)
Definition or_else (a b : option pystr) : option pystr :=
  match a with
  | Some (_ :: _) => a
  | _ => b
  end.

(** [API_KEY], for the environment [load_dotenv] leaves. *)
Definition API_KEY (getenv : pystr -> option pystr) : option pystr :=
  or_else (getenv (str "VITE_GEMINI_API_KEY")) (getenv (str "GEMINI_API_KEY")).

Module Settings.

(** The module-level [config], and the disk. *)
Record state : Type := { config : json; files : ConfigManager.disk }.

Definition with_config (c : json) (s : state) : state :=
  {| config := c; files := files s |}.

Definition with_files (d : ConfigManager.disk) (s : state) : state :=
  {| config := config s; files := d |}.

(** [config = ConfigManager.load()] when the module is imported. *)
Definition startup (d : ConfigManager.disk) : state :=
  {| config := ConfigManager.load d; files := d |}.

Definition saved : json := JObject [(str "status", JString (str "saved"))].

Section Route.
Context `{Float}.

(** [handle_config], for [request.method] and, in a [POST], the value
    of [request.json]; the result is the argument of [jsonify]. *)
Definition handle_config (method : pystr) (request_json : json)
  : prog state json :=
  if PyStr.eqb method (str "POST") then
    s <- get ;;
    put (with_config request_json s) ;;
    s <- get ;;
    zoom files with_files (ConfigManager.save (config s)) ;;
    ret saved
  else
    s <- get ;;
    ret (config s).
End Route.

End Settings.

(* ================================================================== *)
(** * Notions for the statements about the translation client *)
(* ================================================================== *)

Module Rendering.
Import GeminiService.

(** [entry_line] without the monad. *)
Definition render_entry (d : DictEntry) : outcome pystr :=
  match balti d, english d with
  | Some b, Some e => Returned (str "- " ++ b ++ str " -> " ++ e)
  | None, _ => Raised (KeyError (str "balti"))
  | Some _, None => Raised (KeyError (str "english"))
  end.

(** The list comprehension of [dict_str] without the monad: the lines of
    the entries, or the exception of the first entry that raises. *)
Fixpoint render_entries (entries : list DictEntry) : outcome (list pystr) :=
  match entries with
  | [] => Returned []
  | d :: rest =>
      match render_entry d with
      | Raised e => Raised e
      | Returned l =>
          match render_entries rest with
          | Raised e => Raised e
          | Returned ls => Returned (l :: ls)
          end
      end
  end.

(** The entry has both keys. *)
Definition complete (d : DictEntry) : Prop :=
  balti d <> None /\ english d <> None.

(** The prompt up to the place of [dict_str], and from there on. *)
Definition before_dictionary (config : Config) : pystr :=
  nl
  ++ template_line (str "You are an expert Balti-to-English translator.")
  ++ template_line []
  ++ template_line (str "CONFIGURATION:")
  ++ template_line
       (str "- Context: " ++ get_default (context config) (str "General"))
  ++ template_line (str "- Tone: " ++ get_default (tone config) (str "Casual"))
  ++ template_line (str "- Blocked Words: " ++ forbidden_str config)
  ++ template_line []
  ++ template_line (str "CUSTOM DICTIONARY:")
  ++ indent.

Definition after_dictionary : pystr :=
  nl
  ++ template_line []
  ++ template_line (str "TASK:")
  ++ template_line (str "1. Transcribe the Balti speech.")
  ++ template_line (str "2. Translate it to English.")
  ++ template_line []
  ++ template_line (str "RESPONSE FORMAT (JSON ONLY):")
  ++ template_line (qstr "{ 'balti': '...', 'english': '...' }")
  ++ indent.

(** [line] is the line of the entry [d]: [- source -> target]. *)
Definition is_line_of (d : DictEntry) (line : pystr) : Prop :=
  exists source target,
    balti d = Some source /\ english d = Some target
    /\ line = str "- " ++ source ++ str " -> " ++ target.

Definition line_feed : char := 10%N.

(** Neither the source nor the target of the entry holds a line feed. *)
Definition one_line (d : DictEntry) : Prop :=
  (forall source, balti d = Some source -> ~ In line_feed source)
  /\ (forall target, english d = Some target -> ~ In line_feed target).

Definition tick : char := 96%N.

(** The error result of [translate]'s handler. *)
Definition failed : json := error_result (str "Translation Failed").

(** [filename] in [translate]. *)
Definition temp_audio : pystr := str "temp_audio.wav".

(** The events of the cleanup block: [os.remove] is reached when
    [audio_file.delete()] returned. *)
Definition cleanup_trace (w : world) (audio_file : File) : trace :=
  if file_delete_ok w
  then [FileDelete audio_file; OsRemove temp_audio]
  else [FileDelete audio_file].

End Rendering.

(* ================================================================== *)
(** * Concrete inputs *)
(* ================================================================== *)

Module Examples.

(** Integer samples, converted as they are. *)
#[export] Instance int_audio : Audio Z := {| to_int16 := fun x => x |}.

Definition reply_of (s : pystr) : option Response := Some {| text := Some s |}.

(** A world in which every call returns and the model answers [reply]. *)
Definition world_replying (reply : pystr) : world :=
  {| genai_configure_ok := true;
     wav_write_ok := true;
     upload_file_ok := true;
     generate_content := reply_of reply;
     file_delete_ok := true;
     os_remove_ok := true;
     stream_open_ok := true;
     stream_start_ok := true |}.

Definition kho_this : pystr := qstr "{'balti': 'kho', 'english': 'this'}".

Definition calm : world := world_replying kho_this.

(** The reply [{"balti": "kho"}] lacks the field [english]. *)
Definition only_balti : pystr := qstr "{'balti': 'kho'}".

(** A payload with the two fields, one of which holds three backquotes. *)
Definition ticks_inside : pystr := qstr "{'balti': 'a```b', 'english': 'c'}".

(** [payload] between a tagged fence and the closing fence, each on a
    line of its own. *)
Definition fenced (payload : pystr) : pystr :=
  GeminiService.json_fence ++ GeminiService.nl ++ payload
  ++ GeminiService.nl ++ GeminiService.fence.


(** The model call raises. *)
Definition model_down : world :=
  {| genai_configure_ok := true;
     wav_write_ok := true;
     upload_file_ok := true;
     generate_content := None;
     file_delete_ok := true;
     os_remove_ok := true;
     stream_open_ok := true;
     stream_start_ok := true |}.

Definition flash : GeminiService.t :=
  {| GeminiService.model := Some (str "gemini-2.5-flash-preview-09-2025") |}.

Definition keyless : GeminiService.t := {| GeminiService.model := None |}.

Definition two_entries : Config :=
  {| dictionary :=
       Some [ {| balti := Some (str "chu"); english := Some (str "water") |};
              {| balti := Some (str "khi"); english := Some (str "dog") |} ];
     tone := Some (str "Formal");
     context := None;
     forbiddenWords := Some [str "foo"; str "bar"] |}.

(** One entry, whose source holds a line feed. *)
Definition line_feed_in_source : Config :=
  {| dictionary :=
       Some [ {| balti := Some (str "x -> y" ++ [10%N] ++ str "- z");
                 english := Some (str "w") |} ];
     tone := Some (str "Formal");
     context := None;
     forbiddenWords := Some [str "foo"; str "bar"] |}.

(** Two entries, which read as that one does. *)
Definition two_short_entries : Config :=
  {| dictionary :=
       Some [ {| balti := Some (str "x"); english := Some (str "y") |};
              {| balti := Some (str "z"); english := Some (str "w") |} ];
     tone := Some (str "Formal");
     context := None;
     forbiddenWords := Some [str "foo"; str "bar"] |}.

Definition fresh_app : App Z :=
  {| gemini := flash; recorder := AudioRecorder.__init__; config := default_config |}.

Definition request (action : string) : json :=
  JObject [(str "action", JString (str action))].

(** A session that recorded the buffers [[1; 2]] and [[3]] and was
    stopped. *)
Definition stopped_session : AudioRecorder.t Z :=
  state_of
    ((AudioRecorder.start ;;
      AudioRecorder.deliver [[1; 2]; [3]]%Z ;;
      AudioRecorder.stop) calm AudioRecorder.__init__).

End Examples.

(* ================================================================== *)
(** * Concrete inputs for the configuration and the pipeline *)
(* ================================================================== *)

Module Samples.

(** A float written as it was read; the values below hold no float. *)
#[export] Instance written_as_read : Float := {| floatstr := fun lexeme => lexeme |}.

(** A posted configuration with two of the four keys. *)
Definition formal : list (pystr * json) :=
  [(str "tone", JString (str "Formal"));
   (str "dictionary",
    JArray [JObject [(str "balti", JString (str "chu"));
                     (str "english", JString (str "water"))]])].

Definition no_file : ConfigManager.disk :=
  {| ConfigManager.config_file := ConfigManager.Missing;
     ConfigManager.writable := true |}.

(** A file that holds a JSON list, not an object. *)
Definition list_on_disk : ConfigManager.disk :=
  {| ConfigManager.config_file := ConfigManager.Text (str "[1, 2]");
     ConfigManager.writable := true |}.

(** The items of a file that sets the tone and a key of its own. *)
Definition tuned_items : list (pystr * json) :=
  [(str "tone", JString (str "Formal")); (str "theme", JString (str "dark"))].

Definition tuned_text : pystr := qstr "{'tone': 'Formal', 'theme': 'dark'}".

Definition tuned : ConfigManager.disk :=
  {| ConfigManager.config_file := ConfigManager.Text tuned_text;
     ConfigManager.writable := true |}.

(** The same file, which cannot be opened for writing. *)
Definition read_only : ConfigManager.disk :=
  {| ConfigManager.config_file := ConfigManager.Text tuned_text;
     ConfigManager.writable := false |}.

(** [genai.configure] raises. *)
Definition configure_fails : world :=
  {| genai_configure_ok := false;
     wav_write_ok := true;
     upload_file_ok := true;
     generate_content := Examples.reply_of Examples.kho_this;
     file_delete_ok := true;
     os_remove_ok := true;
     stream_open_ok := true;
     stream_start_ok := true |}.

(** A dictionary whose second entry lacks [english]. *)
Definition missing_english : Config :=
  {| dictionary :=
       Some [ {| balti := Some (str "chu"); english := Some (str "water") |};
              {| balti := Some (str "khi"); english := None |} ];
     tone := Some (str "Formal");
     context := None;
     forbiddenWords := None |}.

(** An application whose session recorded three samples and was
    stopped. *)
Definition recorded_app : App Z :=
  {| gemini := Examples.flash;
     recorder := Examples.stopped_session;
     config := default_config |}.

End Samples.

(* ================================================================== *)
(** * Facts about the recorder *)
(* ================================================================== *)

Lemma pystr_eqb_eq (s t : pystr) : PyStr.eqb s t = true <-> s = t.
Proof.
  revert t; induction s as [|c s IH]; intros [|d t]; simpl; split; intro E;
    try reflexivity; try discriminate.
  - apply andb_true_iff in E as [E1 E2]. apply N.eqb_eq in E1. apply IH in E2.
    congruence.
  - injection E as -> ->. rewrite N.eqb_refl. simpl. now apply IH.
Qed.

Lemma pystr_eqb_neq (s t : pystr) : PyStr.eqb s t = false <-> s <> t.
Proof.
  destruct (PyStr.eqb s t) eqn:E; split; intro F; try discriminate; try reflexivity.
  - apply pystr_eqb_eq in E. contradiction.
  - intro G. apply pystr_eqb_eq in G. congruence.
Qed.

Lemma last_app_nonempty {A} (l l' : list A) (d : A) :
  l' <> [] -> last (l ++ l') d = last l' d.
Proof.
  intros Hne. induction l as [|x l IH]; [reflexivity|].
  cbn [app]. destruct (l ++ l') eqn:E.
  - apply app_eq_nil in E as [_ E]. contradiction.
  - exact IH.
Qed.

Lemma forallb_rev {A} (f : A -> bool) (l : list A) :
  forallb f (rev l) = forallb f l.
Proof.
  induction l as [|x l IH]; [reflexivity|].
  simpl. rewrite forallb_app, IH. simpl. rewrite andb_true_r. apply andb_comm.
Qed.

Lemma rev_last_head {A} (l : list A) (d : A) :
  l <> [] -> exists t, rev l = last l d :: t.
Proof.
  intros Hne. destruct (exists_last Hne) as (l' & x & ->).
  rewrite rev_app_distr, last_last. simpl. eauto.
Qed.

(** Unfolds the monad's operations in a run. *)
Ltac run :=
  unfold try_except, bind, ret, raise, get, put, emit, print, call, of_option,
    zoom, ok_unit, trace_of, state_of, result_of in *;
  simpl in *.

Module RecorderFacts.
Import AudioRecorder.

Section Facts.
Context {sample : Type}.
Implicit Types (self : AudioRecorder.t sample) (w : world).

Lemma concat_length (frames : list (list sample)) :
  List.length (List.concat frames)
  = list_sum (map (@List.length sample) frames).
Proof.
  induction frames as [|f fs IH]; simpl; [reflexivity|].
  now rewrite length_app, IH.
Qed.

(** [start] when the stream opens and starts. *)
Lemma start_opened w self :
  stream_open_ok w = true -> stream_start_ok w = true ->
  start w self =
    ([StreamOpen 1 (sample_rate self); StreamStart; Print RecordingStarted],
     {| recording := true; audio_data := [];
        stream := Some (InputStream 1 (sample_rate self));
        sample_rate := sample_rate self |},
     Returned tt).
Proof.
  intros Ho Hs. unfold start, set_recording, set_audio_data, set_stream. run.
  rewrite Ho, Hs. reflexivity.
Qed.

(** [start] when [sd.InputStream(...)] raises: the old stream object, if
    any, stays in [self.stream]. *)
Lemma start_open_raises w self :
  stream_open_ok w = false ->
  start w self =
    ([StreamOpen 1 (sample_rate self); Print (MicError PortAudioError)],
     {| recording := false; audio_data := [];
        stream := stream self; sample_rate := sample_rate self |},
     Returned tt).
Proof.
  intros Ho. unfold start, set_recording, set_audio_data, set_stream. run.
  rewrite Ho. reflexivity.
Qed.

(** [start] when [stream.start()] raises. *)
Lemma start_start_raises w self :
  stream_open_ok w = true -> stream_start_ok w = false ->
  start w self =
    ([StreamOpen 1 (sample_rate self); StreamStart;
      Print (MicError PortAudioError)],
     {| recording := false; audio_data := [];
        stream := Some (InputStream 1 (sample_rate self));
        sample_rate := sample_rate self |},
     Returned tt).
Proof.
  intros Ho Hs. unfold start, set_recording, set_audio_data, set_stream. run.
  rewrite Ho, Hs. reflexivity.
Qed.

(** [stop] in any state. *)
Lemma stop_run w self :
  stop w self =
    (match stream self with
     | Some _ => [StreamStop; StreamClose; Print RecordingStopped]
     | None => []
     end,
     {| recording := false; audio_data := audio_data self;
        stream := stream self; sample_rate := sample_rate self |},
     Returned (List.concat (audio_data self))).
Proof.
  unfold stop, set_recording. run.
  destruct (stream self); simpl; destruct (audio_data self); reflexivity.
Qed.

(** While recording, the buffers delivered are appended in order. *)
Lemma deliver_recording (frames : list (frame sample)) :
  forall w self, recording self = true ->
    deliver frames w self =
    ([], {| recording := true; audio_data := audio_data self ++ frames;
            stream := stream self; sample_rate := sample_rate self |},
     Returned tt).
Proof.
  induction frames as [|f fs IH]; intros w self Hrec.
  - simpl. unfold ret. destruct self; simpl in *; subst. now rewrite app_nil_r.
  - simpl. unfold bind at 1. unfold _callback at 1, set_audio_data.
    unfold bind, get, put. simpl. rewrite Hrec. simpl.
    rewrite IH by (simpl; assumption). simpl. now rewrite <- app_assoc.
Qed.

(** When idle, the buffers delivered are dropped. *)
Lemma deliver_idle (frames : list (frame sample)) :
  forall w self, recording self = false ->
    deliver frames w self = ([], self, Returned tt).
Proof.
  induction frames as [|f fs IH]; intros w self Hrec; [reflexivity|].
  simpl. unfold bind at 1. unfold _callback at 1.
  unfold bind, get, ret. simpl. rewrite Hrec. simpl.
  now rewrite IH.
Qed.
End Facts.
End RecorderFacts.

(* ================================================================== *)
(** * Facts about [GeminiService.translate] *)
(* ================================================================== *)

Module TranslateFacts.
Import GeminiService Rendering.

Lemma entry_line_run (d : DictEntry) w (self : t) :
  entry_line d w self = ([], self, render_entry d).
Proof.
  unfold entry_line, render_entry. run.
  destruct (balti d); simpl; [destruct (english d)|]; reflexivity.
Qed.

Lemma mapM_entry_line_run (entries : list DictEntry) w (self : t) :
  mapM entry_line entries w self = ([], self, render_entries entries).
Proof.
  induction entries as [|d ds IH]; [reflexivity|].
  simpl. unfold bind at 1. rewrite entry_line_run.
  destruct (render_entry d) as [l|e]; [|reflexivity].
  unfold bind at 1. rewrite IH.
  destruct (render_entries ds); reflexivity.
Qed.

Lemma dict_str_run (config : Config) w (self : t) :
  dict_str config w self =
    ([], self,
     match render_entries (get_default (dictionary config) []) with
     | Returned ls => Returned (join nl ls)
     | Raised e => Raised e
     end).
Proof.
  unfold dict_str. unfold bind at 1. rewrite mapM_entry_line_run.
  destruct (render_entries _); reflexivity.
Qed.

Section Paths.
Context {sample : Type} `{Audio sample}.
Variables (audio_data : list sample) (sample_rate : Z) (config : Config).
Variables (w : world) (self : t) (model_name : pystr).
Hypothesis Hmodel : model self = Some model_name.

Let staged : trace :=
  [WavWrite temp_audio sample_rate (map to_int16 audio_data);
   UploadFile temp_audio].

(** No model: nothing is done. *)
Lemma translate_without_model (self' : t) :
  model self' = None ->
  translate audio_data sample_rate config w self' =
    ([], self', Returned (error_result (str "API Key Missing"))).
Proof.
  intros Hnone. unfold translate. unfold bind at 1, get. now rewrite Hnone.
Qed.

(** [translate] up to the model call, when the audio is staged and the
    prompt is built. *)
Lemma translate_run (dict : list pystr) :
  wav_write_ok w = true -> upload_file_ok w = true ->
  render_entries (get_default (dictionary config) []) = Returned dict ->
  let call_event :=
    GenerateContent model_name
      (prompt config (join nl dict) (forbidden_str config))
      (UploadedFile temp_audio) in
  translate audio_data sample_rate config w self =
    match generate_content w with
    | None =>
        (staged ++ [call_event; Print (TranslationError APIError)],
         self, Returned failed)
    | Some response =>
        match text response with
        | None =>
            (staged ++ call_event :: cleanup_trace w (UploadedFile temp_audio)
               ++ [Print (TranslationError ValueError)],
             self, Returned failed)
        | Some reply =>
            match loads (clean reply) with
            | Some v =>
                (staged ++ call_event
                   :: cleanup_trace w (UploadedFile temp_audio),
                 self, Returned v)
            | None =>
                (staged ++ call_event
                   :: cleanup_trace w (UploadedFile temp_audio)
                   ++ [Print (TranslationError JSONDecodeError)],
                 self, Returned failed)
            end
        end
    end.
Proof.
  intros Hwav Hup Hdict call_event. subst call_event.
  unfold translate. unfold bind at 1, get. rewrite Hmodel.
  unfold try_except at 1.
  unfold bind at 1. unfold call at 1. rewrite Hwav. cbn [ok_unit].
  unfold bind at 1. unfold call at 1. rewrite Hup.
  unfold bind at 1. rewrite dict_str_run, Hdict.
  unfold bind at 1. unfold call at 1.
  destruct (generate_content w) as [response|]; [|reflexivity].
  unfold bind at 1. unfold try_except at 1. unfold cleanup_trace.
  unfold bind at 1. unfold call at 1.
  destruct (file_delete_ok w); cbn [ok_unit].
  - unfold call at 1. destruct (os_remove_ok w); cbn [ok_unit];
      unfold bind at 1; unfold of_option at 1;
      (destruct (text response) as [reply|]; [|reflexivity]);
      unfold ret at 1; unfold bind at 1; unfold ret at 1; unfold of_option;
      destruct (loads (clean reply)); reflexivity.
  - unfold ret at 1.
    unfold bind at 1; unfold of_option at 1;
      (destruct (text response) as [reply|]; [|reflexivity]);
      unfold ret at 1; unfold of_option;
      destruct (loads (clean reply)); reflexivity.
Qed.

(** The result of [translate] on every path. *)
Lemma translate_result :
  result_of (translate audio_data sample_rate config w self) =
    Returned
      (if wav_write_ok w && upload_file_ok w then
         match render_entries (get_default (dictionary config) []),
               generate_content w with
         | Returned _, Some response =>
             match text response with
             | Some reply =>
                 match loads (clean reply) with
                 | Some v => v
                 | None => failed
                 end
             | None => failed
             end
         | _, _ => failed
         end
       else failed).
Proof.
  destruct (wav_write_ok w) eqn:Hwav; cbn [andb].
  2:{ unfold translate. unfold bind at 1, get. rewrite Hmodel.
      unfold try_except at 1. unfold bind at 1. unfold call at 1.
      rewrite Hwav. reflexivity. }
  destruct (upload_file_ok w) eqn:Hup.
  2:{ unfold translate. unfold bind at 1, get. rewrite Hmodel.
      unfold try_except at 1. unfold bind at 1. unfold call at 1.
      rewrite Hwav. cbn [ok_unit]. unfold bind at 1. unfold call at 1.
      rewrite Hup. reflexivity. }
  destruct (render_entries (get_default (dictionary config) []))
    as [dict|e] eqn:Hdict.
  2:{ unfold translate. unfold bind at 1, get. rewrite Hmodel.
      unfold try_except at 1. unfold bind at 1. unfold call at 1.
      rewrite Hwav. cbn [ok_unit]. unfold bind at 1. unfold call at 1.
      rewrite Hup. unfold bind at 1. rewrite dict_str_run, Hdict.
      reflexivity. }
  rewrite (translate_run Hwav Hup Hdict).
  destruct (generate_content w) as [response|]; [|reflexivity].
  destruct (text response) as [reply|]; [|reflexivity].
  destruct (loads (clean reply)); reflexivity.
Qed.

(** Whatever the world answers, [translate] returns, and leaves the
    service as it is. *)
Lemma translate_returns :
  exists events result,
    translate audio_data sample_rate config w self
    = (events, self, Returned result).
Proof.
  unfold translate. unfold bind at 1, get. rewrite Hmodel.
  unfold try_except at 1.
  unfold bind at 1. unfold call at 1.
  destruct (wav_write_ok w); cbn [ok_unit]; [|do 2 eexists; reflexivity].
  unfold bind at 1. unfold call at 1.
  destruct (upload_file_ok w); [|do 2 eexists; reflexivity].
  unfold bind at 1. rewrite dict_str_run.
  destruct (render_entries _) as [dict|e]; [|do 2 eexists; reflexivity].
  unfold bind at 1. unfold call at 1.
  destruct (generate_content w) as [response|]; [|do 2 eexists; reflexivity].
  unfold bind at 1. unfold try_except at 1.
  unfold bind at 1. unfold call at 1.
  destruct (file_delete_ok w); cbn [ok_unit].
  - unfold call at 1. destruct (os_remove_ok w); cbn [ok_unit];
      unfold bind at 1; unfold of_option at 1;
      (destruct (text response) as [reply|]; [|do 2 eexists; reflexivity]);
      unfold ret at 1; unfold bind at 1; unfold ret at 1; unfold of_option;
      destruct (loads (clean reply)); do 2 eexists; reflexivity.
  - unfold ret at 1.
    unfold bind at 1; unfold of_option at 1;
      (destruct (text response) as [reply|]; [|do 2 eexists; reflexivity]);
      unfold ret at 1; unfold of_option;
      destruct (loads (clean reply)); do 2 eexists; reflexivity.
Qed.
End Paths.

(** Two worlds that differ at most in what the cleanup calls answer give
    the same result. *)
Lemma cleanup_failure_keeps_result {sample : Type} `{Audio sample}
    (audio_data : list sample) (sample_rate : Z) (config : Config)
    (w w' : world) (self : t) :
  wav_write_ok w = wav_write_ok w' ->
  upload_file_ok w = upload_file_ok w' ->
  generate_content w = generate_content w' ->
  result_of (translate audio_data sample_rate config w self)
  = result_of (translate audio_data sample_rate config w' self).
Proof.
  intros Hwav Hup Hgen.
  destruct (model self) as [name|] eqn:Hmodel;
    [|now rewrite !translate_without_model].
  rewrite (@translate_result _ _ audio_data sample_rate config w self name Hmodel),
    (@translate_result _ _ audio_data sample_rate config w' self name Hmodel).
  now rewrite Hwav, Hup, Hgen.
Qed.

End TranslateFacts.

(* ================================================================== *)
(** * Claims about the translation client *)
(* ================================================================== *)

Module PromptFacts.
Import GeminiService Rendering.

Lemma prompt_split (config : Config) (section : pystr) :
  prompt config section (forbidden_str config)
  = before_dictionary config ++ section ++ after_dictionary.
Proof.
  unfold prompt, before_dictionary, after_dictionary, template_line.
  repeat rewrite <- app_assoc. reflexivity.
Qed.

Lemma render_entries_lines (entries : list DictEntry) :
  forall lines, render_entries entries = Returned lines ->
                Forall2 is_line_of entries lines.
Proof.
  induction entries as [|d ds IH]; simpl; intros lines E.
  - injection E as <-. constructor.
  - unfold render_entry in E.
    destruct (balti d) as [b|] eqn:Eb; [|discriminate].
    destruct (english d) as [e|] eqn:Ee; [|discriminate].
    destruct (render_entries ds) as [ls|]; [|discriminate].
    injection E as <-. constructor; [|now apply IH].
    exists b, e. auto.
Qed.

Lemma render_entries_raises (entries : list DictEntry) :
  forall e, render_entries entries = Raised e ->
            exists d, In d entries /\ (balti d = None \/ english d = None).
Proof.
  induction entries as [|d ds IH]; simpl; intros e E; [discriminate|].
  unfold render_entry in E.
  destruct (balti d) as [b|] eqn:Eb; [|exists d; auto].
  destruct (english d) as [g|] eqn:Ee; [|exists d; auto].
  destruct (render_entries ds) as [ls|e'] eqn:Er; [discriminate|].
  destruct (IH e' eq_refl) as (d' & Hin & Hd). exists d'. auto.
Qed.

Lemma render_entries_complete (entries : list DictEntry) :
  Forall complete entries ->
  exists lines, render_entries entries = Returned lines.
Proof.
  induction 1 as [|d ds [Hb He] _ [ls IH]]; simpl; [now exists []|].
  unfold render_entry.
  destruct (balti d); [|contradiction]. destruct (english d); [|contradiction].
  rewrite IH. eauto.
Qed.

(** Splitting at line feeds undoes joining with line feeds, for lines
    that hold none. *)
Lemma split_line (x rest : pystr) :
  ~ In line_feed x ->
  split line_feed (x ++ line_feed :: rest) = x :: split line_feed rest.
Proof.
  induction x as [|c x IH]; simpl; intros Hx.
  - reflexivity.
  - destruct (N.eqb_spec c line_feed) as [->|_]; [exfalso; auto|].
    rewrite IH by auto. reflexivity.
Qed.

Lemma split_last_line (x : pystr) :
  ~ In line_feed x -> split line_feed x = [x].
Proof.
  induction x as [|c x IH]; simpl; intros Hx; [reflexivity|].
  destruct (N.eqb_spec c line_feed) as [->|_]; [exfalso; auto|].
  rewrite IH by auto. reflexivity.
Qed.

Lemma split_join (lines : list pystr) :
  lines <> [] -> Forall (fun l => ~ In line_feed l) lines ->
  split line_feed (join nl lines) = lines.
Proof.
  induction lines as [|x [|y ls] IH]; intros Hne Hall; [contradiction| |].
  - simpl. apply split_last_line. now inversion Hall.
  - inversion Hall as [|? ? Hx Hrest]; subst.
    change (join nl (x :: y :: ls)) with (x ++ line_feed :: join nl (y :: ls)).
    rewrite split_line by assumption. f_equal. apply IH; [discriminate|assumption].
Qed.

Lemma one_line_free (entries : list DictEntry) (lines : list pystr) :
  Forall2 is_line_of entries lines -> Forall one_line entries ->
  Forall (fun l => ~ In line_feed l) lines.
Proof.
  induction 1 as [|d l ds ls Hl _ IH]; intros Hall; [constructor|].
  inversion Hall as [|? ? [Hs Ht] Hrest]; subst. constructor; [|now apply IH].
  destruct Hl as (source & target & Eb & Ee & ->).
  rewrite !in_app_iff. intros [Hin|[Hin|[Hin|Hin]]].
  - cbv in Hin. intuition discriminate.
  - now apply (Hs source).
  - cbv in Hin. intuition discriminate.
  - now apply (Ht target).
Qed.

End PromptFacts.

(* ================================================================== *)
(** * Facts about the decoder's lexical level *)
(* ================================================================== *)

Module LexFacts.

Local Open Scope N_scope.

Lemma push_some c o v r :
  push c o = Some (v, r) -> exists v', o = Some (v', r) /\ v = c :: v'.
Proof.
  destruct o as [[v' r']|]; simpl; [|discriminate].
  intros E. injection E as <- <-. eauto.
Qed.

(** A literal that is scanned ends with its closing quote. *)
Lemma scanstring_closing :
  forall n s, (List.length s <= n)%nat ->
    forall v r, scanstring s = Some (v, r) -> exists body, s = body ++ 34 :: r.
Proof.
  induction n as [|n IH]; intros s Hlen v r E.
  - destruct s; [discriminate|simpl in Hlen; lia].
  - destruct s as [|c s1]; [discriminate|]. simpl in Hlen.
    assert (Hrec : forall pre s' v', (List.length s' <= n)%nat ->
              c :: s1 = pre ++ s' -> scanstring s' = Some (v', r) ->
              exists body, c :: s1 = body ++ 34 :: r).
    { intros pre s' v' Hl Hs E'. destruct (IH s' Hl _ _ E') as [body ->].
      exists (pre ++ body). now rewrite Hs, app_assoc. }
    cbn [scanstring] in E.
    destruct (c =? 34) eqn:Eq.
    { apply N.eqb_eq in Eq. subst c. injection E as <- <-. now exists []. }
    destruct (c =? 92).
    2:{ destruct (c <? 32); [discriminate|].
        apply push_some in E as (v' & E & _).
        apply (Hrec [c] s1 v'); [lia|reflexivity|assumption]. }
    destruct s1 as [|e s2]; [discriminate|].
    destruct (e =? 117).
    2:{ destruct (unescape e); [|discriminate].
        apply push_some in E as (v' & E & _).
        apply (Hrec [c; e] s2 v'); [simpl in *; lia|reflexivity|assumption]. }
    destruct s2 as [|h1 [|h2 [|h3 [|h4 s3]]]]; try discriminate.
    destruct (hex4 h1 h2 h3 h4) as [u|]; [|discriminate].
    assert (Hlone : forall v', scanstring s3 = Some (v', r) ->
              exists body, c :: e :: h1 :: h2 :: h3 :: h4 :: s3 = body ++ 34 :: r).
    { intros v' E'. apply (Hrec [c; e; h1; h2; h3; h4] s3 v');
        [simpl in *; lia|reflexivity|assumption]. }
    destruct (is_high_surrogate u).
    2:{ apply push_some in E as (v' & E & _). eauto. }
    destruct s3 as [|b [|e' [|g1 [|g2 [|g3 [|g4 s4]]]]]];
      try (apply push_some in E as (v' & E & _); eauto; fail).
    destruct ((b =? 92) && (e' =? 117));
      [|apply push_some in E as (v' & E & _); eauto].
    destruct (hex4 g1 g2 g3 g4) as [u2|]; [|discriminate].
    destruct (is_low_surrogate u2);
      apply push_some in E as (v' & E & _); eauto.
    apply (Hrec [c; e; h1; h2; h3; h4; b; e'; g1; g2; g3; g4] s4 v');
      [simpl in *; lia|reflexivity|assumption].
Qed.


(** ** What a token is made of *)

Lemma span_digits_spec (s : pystr) :
  forall ds r, span_digits s = (ds, r) ->
    s = ds ++ r /\ forallb is_digit ds = true.
Proof.
  induction s as [|c s IH]; cbn [span_digits]; intros ds r E.
  - injection E as <- <-. auto.
  - destruct (is_digit c) eqn:Ec.
    + destruct (span_digits s) as [ds' r'] eqn:Es. injection E as <- <-.
      destruct (IH _ _ eq_refl) as [-> Hd]. cbn [forallb]. rewrite Ec. auto.
    + injection E as <- <-. auto.
Qed.

Lemma digits_end (d : char) (ds : pystr) :
  is_digit d = true -> forallb is_digit ds = true ->
  is_digit (last (d :: ds) 0) = true.
Proof.
  revert d; induction ds as [|e ds IH]; intros d Hd Hds; [exact Hd|].
  cbn [forallb] in Hds. apply andb_true_iff in Hds as [He Hds].
  change (last (d :: e :: ds) 0) with (last (e :: ds) 0). now apply IH.
Qed.

Lemma digit_is_start (c : char) : is_digit c = true -> is_start c = true.
Proof. intros E. unfold is_start. rewrite E. now rewrite ?orb_true_r. Qed.

Lemma digit_is_end (c : char) : is_digit c = true -> is_end c = true.
Proof. intros E. unfold is_end. rewrite E. now rewrite ?orb_true_r. Qed.

(** The three parts of a number: what they consume ends with a digit. *)
Lemma scan_int_spec (s : pystr) :
  forall i r, scan_int s = Some (i, r) ->
    s = i ++ r
    /\ (exists c rest, i = c :: rest /\ is_start c = true)
    /\ is_digit (last i 0) = true.
Proof.
  intros i r. unfold scan_int.
  assert (Hbody : forall sign s1,
            (sign = [] \/ sign = [45]) ->
            match s1 with
            | [] => None
            | d :: s2 =>
                if d =? 48 then Some (sign ++ [d], s2)
                else if is_digit d
                     then let (ds, r) := span_digits s2 in Some (sign ++ d :: ds, r)
                     else None
            end = Some (i, r) ->
            sign ++ s1 = i ++ r
            /\ (exists c rest, i = c :: rest /\ is_start c = true)
            /\ is_digit (last i 0) = true).
  { intros sign s1 Hsign E. destruct s1 as [|d s2]; [discriminate|].
    destruct (N.eqb_spec d 48) as [->|_].
    - injection E as <- <-. rewrite <- app_assoc. split; [reflexivity|].
      split; [|now rewrite last_last].
      destruct Hsign as [-> | ->]; simpl; eauto.
    - destruct (is_digit d) eqn:Ed; [|discriminate].
      destruct (span_digits s2) as [ds r'] eqn:Es. injection E as <- <-.
      destruct (span_digits_spec _ Es) as [-> Hds].
      rewrite <- app_assoc. split; [reflexivity|]. split.
      + destruct Hsign as [-> | ->]; simpl; eauto using digit_is_start.
      + rewrite last_app_nonempty by discriminate. now apply digits_end. }
  destruct s as [|c s']; [discriminate|].
  destruct (N.eqb_spec c 45) as [->|_]; intros E.
  - apply (Hbody [45] s'); auto.
  - apply (Hbody [] (c :: s')); auto.
Qed.

Lemma scan_frac_spec (s : pystr) :
  forall f r, scan_frac s = Some (f, r) ->
    s = f ++ r /\ f <> [] /\ is_digit (last f 0) = true.
Proof.
  intros f r. unfold scan_frac. destruct s as [|c s1]; [discriminate|].
  destruct (c =? 46); [|discriminate].
  destruct (span_digits s1) as [[|d ds] r'] eqn:Es; [discriminate|].
  intros E. injection E as <- <-.
  destruct (span_digits_spec _ Es) as [-> Hds].
  cbn [forallb] in Hds. apply andb_true_iff in Hds as [Hd Hds].
  repeat split; [discriminate|].
  change (last (c :: d :: ds) 0) with (last (d :: ds) 0). now apply digits_end.
Qed.

Lemma scan_exp_spec (s : pystr) :
  forall e r, scan_exp s = Some (e, r) ->
    s = e ++ r /\ e <> [] /\ is_digit (last e 0) = true.
Proof.
  intros e r. unfold scan_exp. destruct s as [|c s1]; [discriminate|].
  destruct ((c =? 101) || (c =? 69)); [|discriminate].
  assert (Hbody : forall sign s2,
            match span_digits s2 with
            | ([], _) => None
            | (ds, r) => Some (c :: sign ++ ds, r)
            end = Some (e, r) ->
            c :: sign ++ s2 = e ++ r /\ e <> [] /\ is_digit (last e 0) = true).
  { intros sign s2 E.
    destruct (span_digits s2) as [[|d ds] r'] eqn:Es; [discriminate|].
    injection E as <- <-. destruct (span_digits_spec _ Es) as [-> Hds].
    cbn [forallb] in Hds. apply andb_true_iff in Hds as [Hd Hds].
    split; [cbn [app]; now rewrite <- app_assoc|]. split; [discriminate|].
    change (c :: sign ++ d :: ds) with ((c :: sign) ++ d :: ds).
    rewrite last_app_nonempty by discriminate. now apply digits_end. }
  destruct s1 as [|g s']; [apply (Hbody [] [])|].
  destruct ((g =? 43) || (g =? 45)).
  - apply (Hbody [g] s').
  - apply (Hbody [] (g :: s')).
Qed.

Lemma scan_number_spec (s : pystr) :
  forall t r, scan_number s = Some (t, r) ->
    exists lexeme, s = lexeme ++ r /\ token_text lexeme.
Proof.
  intros t r. unfold scan_number.
  destruct (scan_int s) as [[i r1]|] eqn:Ei; [|discriminate].
  destruct (scan_int_spec _ Ei) as (-> & (c & rest & -> & Hc) & Hi).
  assert (Hf : exists f r2,
            (match scan_frac r1 with Some (f, r) => (f, r) | None => ([], r1) end)
            = (f, r2)
            /\ r1 = f ++ r2 /\ (f = [] \/ is_digit (last f 0) = true)).
  { destruct (scan_frac r1) as [[f r2]|] eqn:Ef.
    - destruct (scan_frac_spec _ Ef) as (-> & _ & Hl). eauto 6.
    - exists [], r1. auto. }
  destruct Hf as (f & r2 & -> & -> & Hf).
  assert (He : exists e r3,
            (match scan_exp r2 with Some (e, r) => (e, r) | None => ([], r2) end)
            = (e, r3)
            /\ r2 = e ++ r3 /\ (e = [] \/ is_digit (last e 0) = true)).
  { destruct (scan_exp r2) as [[e r3]|] eqn:Ee.
    - destruct (scan_exp_spec _ Ee) as (-> & _ & Hl). eauto 6.
    - exists [], r2. auto. }
  destruct He as (e & r3 & -> & -> & He).
  intros E. assert (r = r3) by (destruct f, e; now injection E). subst r3.
  exists ((c :: rest) ++ f ++ e). split; [now rewrite <- !app_assoc|].
  exists c, (rest ++ f ++ e). split; [reflexivity|]. split; [assumption|].
  apply digit_is_end.
  destruct e as [|e0 e'].
  - rewrite app_nil_r. destruct f as [|f0 f'].
    + now rewrite app_nil_r.
    + rewrite last_app_nonempty by discriminate.
      destruct Hf; [discriminate|assumption].
  - rewrite app_assoc, last_app_nonempty by discriminate.
    destruct He; [discriminate|assumption].
Qed.

Lemma startswith_app (s prefix : pystr) :
  startswith s prefix = true -> s = prefix ++ skipn (List.length prefix) s.
Proof.
  revert s; induction prefix as [|p prefix IH]; intros s; [reflexivity|].
  destruct s as [|c s]; [discriminate|]. cbn [startswith].
  intros E. apply andb_true_iff in E as [E1 E2]. apply N.eqb_eq in E1.
  subst c. cbn [List.length skipn app]. f_equal. now apply IH.
Qed.

Lemma scan_literal_spec (s : pystr) :
  forall t r, scan_literal s = Some (t, r) ->
    exists lexeme, s = lexeme ++ r /\ token_text lexeme.
Proof.
  intros t r. unfold scan_literal.
  repeat match goal with
         | |- (if startswith s ?lit then _ else _) = _ -> _ =>
             let E := fresh "E" in
             destruct (startswith s lit) eqn:E;
             [ intros F; injection F as <- <-; exists lit;
               split; [exact (startswith_app _ _ E)|];
               do 2 eexists; repeat split
             | ]
         end.
  discriminate.
Qed.

(** What [next_token] consumes. *)
Lemma next_token_spec (s : pystr) :
  forall t r, next_token s = Some (t, r) ->
    exists lexeme, s = lexeme ++ r /\ token_text lexeme.
Proof.
  intros t r. unfold next_token. destruct s as [|c s']; [discriminate|].
  assert (Hone : is_start c = true -> is_end c = true ->
                 exists lexeme, c :: s' = lexeme ++ s' /\ token_text lexeme).
  { intros Hs He. exists [c]. split; [reflexivity|]. exists c, []. auto. }
  repeat match goal with
         | |- (if c =? ?k then Some (_, s') else _) = _ -> _ =>
             destruct (N.eqb_spec c k) as [->|_];
             [intros E; injection E as <- <-; now apply Hone|]
         end.
  destruct (N.eqb_spec c 34) as [->|_].
  - destruct (scanstring s') as [[v r']|] eqn:Es; [|discriminate].
    intros E. injection E as <- <-.
    destruct (@scanstring_closing (List.length s') s' (le_n _) v r' Es) as [body ->].
    exists (34 :: body ++ [34]). split.
    + cbn [app]. now rewrite <- app_assoc.
    + exists 34, (body ++ [34]). repeat split.
      change (34 :: body ++ [34]) with ((34 :: body) ++ [34]).
      now rewrite last_last.
  - destruct (scan_number (c :: s')) as [[t' r']|] eqn:En.
    + intros E. injection E as <- <-. now apply scan_number_spec in En.
    + apply scan_literal_spec.
Qed.

Lemma token_text_length (lexeme r : pystr) :
  token_text lexeme -> (List.length r < List.length (lexeme ++ r))%nat.
Proof.
  intros (c & rest & -> & _). rewrite length_app. simpl. lia.
Qed.


(** ** The lexer's loop *)

Lemma lex_nil (fuel : nat) : lex fuel [] = Some [].
Proof. now destruct fuel. Qed.

Lemma lex_cons (fuel : nat) (c : char) (s : pystr) :
  lex (S fuel) (c :: s) =
    if is_ws c then lex fuel s
    else match next_token (c :: s) with
         | Some (t, r) => option_map (cons t) (lex fuel r)
         | None => None
         end.
Proof. reflexivity. Qed.

(** Fuel beyond the length of the text changes nothing. *)
Lemma lex_enough :
  forall n s fuel, (List.length s <= n)%nat -> (List.length s <= fuel)%nat ->
    lex fuel s = lex (List.length s) s.
Proof.
  induction n as [|n IH]; intros s fuel Hn Hf.
  - destruct s; [now rewrite !lex_nil|simpl in Hn; lia].
  - destruct s as [|c s']; [now rewrite !lex_nil|].
    destruct fuel as [|fuel]; [simpl in Hf; lia|].
    simpl in Hn, Hf. cbn [List.length]. rewrite !lex_cons.
    destruct (is_ws c).
    + apply IH; lia.
    + destruct (next_token (c :: s')) as [[t r]|] eqn:Et; [|reflexivity].
      destruct (next_token_spec _ Et) as (lexeme & Hs & Hl).
      pose proof (token_text_length r Hl) as Hlen. rewrite <- Hs in Hlen.
      simpl in Hlen.
      rewrite (IH r fuel), (IH r (List.length s')) by lia. reflexivity.
Qed.

(** More fuel keeps a result. *)
Lemma lex_more :
  forall fuel s ts, lex fuel s = Some ts ->
    forall fuel', (fuel <= fuel')%nat -> lex fuel' s = Some ts.
Proof.
  induction fuel as [|fuel IH]; intros s ts E fuel' Hle.
  - destruct s; [|discriminate]. now rewrite lex_nil in *.
  - destruct s as [|c s']; [now rewrite lex_nil in *|].
    destruct fuel' as [|fuel']; [lia|]. rewrite lex_cons in *.
    destruct (is_ws c).
    + apply IH with (fuel' := fuel') in E; [assumption|lia].
    + destruct (next_token (c :: s')) as [[t r]|]; [|discriminate].
      destruct (lex fuel r) as [ts'|] eqn:Er; [|discriminate].
      rewrite (IH _ _ Er fuel') by lia. exact E.
Qed.

Lemma lex_tokens (fuel : nat) (s : pystr) (ts : list token) :
  lex fuel s = Some ts -> tokens s = Some ts.
Proof.
  intros E. unfold tokens.
  destruct (Nat.le_gt_cases (List.length s) fuel) as [Hle|Hgt].
  - now rewrite <- (@lex_enough (List.length s) s fuel (le_n _) Hle).
  - apply (lex_more _ E). lia.
Qed.

Lemma tokens_cons (c : char) (s : pystr) :
  tokens (c :: s) =
    if is_ws c then tokens s
    else match next_token (c :: s) with
         | Some (t, r) => option_map (cons t) (tokens r)
         | None => None
         end.
Proof.
  unfold tokens. cbn [List.length]. rewrite lex_cons.
  destruct (is_ws c); [reflexivity|].
  destruct (next_token (c :: s)) as [[t r]|] eqn:Et; [|reflexivity].
  destruct (next_token_spec _ Et) as (lexeme & Hs & Hl).
  pose proof (token_text_length r Hl) as Hlen. rewrite <- Hs in Hlen.
  simpl in Hlen. rewrite (@lex_enough (List.length s) r (List.length s)) by lia.
  reflexivity.
Qed.

(** A text with tokens begins, behind its leading white space, as a
    token does... *)
Lemma tokens_first (c : char) (s : pystr) (ts : list token) :
  tokens (c :: s) = Some ts -> is_ws c = false -> is_start c = true.
Proof.
  rewrite tokens_cons. intros E Hc. rewrite Hc in E.
  destruct (next_token (c :: s)) as [[t r]|] eqn:Et; [|discriminate].
  destruct (next_token_spec _ Et) as (lexeme & Hs & (c' & rest & -> & Hc' & _)).
  injection Hs as -> _. exact Hc'.
Qed.

(** ... and ends, before its trailing white space, as a token does. *)
Lemma tokens_last :
  forall n s ts, (List.length s <= n)%nat -> tokens s = Some ts -> s <> [] ->
    is_ws (last s 0) || is_end (last s 0) = true.
Proof.
  induction n as [|n IH]; intros s ts Hn E Hne.
  - destruct s; [contradiction|simpl in Hn; lia].
  - destruct s as [|c s']; [contradiction|]. simpl in Hn.
    rewrite tokens_cons in E. destruct (is_ws c) eqn:Hc.
    + destruct s' as [|d s'']; [simpl; now rewrite Hc|].
      change (last (c :: d :: s'') 0) with (last (d :: s'') 0).
      apply (IH _ ts); [simpl in *; lia|assumption|discriminate].
    + destruct (next_token (c :: s')) as [[t r]|] eqn:Et; [|discriminate].
      destruct (next_token_spec _ Et) as (lexeme & Hs & Hl).
      pose proof (token_text_length r Hl) as Hlen. rewrite <- Hs in Hlen.
      simpl in Hlen. rewrite Hs.
      destruct (tokens r) as [ts'|] eqn:Er; [|discriminate].
      destruct r as [|d r'].
      * rewrite app_nil_r. destruct Hl as (c' & rest & _ & _ & He).
        rewrite He. apply orb_true_r.
      * rewrite last_app_nonempty by discriminate.
        apply (IH _ ts'); [lia|assumption|discriminate].
Qed.


(** ** White space behind a text *)

Lemma is_ws_cases (w : char) :
  is_ws w = true -> w = 32 \/ w = 9 \/ w = 10 \/ w = 13.
Proof.
  unfold is_ws. intros E.
  repeat (apply orb_true_iff in E as [E|E]); apply N.eqb_eq in E; auto.
Qed.

Ltac ws_cases H :=
  apply is_ws_cases in H; destruct H as [-> | [-> | [-> | ->]]].

Lemma hexval_ws (w : char) : is_ws w = true -> hexval w = None.
Proof. intros E. ws_cases E; reflexivity. Qed.

Lemma hex4_ws (h1 h2 h3 w : char) : is_ws w = true -> hex4 h1 h2 h3 w = None.
Proof.
  intros E. unfold hex4. rewrite (hexval_ws _ E).
  destruct (hexval h1), (hexval h2), (hexval h3); reflexivity.
Qed.

Lemma push_extend (c : char) (b : pystr) (o : option (pystr * pystr)) :
  push c (extend b o) = extend b (push c o).
Proof. now destruct o as [[v r]|]. Qed.

Lemma scanstring_snoc :
  forall n s, (List.length s <= n)%nat ->
    forall w, is_ws w = true ->
      scanstring (s ++ [w]) = extend [w] (scanstring s).
Proof.
  induction n as [|n IH]; intros s Hlen w Hw.
  - destruct s; [|simpl in Hlen; lia]. ws_cases Hw; reflexivity.
  - destruct s as [|c s1]; [ws_cases Hw; reflexivity|]. simpl in Hlen.
    assert (Hrec : forall u s', (List.length s' < List.length (c :: s1))%nat ->
              push u (scanstring (s' ++ [w]))
              = extend [w] (push u (scanstring s'))).
    { intros u s' Hl. rewrite IH by (simpl in Hl; lia || assumption).
      apply push_extend. }
    cbn [app scanstring].
    destruct (c =? 34); [reflexivity|].
    destruct (c =? 92).
    2:{ destruct (c <? 32); [reflexivity|]. apply Hrec. simpl; lia. }
    destruct s1 as [|e s2]; [ws_cases Hw; reflexivity|].
    cbn [app].
    destruct (e =? 117).
    2:{ destruct (unescape e); [|reflexivity]. apply Hrec. simpl; lia. }
    destruct s2 as [|h1 [|h2 [|h3 [|h4 s3]]]]; try reflexivity.
    { cbn [app]. now rewrite hex4_ws. }
    cbn [app].
    destruct (hex4 h1 h2 h3 h4) as [u|]; [|reflexivity].
    destruct (is_high_surrogate u); [|apply Hrec; simpl; lia].
    destruct s3 as [|b [|e' [|g1 [|g2 [|g3 [|g4 s4]]]]]];
      try (apply (Hrec u); simpl; lia).
    + (* five code points behind the escape, the sixth is [w] *)
      cbn [app].
      destruct (N.eqb_spec b 92) as [->|_];
        [destruct (N.eqb_spec e' 117) as [->|_]|]; cbn [andb].
      * rewrite hex4_ws by assumption. reflexivity.
      * apply (Hrec u [92; e'; g1; g2; g3]). simpl; lia.
      * apply (Hrec u [b; e'; g1; g2; g3]). simpl; lia.
    + cbn [app].
      destruct ((b =? 92) && (e' =? 117));
        [|apply (Hrec u (b :: e' :: g1 :: g2 :: g3 :: g4 :: s4)); simpl; lia].
      destruct (hex4 g1 g2 g3 g4) as [u2|]; [|reflexivity].
      destruct (is_low_surrogate u2).
      * apply Hrec. simpl; lia.
      * apply (Hrec u (b :: e' :: g1 :: g2 :: g3 :: g4 :: s4)). simpl; lia.
Qed.


Lemma ws_not_digit (w : char) : is_ws w = true -> is_digit w = false.
Proof. intros E. ws_cases E; reflexivity. Qed.

Lemma span_digits_snoc (s : pystr) (w : char) :
  is_ws w = true ->
  span_digits (s ++ [w]) = (fst (span_digits s), snd (span_digits s) ++ [w]).
Proof.
  intros Hw. induction s as [|c s IH]; cbn [app span_digits].
  - now rewrite ws_not_digit.
  - destruct (is_digit c); [|reflexivity].
    rewrite IH. now destruct (span_digits s).
Qed.

Lemma scan_int_snoc (s : pystr) (w : char) :
  is_ws w = true -> scan_int (s ++ [w]) = extend [w] (scan_int s).
Proof.
  intros Hw.
  assert (Hbody : forall sign s1,
    match s1 ++ [w] with
    | [] => None
    | d :: s2 =>
        if d =? 48 then Some (sign ++ [d], s2)
        else if is_digit d
             then let (ds, r) := span_digits s2 in Some (sign ++ d :: ds, r)
             else None
    end
    = extend [w]
        match s1 with
        | [] => None
        | d :: s2 =>
            if d =? 48 then Some (sign ++ [d], s2)
            else if is_digit d
                 then let (ds, r) := span_digits s2 in Some (sign ++ d :: ds, r)
                 else None
        end).
  { intros sign [|d s2]; cbn [app].
    - pose proof Hw as Hw'. ws_cases Hw'; reflexivity.
    - destruct (d =? 48); [reflexivity|]. destruct (is_digit d); [|reflexivity].
      rewrite span_digits_snoc by assumption. now destruct (span_digits s2). }
  unfold scan_int. destruct s as [|c s']; cbn [app].
  - pose proof Hw as Hw'. ws_cases Hw'; reflexivity.
  - destruct (c =? 45).
    + apply Hbody.
    + apply (Hbody [] (c :: s')).
Qed.

Lemma scan_frac_snoc (s : pystr) (w : char) :
  is_ws w = true -> scan_frac (s ++ [w]) = extend [w] (scan_frac s).
Proof.
  intros Hw. unfold scan_frac. destruct s as [|c s1]; cbn [app].
  - pose proof Hw as Hw'. ws_cases Hw'; reflexivity.
  - destruct (c =? 46); [|reflexivity].
    rewrite span_digits_snoc by assumption.
    now destruct (span_digits s1) as [[|d ds] r].
Qed.

Lemma scan_exp_snoc (s : pystr) (w : char) :
  is_ws w = true -> scan_exp (s ++ [w]) = extend [w] (scan_exp s).
Proof.
  intros Hw. unfold scan_exp. destruct s as [|c s1]; cbn [app].
  - pose proof Hw as Hw'. ws_cases Hw'; reflexivity.
  - destruct ((c =? 101) || (c =? 69)); [|reflexivity].
    destruct s1 as [|g s2]; cbn [app].
    + pose proof Hw as Hw'. ws_cases Hw'; reflexivity.
    + destruct ((g =? 43) || (g =? 45)).
      * rewrite span_digits_snoc by assumption.
        now destruct (span_digits s2) as [[|d ds] r].
      * change (g :: s2 ++ [w]) with ((g :: s2) ++ [w]).
        rewrite (span_digits_snoc (g :: s2)) by assumption.
        now destruct (span_digits (g :: s2)) as [[|d ds] r].
Qed.

Lemma scan_number_snoc (s : pystr) (w : char) :
  is_ws w = true -> scan_number (s ++ [w]) = extend [w] (scan_number s).
Proof.
  intros Hw. unfold scan_number. rewrite scan_int_snoc by assumption.
  destruct (scan_int s) as [[i r1]|]; [|reflexivity]. cbn [extend].
  rewrite scan_frac_snoc by assumption.
  destruct (scan_frac r1) as [[f r2]|]; cbn [extend].
  - rewrite scan_exp_snoc by assumption.
    destruct (scan_exp r2) as [[e r3]|]; cbn [extend];
      [destruct f, e|destruct f]; reflexivity.
  - rewrite scan_exp_snoc by assumption.
    destruct (scan_exp r1) as [[e r3]|]; cbn [extend];
      [destruct e|]; reflexivity.
Qed.

Lemma startswith_snoc (literal s : pystr) (w : char) :
  is_ws w = true ->
  forallb (fun c => negb (is_ws c)) literal = true ->
  startswith (s ++ [w]) literal = startswith s literal.
Proof.
  intros Hw Hlit. revert s. induction literal as [|p literal IH]; intros s.
  - reflexivity.
  - cbn [forallb] in Hlit. apply andb_true_iff in Hlit as [Hp Hlit].
    destruct s as [|c s]; cbn [app startswith].
    + destruct (N.eqb_spec w p) as [->|_]; [|reflexivity].
      rewrite Hw in Hp. discriminate.
    + now rewrite IH.
Qed.

Lemma startswith_length (s prefix : pystr) :
  startswith s prefix = true -> (List.length prefix <= List.length s)%nat.
Proof.
  intros E. apply startswith_app in E. rewrite E, length_app. lia.
Qed.

Lemma skipn_snoc {A} (n : nat) (s : list A) (w : A) :
  (n <= List.length s)%nat -> skipn n (s ++ [w]) = skipn n s ++ [w].
Proof.
  intros Hn. rewrite skipn_app. replace (n - List.length s)%nat with 0%nat by lia.
  reflexivity.
Qed.

Lemma scan_literal_snoc (s : pystr) (w : char) :
  is_ws w = true -> scan_literal (s ++ [w]) = extend [w] (scan_literal s).
Proof.
  intros Hw. unfold scan_literal.
  repeat match goal with
         | |- context [startswith (s ++ [w]) ?lit] =>
             rewrite (@startswith_snoc lit s w Hw eq_refl);
             let E := fresh "E" in
             destruct (startswith s lit) eqn:E;
             [ cbn [extend]; apply startswith_length in E;
               rewrite skipn_snoc by exact E; reflexivity
             | ]
         end.
  reflexivity.
Qed.

Lemma next_token_snoc (c : char) (s : pystr) (w : char) :
  is_ws w = true ->
  next_token ((c :: s) ++ [w]) = extend [w] (next_token (c :: s)).
Proof.
  intros Hw. cbn [app]. unfold next_token.
  repeat match goal with
         | |- context [if c =? ?k then Some (_, s ++ [w]) else _] =>
             destruct (c =? k); [reflexivity|]
         end.
  destruct (c =? 34).
  - rewrite (@scanstring_snoc (List.length s) s (le_n _) w Hw).
    now destruct (scanstring s) as [[v r]|].
  - change (c :: s ++ [w]) with ((c :: s) ++ [w]).
    rewrite scan_number_snoc by assumption.
    destruct (scan_number (c :: s)) as [[t r]|]; [reflexivity|].
    now apply scan_literal_snoc.
Qed.

Lemma tokens_ws (w : char) (s : pystr) :
  is_ws w = true -> tokens (w :: s) = tokens s.
Proof. intros Hw. rewrite tokens_cons. now rewrite Hw. Qed.

(** One white space behind a text does not change its tokens. *)
Lemma tokens_snoc :
  forall n s, (List.length s <= n)%nat ->
    forall w, is_ws w = true -> tokens (s ++ [w]) = tokens s.
Proof.
  induction n as [|n IH]; intros s Hlen w Hw.
  - destruct s; [|simpl in Hlen; lia]. now apply tokens_ws.
  - destruct s as [|c s']; [now apply tokens_ws|]. simpl in Hlen.
    change ((c :: s') ++ [w]) with (c :: s' ++ [w]). rewrite !tokens_cons.
    destruct (is_ws c); [apply IH; [lia|assumption]|].
    change (c :: s' ++ [w]) with ((c :: s') ++ [w]).
    rewrite next_token_snoc by assumption.
    destruct (next_token (c :: s')) as [[t r]|] eqn:Et; [|reflexivity].
    cbn [extend].
    destruct (next_token_spec _ Et) as (lexeme & Hs & Hl).
    pose proof (token_text_length r Hl) as Hr. rewrite <- Hs in Hr.
    simpl in Hr. rewrite IH by (lia || assumption). reflexivity.
Qed.

(** White space around a text does not change its tokens. *)
Lemma tokens_trailing (b s : pystr) :
  forallb is_ws b = true -> tokens (s ++ b) = tokens s.
Proof.
  revert s. induction b as [|w b IH]; intros s Hb.
  - now rewrite app_nil_r.
  - cbn [forallb] in Hb. apply andb_true_iff in Hb as [Hw Hb].
    change (w :: b) with ([w] ++ b). rewrite app_assoc, IH by assumption.
    now apply (@tokens_snoc (List.length s)).
Qed.

Lemma tokens_leading (a s : pystr) :
  forallb is_ws a = true -> tokens (a ++ s) = tokens s.
Proof.
  induction a as [|w a IH]; intros Ha; [reflexivity|].
  cbn [forallb] in Ha. apply andb_true_iff in Ha as [Hw Ha].
  cbn [app]. rewrite tokens_ws by assumption. now apply IH.
Qed.


(** ** The text of a value *)

(** Every text is white space, a core that neither begins nor ends with
    white space, and white space. *)
Lemma trim_decompose (s : pystr) :
  exists a core b,
    s = a ++ core ++ b
    /\ forallb is_ws a = true /\ forallb is_ws b = true
    /\ (core = []
        \/ exists c rest, core = c :: rest /\ is_ws c = false
                          /\ is_ws (last core 0) = false).
Proof.
  induction s as [|c s (a & core & b & -> & Ha & Hb & Hcore)].
  - exists [], [], []. auto.
  - destruct (is_ws c) eqn:Hc.
    + destruct Hcore as [-> | Hcore].
      * exists [], [], (c :: a ++ b). repeat split; [|auto].
        cbn [app forallb]. now rewrite Hc, forallb_app, Ha, Hb.
      * exists (c :: a), core, b. repeat split; [|assumption|auto].
        cbn [forallb]. now rewrite Hc.
    + destruct Hcore as [-> | (d & rest & -> & Hd & Hlast)].
      * exists [], [c], (a ++ b). repeat split; [|right].
        -- now rewrite forallb_app, Ha, Hb.
        -- exists c, []. auto.
      * exists [], (c :: a ++ d :: rest), b. repeat split.
        -- cbn [app]. now rewrite <- app_assoc.
        -- assumption.
        -- right. exists c, (a ++ d :: rest). repeat split; [assumption|].
           change (c :: a ++ d :: rest) with ((c :: a) ++ d :: rest).
           now rewrite last_app_nonempty.
Qed.

Lemma loads_tokens (s s' : pystr) : tokens s = tokens s' -> loads s = loads s'.
Proof. unfold loads, tokens. now intros ->. Qed.

Lemma ws_is_space (c : char) : is_ws c = true -> isspace c = true.
Proof. intros E. ws_cases E; reflexivity. Qed.

Lemma ws_text_is_space (a : pystr) :
  forallb is_ws a = true -> forallb isspace a = true.
Proof.
  induction a as [|c a IH]; [reflexivity|]. cbn [forallb]. intros E.
  apply andb_true_iff in E as [E1 E2]. now rewrite ws_is_space, IH.
Qed.

(** A valid text is white space, the text of the value, and white space;
    the text of the value alone is valid too and has the same value. *)
Lemma loads_core (s : pystr) (v : json) :
  loads s = Some v ->
  exists a core b c rest,
    s = a ++ core ++ b
    /\ forallb is_ws a = true /\ forallb is_ws b = true
    /\ core = c :: rest
    /\ is_start c = true /\ is_end (last core 0) = true
    /\ loads core = Some v.
Proof.
  intros E. destruct (trim_decompose s) as (a & core & b & Hs & Ha & Hb & Hcore).
  assert (Et : tokens core = tokens s).
  { now rewrite Hs, tokens_leading, tokens_trailing. }
  assert (Ev : loads core = Some v) by now rewrite (loads_tokens _ _ Et).
  destruct Hcore as [-> | (c & rest & Hc & Hws & Hlast)]; [discriminate|].
  exists a, core, b, c, rest. repeat split; try assumption.
  - unfold loads in Ev. fold (tokens core) in Ev.
    destruct (tokens core) as [ts|] eqn:Ets; [|discriminate].
    rewrite Hc in Ets. exact (@tokens_first c rest ts Ets Hws).
  - unfold loads in Ev. fold (tokens core) in Ev.
    destruct (tokens core) as [ts|] eqn:Ets; [|discriminate].
    assert (Hne : core <> []) by now rewrite Hc.
    pose proof (@tokens_last (List.length core) core ts (le_n _) Ets Hne) as Hl.
    rewrite Hlast in Hl. exact Hl.
Qed.

Lemma digit_range (c : char) : is_digit c = true -> 48 <= c <= 57.
Proof.
  unfold is_digit. intros E. apply andb_true_iff in E as [E1 E2].
  apply N.leb_le in E1, E2. lia.
Qed.

Ltac char_facts :=
  repeat split;
  try (unfold isspace; repeat (apply orb_false_iff; split);
       first [ apply N.eqb_neq; lia
             | apply andb_false_iff; left; apply N.leb_gt; lia
             | apply andb_false_iff; right; apply N.leb_gt; lia ]);
  try lia.

(** A token begins with neither white space, a backquote nor [j], and
    ends with neither white space nor a backquote. *)
Lemma start_facts (c : char) :
  is_start c = true -> isspace c = false /\ c <> 96 /\ c <> 106.
Proof.
  unfold is_start. intros E.
  repeat (apply orb_true_iff in E as [E|E]);
    try (apply N.eqb_eq in E; subst c; repeat split; discriminate).
  apply digit_range in E. char_facts.
Qed.

Lemma end_facts (c : char) :
  is_end c = true -> isspace c = false /\ c <> 96.
Proof.
  unfold is_end. intros E.
  repeat (apply orb_true_iff in E as [E|E]);
    try (apply N.eqb_eq in E; subst c; repeat split; discriminate).
  apply digit_range in E. char_facts.
Qed.

End LexFacts.


(* ================================================================== *)
(** * Facts about [clean] on a fenced reply *)
(* ================================================================== *)

Module FenceFacts.
Import GeminiService Rendering.

Local Open Scope N_scope.

Lemma contains_cons_false (c : char) (s sub : pystr) :
  contains (c :: s) sub = false
  <-> startswith (c :: s) sub = false /\ contains s sub = false.
Proof. cbn [contains]. apply orb_false_iff. Qed.

Lemma contains_tail (c : char) (s sub : pystr) :
  contains (c :: s) sub = false -> contains s sub = false.
Proof. intros E. now apply contains_cons_false in E. Qed.

Lemma contains_behind (a s sub : pystr) :
  contains (a ++ s) sub = false -> contains s sub = false.
Proof.
  induction a as [|c a IH]; [auto|]. cbn [app]. intros E.
  apply IH. now apply contains_tail in E.
Qed.

Lemma startswith_more (s b prefix : pystr) :
  startswith s prefix = true -> startswith (s ++ b) prefix = true.
Proof.
  revert s. induction prefix as [|p prefix IH]; intros s; [reflexivity|].
  destruct s as [|c s]; [discriminate|]. cbn [app startswith].
  intros E. apply andb_true_iff in E as [-> E]. now rewrite IH.
Qed.

Lemma contains_before (s b sub : pystr) :
  contains (s ++ b) sub = false -> contains s sub = false.
Proof.
  induction s as [|c s IH]; intros E.
  - destruct sub as [|p sub]; [|reflexivity]. now destruct b.
  - cbn [app] in E. apply contains_cons_false in E as [E1 E2].
    apply contains_cons_false. split; [|now apply IH].
    destruct (startswith (c :: s) sub) eqn:Es; [|reflexivity].
    apply startswith_more with (b := b) in Es. cbn [app] in Es. congruence.
Qed.

(** Where [old] does not occur, [replace] changes nothing. *)
Lemma replace_absent (old new : pystr) (s : pystr) :
  contains s old = false -> replace_from old new 0 s = s.
Proof.
  induction s as [|c s IH]; [reflexivity|]. intros E.
  apply contains_cons_false in E as [E1 E2].
  cbn [replace_from]. rewrite E1. now rewrite IH.
Qed.

Lemma replace_from_miss (old new : pystr) (c : char) (s : pystr) :
  startswith (c :: s) old = false ->
  replace_from old new 0 (c :: s) = c :: replace_from old new 0 s.
Proof. intros E. cbn [replace_from]. now rewrite E. Qed.

Lemma lstrip_spaces (pre s : pystr) :
  forallb isspace pre = true -> lstrip (pre ++ s) = lstrip s.
Proof.
  induction pre as [|c pre IH]; [reflexivity|].
  cbn [forallb app lstrip]. intros E. apply andb_true_iff in E as [E1 E2].
  rewrite E1. auto.
Qed.

Lemma lstrip_keeps (c : char) (s : pystr) :
  isspace c = false -> lstrip (c :: s) = c :: s.
Proof. intros E. cbn [lstrip]. now rewrite E. Qed.

(** Stripping removes the white space around a text that neither begins
    nor ends with white space. *)
Lemma strip_padded (pre core post : pystr) (c : char) (rest : pystr) :
  forallb isspace pre = true -> forallb isspace post = true ->
  core = c :: rest -> isspace c = false -> isspace (last core 0) = false ->
  strip (pre ++ core ++ post) = core.
Proof.
  intros Hpre Hpost Hcore Hc Hlast. unfold strip, rstrip.
  rewrite lstrip_spaces by assumption.
  rewrite Hcore at 1. cbn [app]. rewrite lstrip_keeps by assumption.
  change (c :: rest ++ post) with ((c :: rest) ++ post). rewrite <- Hcore.
  rewrite rev_app_distr, lstrip_spaces by now rewrite forallb_rev.
  destruct (@rev_last_head _ core 0) as [t Ht]; [now rewrite Hcore|].
  rewrite Ht, lstrip_keeps by assumption. rewrite <- Ht. apply rev_involutive.
Qed.

(** No fence begins inside a fence-free text that is followed by the
    closing fence, unless the text ends with a backquote. *)
Lemma no_fence_before_closing (c : char) (x : pystr) :
  contains (c :: x) fence = false -> last (c :: x) 0 <> tick ->
  startswith ((c :: x) ++ fence) fence = false.
Proof.
  intros Hno Hlast. apply contains_cons_false in Hno as [Hno _].
  destruct x as [|d [|e x]].
  - simpl in Hlast. simpl. destruct (N.eqb_spec c 96); [contradiction|reflexivity].
  - simpl in Hlast. simpl. destruct (N.eqb_spec d 96); [contradiction|].
    now rewrite andb_false_r.
  - simpl in *. exact Hno.
Qed.

Lemma remove_closing_fence (x : pystr) :
  contains x fence = false -> last x 0 <> tick ->
  replace_from fence [] 0 (x ++ fence) = x.
Proof.
  induction x as [|c x IH]; intros Hno Hlast; [reflexivity|].
  pose proof (no_fence_before_closing _ _ Hno Hlast) as Hstart.
  change ((c :: x) ++ fence) with (c :: x ++ fence) in *.
  cbn [replace_from]. rewrite Hstart. f_equal.
  apply IH; [now apply contains_tail in Hno|].
  destruct x; [discriminate|exact Hlast].
Qed.

Lemma startswith_json_fence (s : pystr) :
  startswith s json_fence = true -> startswith s fence = true.
Proof.
  destruct s as [|a [|b [|c s]]]; simpl; try discriminate;
    try (now rewrite ?andb_false_r).
  intros E. apply andb_true_iff in E as [-> E].
  apply andb_true_iff in E as [-> E].
  apply andb_true_iff in E as [-> E]. reflexivity.
Qed.

Lemma json_fence_absent (x : pystr) :
  contains x fence = false -> last x 0 <> tick ->
  contains (x ++ fence) json_fence = false.
Proof.
  induction x as [|c x IH]; intros Hno Hlast; [reflexivity|].
  pose proof (no_fence_before_closing _ _ Hno Hlast) as Hstart.
  change ((c :: x) ++ fence) with (c :: x ++ fence) in *.
  apply contains_cons_false. split.
  - destruct (startswith (c :: x ++ fence) json_fence) eqn:E; [|reflexivity].
    apply startswith_json_fence in E. congruence.
  - apply IH; [now apply contains_tail in Hno|].
    destruct x; [discriminate|exact Hlast].
Qed.

(** The code points of a text that begins with the tagged fence. *)
Lemma startswith_json_fence_inv (s : pystr) :
  startswith s json_fence = true ->
  exists rest, s = 96 :: 96 :: 96 :: 106 :: rest.
Proof.
  destruct s as [|a [|b [|c [|d s]]]]; simpl; try discriminate;
    try (now rewrite ?andb_false_r).
  intros E.
  apply andb_true_iff in E as [Ea E]. apply andb_true_iff in E as [Eb E].
  apply andb_true_iff in E as [Ec E]. apply andb_true_iff in E as [Ed E].
  apply N.eqb_eq in Ea, Eb, Ec, Ed. subst. eauto.
Qed.

Lemma no_json_fence (s : pystr) :
  (forall rest, s <> 96 :: 96 :: 96 :: 106 :: rest) ->
  startswith s json_fence = false.
Proof.
  intros Hs. destruct (startswith s json_fence) eqn:E; [|reflexivity].
  apply startswith_json_fence_inv in E as [rest ->]. now destruct (Hs rest).
Qed.

(** The two replacements on a fence-free text between an opening fence
    (with or without the [json] tag) and the closing fence. *)
Lemma replace_fenced (tagged : bool) (c : char) (x : pystr) :
  contains (c :: x) fence = false -> last (c :: x) 0 <> tick ->
  c <> tick -> c <> 106 ->
  replace
    (replace ((if tagged then json_fence else fence) ++ (c :: x) ++ fence)
       json_fence [])
    fence []
  = c :: x.
Proof.
  intros Hno Hlast Htick Hj.
  assert (E7 : replace_from json_fence [] 0 ((c :: x) ++ fence) = (c :: x) ++ fence)
    by now apply replace_absent, json_fence_absent.
  assert (E3 : replace_from fence [] 0 ((c :: x) ++ fence) = c :: x)
    by now apply remove_closing_fence.
  destruct tagged.
  - change (replace (json_fence ++ (c :: x) ++ fence) json_fence [])
      with (replace_from json_fence [] 0 ((c :: x) ++ fence)).
    rewrite E7. exact E3.
  - assert (E : replace (fence ++ (c :: x) ++ fence) json_fence []
                = fence ++ (c :: x) ++ fence).
    { change (replace (fence ++ (c :: x) ++ fence) json_fence [])
        with (replace_from json_fence [] 0
                (96 :: 96 :: 96 :: (c :: x) ++ fence)).
      rewrite !replace_from_miss, E7; [reflexivity| | |];
        apply no_json_fence; intros rest Hrest; injection Hrest; intros;
        unfold tick in *; congruence. }
    rewrite E.
    change (replace (fence ++ (c :: x) ++ fence) fence [])
      with (replace_from fence [] 0 ((c :: x) ++ fence)).
    exact E3.
Qed.

Lemma space_not_tick (c : char) : isspace c = true -> c <> tick.
Proof. intros E ->. discriminate. Qed.

Lemma space_not_j (c : char) : isspace c = true -> c <> 106.
Proof. intros E ->. discriminate. Qed.

Lemma startswith_fence_spaces (c : char) (post : pystr) (ticks : pystr) :
  forallb isspace (c :: post) = true ->
  startswith (c :: post) (96 :: ticks) = false.
Proof.
  cbn [forallb startswith]. intros E. apply andb_true_iff in E as [E _].
  apply space_not_tick in E. now destruct (N.eqb_spec c 96).
Qed.

Lemma startswith_fence_padded (c : char) (y post : pystr) :
  forallb isspace post = true ->
  startswith (c :: y) fence = false ->
  startswith (c :: y ++ post) fence = false.
Proof.
  intros Hpost E. change fence with [96; 96; 96] in *.
  cbn [startswith] in *.
  destruct (c =? 96); [|reflexivity]. cbn [andb] in *.
  destruct y as [|d [|e y]]; cbn [app] in *.
  - destruct post as [|p post]; [reflexivity|].
    now apply (startswith_fence_spaces p post [96]).
  - destruct (d =? 96); [|reflexivity]. cbn [andb].
    destruct post as [|p post]; [reflexivity|].
    now apply (startswith_fence_spaces p post []).
  - exact E.
Qed.

Lemma spaces_hold_no_fence (post : pystr) :
  forallb isspace post = true -> contains post fence = false.
Proof.
  induction post as [|p post IH]; [reflexivity|]. intros E.
  apply contains_cons_false. split.
  - exact (startswith_fence_spaces p post [96; 96] E).
  - cbn [forallb] in E. apply andb_true_iff in E as [_ E]. now apply IH.
Qed.

Lemma padded_holds_no_fence (pre core post : pystr) :
  forallb isspace pre = true -> forallb isspace post = true ->
  contains core fence = false -> contains (pre ++ core ++ post) fence = false.
Proof.
  intros Hpre Hpost Hcore. induction pre as [|p pre IH].
  - clear Hpre. cbn [app]. induction core as [|c core IH].
    + now apply spaces_hold_no_fence.
    + apply contains_cons_false in Hcore as [H1 H2].
      cbn [app]. apply contains_cons_false. split.
      * exact (startswith_fence_padded c core post Hpost H1).
      * now apply IH.
  - cbn [app]. apply contains_cons_false.
    cbn [forallb] in Hpre. apply andb_true_iff in Hpre as [Hp Hpre]. split.
    + apply space_not_tick in Hp. change fence with [96; 96; 96].
      cbn [startswith]. now destruct (N.eqb_spec p 96).
    + now apply IH.
Qed.

Lemma last_spaces (post : pystr) :
  post <> [] -> forallb isspace post = true -> isspace (last post 0) = true.
Proof.
  intros Hne Hall. destruct (exists_last Hne) as (l & x & ->).
  rewrite last_last. rewrite forallb_app in Hall.
  apply andb_true_iff in Hall as [_ Hall]. simpl in Hall.
  now rewrite andb_true_r in Hall.
Qed.

(** What [clean] makes of a fenced reply: the text between the fences,
    without the white space around it, when that text holds no fence,
    begins with neither a backquote nor [j], and does not end with a
    backquote. *)
Lemma clean_fenced (tagged : bool) (pre core post : pystr) (c : char)
    (rest : pystr) :
  forallb isspace pre = true -> forallb isspace post = true ->
  core = c :: rest ->
  isspace c = false -> c <> tick -> c <> 106 ->
  isspace (last core 0) = false -> last core 0 <> tick ->
  contains core fence = false ->
  clean ((if tagged then json_fence else fence) ++ pre ++ core ++ post ++ fence)
  = core.
Proof.
  intros Hpre Hpost Hcore Hc Htick Hj Hlast Hlast' Hno.
  unfold clean.
  assert (Hne : core <> []) by now rewrite Hcore.
  assert (Hinner : exists c0 x, pre ++ core ++ post = c0 :: x
                                /\ c0 <> tick /\ c0 <> 106).
  { destruct pre as [|p pre].
    - rewrite Hcore. cbn [app]. eauto.
    - cbn [forallb] in Hpre. apply andb_true_iff in Hpre as [Hp _].
      exists p, (pre ++ core ++ post). split; [reflexivity|].
      split; [now apply space_not_tick|now apply space_not_j]. }
  destruct Hinner as (c0 & x & Hx & Hc0 & Hc0').
  assert (Hend : last (c0 :: x) 0 <> tick).
  { rewrite <- Hx. rewrite app_assoc.
    destruct post as [|p post].
    - rewrite app_nil_r, last_app_nonempty by assumption. assumption.
    - rewrite last_app_nonempty by discriminate.
      apply space_not_tick, last_spaces; [discriminate|assumption]. }
  assert (Hnow : contains (c0 :: x) fence = false)
    by (rewrite <- Hx; now apply padded_holds_no_fence).
  replace (pre ++ core ++ post ++ fence) with ((c0 :: x) ++ fence)
    by (rewrite <- Hx; now rewrite <- !app_assoc).
  rewrite replace_fenced by assumption. rewrite <- Hx.
  now apply strip_padded with (c := c) (rest := rest).
Qed.

End FenceFacts.

(* ================================================================== *)
(** * Facts about the decoder's grammar: fuel *)
(* ================================================================== *)

Module GrammarFacts.

Lemma members_step (fuel : nat) (k : pystr) (r : list token) :
  parse_members (S fuel) (TString k :: TColon :: r) =
    match parse_value fuel r with
    | Some (v, TRBrace :: r') => Some ([(k, v)], r')
    | Some (v, TComma :: r') =>
        match parse_members fuel r' with
        | Some (ms, r'') => Some ((k, v) :: ms, r'')
        | None => None
        end
    | _ => None
    end.
Proof. reflexivity. Qed.

Lemma elements_step (fuel : nat) (ts : list token) :
  parse_elements (S fuel) ts =
    match parse_value fuel ts with
    | Some (v, TRBracket :: r') => Some ([v], r')
    | Some (v, TComma :: r') =>
        match parse_elements fuel r' with
        | Some (xs, r'') => Some (v :: xs, r'')
        | None => None
        end
    | _ => None
    end.
Proof. reflexivity. Qed.

(** The three parsers keep a result when given more fuel. *)
Lemma parse_more (fuel : nat) :
  keeps_with_more parse_value fuel
  /\ keeps_with_more parse_members fuel
  /\ keeps_with_more parse_elements fuel.
Proof.
  induction fuel as [|fuel (IHv & IHm & IHe)]; unfold keeps_with_more in *.
  - repeat split; intros ts r E; cbn in E; discriminate E.
  - repeat split; intros ts r E fuel' Hle;
      (destruct fuel' as [|fuel']; [lia|]);
      assert (Hle' : (fuel <= fuel')%nat) by lia.
    + cbn in E |- *. destruct ts as [|t ts]; [discriminate|].
      destruct t; try exact E.
      * destruct ts as [|t' ts]; [|destruct t'];
          try exact E;
          (destruct (parse_members fuel _) as [[ms r']|] eqn:Em; [|discriminate];
           now rewrite (IHm _ _ Em fuel' Hle')).
      * destruct ts as [|t' ts]; [|destruct t'];
          try exact E;
          (destruct (parse_elements fuel _) as [[xs r']|] eqn:Ee; [|discriminate];
           now rewrite (IHe _ _ Ee fuel' Hle')).
    + destruct ts as [|[] [|[] ts]]; try discriminate.
      rewrite members_step in *.
      destruct (parse_value fuel ts) as [[v r']|] eqn:Ev; [|discriminate].
      rewrite (IHv _ _ Ev fuel' Hle').
      destruct r' as [|[] r']; try discriminate; try exact E.
      destruct (parse_members fuel r') as [[ms r'']|] eqn:Em; [|discriminate].
      now rewrite (IHm _ _ Em fuel' Hle').
    + rewrite elements_step in *.
      destruct (parse_value fuel ts) as [[v r']|] eqn:Ev; [|discriminate].
      rewrite (IHv _ _ Ev fuel' Hle').
      destruct r' as [|[] r']; try discriminate; try exact E.
      destruct (parse_elements fuel r') as [[xs r'']|] eqn:Ee; [|discriminate].
      now rewrite (IHe _ _ Ee fuel' Hle').
Qed.

Lemma value_more (fuel fuel' : nat) ts r :
  parse_value fuel ts = Some r -> (fuel <= fuel')%nat ->
  parse_value fuel' ts = Some r.
Proof. intros E Hle. exact (proj1 (parse_more fuel) ts r E fuel' Hle). Qed.

Lemma members_more (fuel fuel' : nat) ts r :
  parse_members fuel ts = Some r -> (fuel <= fuel')%nat ->
  parse_members fuel' ts = Some r.
Proof.
  intros E Hle. exact (proj1 (proj2 (parse_more fuel)) ts r E fuel' Hle).
Qed.

Lemma elements_more (fuel fuel' : nat) ts r :
  parse_elements fuel ts = Some r -> (fuel <= fuel')%nat ->
  parse_elements fuel' ts = Some r.
Proof.
  intros E Hle. exact (proj2 (proj2 (parse_more fuel)) ts r E fuel' Hle).
Qed.

(** A result is reached with as much fuel as tokens are consumed. *)
Lemma parse_consumed (fuel : nat) :
  consumed_is_enough parse_value fuel
  /\ consumed_is_enough parse_members fuel
  /\ consumed_is_enough parse_elements fuel.
Proof.
  induction fuel as [|fuel (IHv & IHm & IHe)]; unfold consumed_is_enough in *.
  - repeat split; intros ts r rest E; cbn in E; discriminate E.
  - repeat split; intros ts r rest E.
    + cbn in E.
      assert (Hone : forall t v, ts = t :: rest ->
                parse_value 1 (t :: rest) = Some (v, rest) -> r = v ->
                exists used, ts = used ++ rest
                  /\ parse_value (List.length used) ts = Some (r, rest)).
      { intros t v -> Hp ->. now exists [t]. }
      destruct ts as [|t ts]; [discriminate|].
      destruct t; try discriminate;
        try (injection E as <- <-; eapply Hone; reflexivity).
      * (* an object *)
        destruct ts as [|t' ts']; [|destruct t'];
          try (injection E as <- <-; now exists [TLBrace; TRBrace]);
          (destruct (parse_members fuel _) as [[ms r']|] eqn:Em; [|discriminate];
           injection E as <- <-;
           destruct (IHm _ _ _ Em) as (used & Hts & Hused);
           exists (TLBrace :: used);
           split; [cbn [app]; now rewrite <- Hts|];
           cbn; now rewrite Hused).
      * (* an array *)
        destruct ts as [|t' ts']; [|destruct t'];
          try (injection E as <- <-; now exists [TLBracket; TRBracket]);
          (destruct (parse_elements fuel _) as [[xs r']|] eqn:Ee; [|discriminate];
           injection E as <- <-;
           destruct (IHe _ _ _ Ee) as (used & Hts & Hused);
           exists (TLBracket :: used);
           split; [cbn [app]; now rewrite <- Hts|];
           cbn; now rewrite Hused).
    + destruct ts as [|[] [|[] ts]]; try discriminate.
      rewrite members_step in E.
      destruct (parse_value fuel ts) as [[v r1]|] eqn:Ev; [|discriminate].
      destruct (IHv _ _ _ Ev) as (used & -> & Hused).
      destruct r1 as [|[] r1]; try discriminate.
      * injection E as <- <-.
        exists (TString s :: TColon :: used ++ [TRBrace]). split.
        -- cbn [app]. now rewrite <- app_assoc.
        -- cbn [List.length]. rewrite members_step.
           rewrite (@value_more _ _ _ _ Hused)
             by (rewrite length_app; simpl; lia).
           reflexivity.
      * destruct (parse_members fuel r1) as [[ms r2]|] eqn:Em; [|discriminate].
        injection E as <- <-.
        destruct (IHm _ _ _ Em) as (used' & -> & Hused').
        exists (TString s :: TColon :: used ++ TComma :: used'). split.
        -- cbn [app]. rewrite <- app_assoc. reflexivity.
        -- cbn [List.length]. rewrite members_step.
           rewrite (@value_more _ _ _ _ Hused)
             by (rewrite length_app; simpl; lia).
           rewrite (@members_more _ _ _ _ Hused')
             by (rewrite length_app; simpl; lia).
           reflexivity.
    + rewrite elements_step in E.
      destruct (parse_value fuel ts) as [[v r1]|] eqn:Ev; [|discriminate].
      destruct (IHv _ _ _ Ev) as (used & -> & Hused).
      destruct r1 as [|[] r1]; try discriminate.
      * injection E as <- <-. exists (used ++ [TRBracket]). split.
        -- now rewrite <- app_assoc.
        -- rewrite length_app.
           replace (List.length used + List.length [TRBracket])%nat
             with (S (List.length used)) by (simpl; lia).
           rewrite elements_step. now rewrite Hused.
      * destruct (parse_elements fuel r1) as [[xs r2]|] eqn:Ee; [|discriminate].
        injection E as <- <-.
        destruct (IHe _ _ _ Ee) as (used' & -> & Hused').
        exists (used ++ TComma :: used'). split.
        -- now rewrite <- app_assoc.
        -- rewrite length_app. cbn [List.length].
           replace (List.length used + S (List.length used'))%nat
             with (S (List.length used + List.length used')) by lia.
           rewrite elements_step.
           rewrite (@value_more _ _ _ _ Hused) by lia.
           rewrite (@elements_more _ _ _ _ Hused') by lia.
           reflexivity.
Qed.

(** The fuel [loads] gives the lexer and the grammar is enough: what any
    fuel yields, [loads] yields. *)
Lemma loads_fuel (s : pystr) (fuel fuel' : nat) (ts : list token) (v : json) :
  lex fuel s = Some ts -> parse_value fuel' ts = Some (v, []) ->
  loads s = Some v.
Proof.
  intros El Ep. unfold loads.
  rewrite (LexFacts.lex_tokens _ _ El : lex (List.length s) s = Some ts).
  destruct (proj1 (parse_consumed fuel') _ _ _ Ep) as (used & Hts & Hused).
  rewrite app_nil_r in Hts. subst used.
  now rewrite (@value_more _ _ _ _ Hused) by lia.
Qed.

End GrammarFacts.

(* ================================================================== *)
(** * The model on concrete inputs *)
(* ================================================================== *)

Module Checks.
Import Examples GeminiService.

Example loads_two_fields :
  loads kho_this
  = Some (JObject [(str "balti", JString (str "kho"));
                   (str "english", JString (str "this"))]).
Proof. reflexivity. Qed.

Example loads_nested :
  loads (qstr " {'a': [1, -2, true, null, {'b': {}}, []]} ")
  = Some (JObject
            [(str "a",
              JArray [JInt 1; JInt (-2); JBool true; JNull;
                      JObject [(str "b", JObject [])]; JArray []])]).
Proof. reflexivity. Qed.

Example loads_keeps_lexeme_of_float :
  loads (str "[1.5e3, NaN]") = Some (JArray [JFloat (str "1.5e3"); JFloat (str "NaN")]).
Proof. reflexivity. Qed.

Example loads_last_duplicate_wins :
  loads (qstr "{'a': 1, 'b': 2, 'a': 3}")
  = Some (JObject [(str "a", JInt 3); (str "b", JInt 2)]).
Proof. reflexivity. Qed.

Example loads_joins_surrogates :
  loads (qstr "'\ud83d\ude00'") = Some (JString [128512%N]).
Proof. reflexivity. Qed.

Example loads_refuses_trailing_comma : loads (str "[1,]") = None.
Proof. reflexivity. Qed.

Example loads_refuses_second_value : loads (str "1 2") = None.
Proof. reflexivity. Qed.

Example loads_refuses_leading_zero : loads (str "01") = None.
Proof. reflexivity. Qed.

(** A form feed is white space for [strip], not for the decoder. *)
Example loads_refuses_form_feed : loads [12%N; 49%N] = None.
Proof. reflexivity. Qed.

Example strip_removes_form_feed : strip [12%N; 49%N; 160%N] = [49%N].
Proof. reflexivity. Qed.

Example replace_is_leftmost : replace (str "aaa") (str "aa") (str "b") = str "ba".
Proof. reflexivity. Qed.

Example clean_fenced_reply : clean (fenced kho_this) = kho_this.
Proof. reflexivity. Qed.

Example clean_bare_reply : clean kho_this = kho_this.
Proof. reflexivity. Qed.

Example dict_str_two_entries :
  result_of (dict_str two_entries calm flash)
  = Returned (str "- chu -> water" ++ nl ++ str "- khi -> dog").
Proof. reflexivity. Qed.

(** The scenario of the specification: begin, three buffers, end, with a
    model that answers [{"balti": "kho", "english": "this"}]. *)
Example record_and_translate :
  let run :=
    (handle_record (request "start") ;;
     zoom recorder with_recorder
       (AudioRecorder.deliver [[1]; [2]; [3]]%Z) ;;
     handle_record (request "stop")) calm fresh_app in
  result_of run
  = Returned (Some (JObject [(str "balti", JString (str "kho"));
                             (str "english", JString (str "this"))]))
  /\ AudioRecorder.recording (recorder (state_of run)) = false.
Proof. split; reflexivity. Qed.

End Checks.

(* ================================================================== *)
(** * Claims about the recording session *)
(* ================================================================== *)

Section SessionClaims.
Context {sample : Type}.
Import AudioRecorder RecorderFacts.

(** C6.  After [start] opened the stream, for every sequence of buffers
    the capture callback delivers, [stop] returns the buffers
    concatenated in the order of delivery, and the number of samples of
    that result is the sum of the buffers' sizes. *)
Theorem stop_returns_frames_in_order
    (w0 w1 w2 : world) (self : AudioRecorder.t sample)
    (frames : list (frame sample)) :
  stream_open_ok w0 = true -> stream_start_ok w0 = true ->
  let session := state_of (start w0 self) in
  let session' := state_of (deliver frames w1 session) in
  recording session = true
  /\ result_of (stop w2 session') = Returned (List.concat frames)
  /\ List.length (List.concat frames)
     = list_sum (map (@List.length sample) frames)
  /\ recording (state_of (stop w2 session')) = false.
Proof.
  intros Ho Hs session session'.
  assert (E1 : session =
               {| recording := true; audio_data := [];
                  stream := Some (InputStream 1 (sample_rate self));
                  sample_rate := sample_rate self |}).
  { unfold session, state_of. now rewrite start_opened. }
  assert (E2 : session' =
               {| recording := true; audio_data := frames;
                  stream := Some (InputStream 1 (sample_rate self));
                  sample_rate := sample_rate self |}).
  { unfold session', state_of. rewrite E1.
    now rewrite deliver_recording. }
  rewrite E2, stop_run. rewrite E1. unfold state_of, result_of.
  cbn [fst snd audio_data recording].
  repeat split. apply concat_length.
Qed.

(** C4, as amended.  On a session that is idle, [stop] leaves the
    session as it is and returns the concatenation of the buffers the
    session still holds: the buffer list is emptied by [start] only.
    The stream object, when there is one, is stopped and closed
    again. *)
Theorem stop_when_idle (w : world) (self : AudioRecorder.t sample) :
  recording self = false ->
  state_of (stop w self) = self
  /\ result_of (stop w self) = Returned (List.concat (audio_data self))
  /\ trace_of (stop w self) =
       match stream self with
       | Some _ => [StreamStop; StreamClose; Print RecordingStopped]
       | None => []
       end
  /\ (audio_data self = [] -> result_of (stop w self) = Returned []).
Proof.
  intros Hidle. rewrite stop_run. unfold state_of, result_of, trace_of. simpl.
  repeat split.
  - destruct self; simpl in *; now subst.
  - intros ->. reflexivity.
Qed.
End SessionClaims.

(** The frame-order theorem on a fresh session that receives two
    buffers. *)
Lemma stop_returns_frames_in_order_witness :
  let session := state_of (AudioRecorder.start Examples.calm AudioRecorder.__init__) in
  let session' :=
    state_of (AudioRecorder.deliver [[1; 2]; [3]]%Z Examples.calm session) in
  AudioRecorder.recording session = true
  /\ result_of (AudioRecorder.stop Examples.calm session') = Returned [1; 2; 3]%Z
  /\ List.length [1; 2; 3]%Z = (2 + (1 + 0))%nat
  /\ AudioRecorder.recording (state_of (AudioRecorder.stop Examples.calm session'))
     = false.
Proof.
  exact (@stop_returns_frames_in_order Z Examples.calm Examples.calm Examples.calm
           AudioRecorder.__init__ [[1; 2]; [3]]%Z eq_refl eq_refl).
Defined.

(** The amended C4 on the stopped session of [Examples]. *)
Lemma stop_when_idle_witness :
  AudioRecorder.recording Examples.stopped_session = false
  /\ state_of (AudioRecorder.stop Examples.calm Examples.stopped_session)
     = Examples.stopped_session
  /\ result_of (AudioRecorder.stop Examples.calm Examples.stopped_session)
     = Returned [1; 2; 3]%Z.
Proof.
  split; [reflexivity|].
  pose proof (@stop_when_idle Z Examples.calm Examples.stopped_session eq_refl)
    as (Hstate & Hres & _).
  split; [exact Hstate | exact Hres].
Defined.

(** C4, as stated, fails: the session of [Examples] is idle, having
    recorded three samples and stopped, and a second [stop] returns those
    three samples, not an empty sample. *)
Lemma stop_twice_returns_audio_again :
  AudioRecorder.recording Examples.stopped_session = false
  /\ result_of (AudioRecorder.stop Examples.calm Examples.stopped_session)
     = Returned [1; 2; 3]%Z
  /\ result_of (AudioRecorder.stop Examples.calm Examples.stopped_session)
     <> Returned [].
Proof.
  repeat split; try reflexivity. discriminate.
Qed.

(* ================================================================== *)
(** * Claims about the handler of [/api/record] *)
(* ================================================================== *)

Section HandlerClaims.
Context {sample : Type} `{Audio sample}.
Import AudioRecorder RecorderFacts.
Implicit Types (app : App sample) (w : world).

Lemma action_is_true (action : option json) (literal : pystr) :
  action_is action literal = true <-> action = Some (JString literal).
Proof.
  unfold action_is. destruct action as [[| | | |s| |]|]; try (split; discriminate).
  rewrite pystr_eqb_eq. split; intro E; congruence.
Qed.

Lemma action_is_false (action : option json) (literal : pystr) :
  action_is action literal = false <-> action <> Some (JString literal).
Proof.
  rewrite <- action_is_true. destruct (action_is action literal); split;
    congruence.
Qed.

(** The [start] branch. *)
Lemma handle_record_start w app items :
  dict_get (str "action") items = Some (JString (str "start")) ->
  handle_record (JObject items) w app =
    (trace_of (start w (recorder app)),
     with_recorder (state_of (start w (recorder app))) app,
     Returned (Some started)).
Proof.
  intros Ha. unfold handle_record.
  unfold bind at 1. unfold ret at 1. rewrite Ha.
  replace (action_is (Some (JString (str "start"))) (str "start")) with true
    by (symmetry; now apply action_is_true).
  unfold bind, zoom, ret, trace_of, state_of.
  destruct (start w (recorder app)) as [[t r] [[]|e]] eqn:E; simpl.
  - now rewrite app_nil_r.
  - exfalso. revert E.
    destruct (stream_open_ok w) eqn:Ho; [destruct (stream_start_ok w) eqn:Hs|].
    + now rewrite start_opened.
    + now rewrite start_start_raises.
    + now rewrite start_open_raises.
Qed.

(** The [stop] branch when the recorder returns no sample. *)
Lemma handle_record_stop_empty w app items :
  dict_get (str "action") items = Some (JString (str "stop")) ->
  List.concat (audio_data (recorder app)) = [] ->
  handle_record (JObject items) w app =
    (trace_of (stop w (recorder app)),
     with_recorder (state_of (stop w (recorder app))) app,
     Returned (Some (error_result (str "No audio captured")))).
Proof.
  intros Ha He. unfold handle_record.
  unfold bind at 1. unfold ret at 1. rewrite Ha.
  replace (action_is (Some (JString (str "stop"))) (str "start")) with false
    by (symmetry; apply action_is_false; intro E; inversion E).
  replace (action_is (Some (JString (str "stop"))) (str "stop")) with true
    by (symmetry; now apply action_is_true).
  unfold bind at 1. unfold zoom. rewrite stop_run, He.
  unfold ret, trace_of, state_of. simpl. now rewrite app_nil_r.
Qed.


(** C5.  When [stop] returns a sample of length zero, the handler
    answers the error result "No audio captured", and does nothing
    besides what [stop] did: no file is written, nothing is uploaded,
    the model is not called. *)
Theorem empty_capture_is_reported w app items (audio : list sample) :
  dict_get (str "action") items = Some (JString (str "stop")) ->
  result_of (stop w (recorder app)) = Returned audio ->
  List.length audio = 0%nat ->
  let r := handle_record (JObject items) w app in
  result_of r = Returned (Some (error_result (str "No audio captured")))
  /\ trace_of r = trace_of (stop w (recorder app))
  /\ (forall ev, In ev (trace_of r) ->
        is_model_call ev = false /\ is_file_or_network ev = false).
Proof.
  intros Ha Hstop Hlen r. subst r.
  rewrite stop_run in Hstop. unfold result_of in Hstop. simpl in Hstop.
  injection Hstop as Hstop. apply length_zero_iff_nil in Hlen. subst audio.
  rewrite handle_record_stop_empty by assumption.
  unfold result_of, trace_of. cbn [fst snd]. split; [reflexivity|].
  split; [reflexivity|]. intros ev Hev. rewrite stop_run in Hev.
  cbn [fst] in Hev.
  destruct (stream (recorder app)); simpl in Hev;
    intuition (subst; reflexivity).
Qed.

(** C10.  For a request whose [action] is neither the string [start]
    nor the string [stop], a missing [action] included, the handler
    reaches the end of the function: it returns [None], no JSON result,
    having done nothing. *)
Theorem unknown_action_returns_nothing w app items :
  dict_get (str "action") items <> Some (JString (str "start")) ->
  dict_get (str "action") items <> Some (JString (str "stop")) ->
  handle_record (JObject items) w app = ([], app, Returned None).
Proof.
  intros Hstart Hstop. apply action_is_false in Hstart, Hstop.
  unfold handle_record. unfold bind, ret. now rewrite Hstart, Hstop.
Qed.
End HandlerClaims.

Section ClientClaims.
Context {sample : Type} `{Audio sample}.
Import GeminiService Rendering TranslateFacts PromptFacts LexFacts FenceFacts.
Implicit Types (w : world) (self : GeminiService.t) (config : Config).

(** C8.  With no API key ([None] or the empty string) the service is
    built without a model and without a call to the outside, and
    [translate] then returns the error result "API Key Missing" with an
    empty trace: no file written, nothing uploaded, no network call. *)
Theorem missing_api_key (api_key : option pystr) w0 w
    (audio_data : list sample) (sample_rate : Z) config :
  api_key = None \/ api_key = Some [] ->
  exists service,
    GeminiService.__init__ api_key w0 tt = ([], tt, Returned service)
    /\ model service = None
    /\ translate audio_data sample_rate config w service
       = ([], service, Returned (error_result (str "API Key Missing"))).
Proof.
  intros [-> | ->]; exists {| model := None |}; repeat split.
Qed.

(** C7, as amended.  In every [translate] that stages its audio, the
    text sent to the model is the template with, between the heading of
    the custom dictionary and the task, the texts [- source -> target]
    of the entries, in the order of the entries, joined by line feeds,
    and nothing when the dictionary is empty or missing.  When no source
    and no target holds a line feed, these are the lines of that part of
    the text: exactly one line per entry.  The model is called whenever
    every entry has both keys. *)
Theorem prompt_dictionary_lines (audio_data : list sample) (sample_rate : Z)
    config w self (model_name : pystr) :
  model self = Some model_name ->
  wav_write_ok w = true -> upload_file_ok w = true ->
  let entries := get_default (dictionary config) [] in
  let events := trace_of (translate audio_data sample_rate config w self) in
  (forall m sent f, In (GenerateContent m sent f) events ->
     exists lines,
       Forall2 is_line_of entries lines
       /\ sent = before_dictionary config ++ join nl lines ++ after_dictionary
       /\ (entries = [] -> sent = before_dictionary config ++ after_dictionary)
       /\ (entries <> [] -> Forall one_line entries ->
           split line_feed (join nl lines) = lines))
  /\ (Forall complete entries ->
      exists m sent f, In (GenerateContent m sent f) events).
Proof.
  intros Hmodel Hwav Hup entries events. split.
  - intros m sent f Hin.
    destruct (render_entries entries) as [lines|e] eqn:Er.
    + subst events. erewrite translate_run in Hin by eassumption.
      exists lines. split; [now apply render_entries_lines|].
      assert (Htext : sent = prompt config (join nl lines) (forbidden_str config)).
      { unfold cleanup_trace, trace_of in Hin.
        destruct (generate_content w) as [response|];
          [destruct (text response) as [reply|];
           [destruct (loads (clean reply))|]|];
          destruct (file_delete_ok w); simpl in Hin;
          repeat (destruct Hin as [Hin|Hin];
                  [try discriminate; now inversion Hin|]);
          contradiction. }
      rewrite Htext, prompt_split. split; [reflexivity|]. split.
      * intros Hnil. rewrite Hnil in Er. simpl in Er. injection Er as <-.
        reflexivity.
      * intros Hne Hall.
        pose proof (render_entries_lines _ Er) as Hlines.
        apply split_join.
        -- intros E. apply Hne, length_zero_iff_nil.
           now rewrite (Forall2_length Hlines), E.
        -- now apply (one_line_free Hlines).
    + exfalso. subst events. revert Hin.
      unfold translate. unfold bind at 1, get. rewrite Hmodel.
      unfold try_except at 1.
      unfold bind at 1. unfold call at 1. rewrite Hwav. cbn [ok_unit].
      unfold bind at 1. unfold call at 1. rewrite Hup.
      unfold bind at 1. rewrite dict_str_run. fold entries. rewrite Er.
      unfold trace_of. simpl. intuition discriminate.
  - intros Hall. destruct (render_entries_complete Hall) as [lines Er].
    subst events. erewrite translate_run by eassumption.
    do 3 eexists.
    destruct (generate_content w) as [response|];
      [destruct (text response) as [reply|];
       [destruct (loads (clean reply))|]|];
      unfold trace_of; simpl; right; right; left; reflexivity.
Qed.

(** C1, as amended.  [translate] never raises.  When the model's reply
    is reached, its text, cleaned of the fence markers and stripped, is
    parsed, and whatever value the parse yields is returned as it is,
    without a check of its shape: an object that lacks one of the two
    fields, or a value that is no object, is returned unchanged.  The
    error result "Translation Failed" is returned when the cleaned text
    is not valid JSON. *)
Theorem reply_is_parsed_not_validated (audio_data : list sample)
    (sample_rate : Z) config w self (model_name : pystr) (reply : pystr) :
  model self = Some model_name ->
  wav_write_ok w = true -> upload_file_ok w = true ->
  Forall complete (get_default (dictionary config) []) ->
  generate_content w = Some {| text := Some reply |} ->
  result_of (translate audio_data sample_rate config w self)
  = Returned match loads (clean reply) with
             | Some value => value
             | None => error_result (str "Translation Failed")
             end
  /\ forall w' self' config',
       exists result,
         result_of (translate audio_data sample_rate config' w' self')
         = Returned result.
Proof.
  intros Hmodel Hwav Hup Hcomplete Hreply.
  destruct (render_entries_complete Hcomplete) as [lines Hlines]. split.
  - erewrite translate_run by eassumption. rewrite Hreply. cbn [text].
    destruct (loads (clean reply)); reflexivity.
  - intros w' self' config'. destruct (model self') as [name|] eqn:Hm.
    + destruct (@translate_returns _ _ audio_data sample_rate config' w' self' name Hm)
        as (events & result & E).
      exists result. now rewrite E.
    + eexists. now rewrite translate_without_model.
Qed.

(** C9, as amended.  Let the reply be an opening fence (three
    backquotes, with or without the tag [json]), white space, a payload
    that is valid JSON and holds no run of three backquotes, white
    space, and the closing fence.  Then [translate] returns the value
    [json.loads] gives for the payload alone. *)
Theorem fenced_reply_parses_as_payload (audio_data : list sample)
    (sample_rate : Z) config w self (model_name : pystr)
    (tagged : bool) (pre payload post : pystr) (value : json) :
  model self = Some model_name ->
  wav_write_ok w = true -> upload_file_ok w = true ->
  Forall complete (get_default (dictionary config) []) ->
  forallb isspace pre = true -> forallb isspace post = true ->
  loads payload = Some value ->
  contains payload fence = false ->
  generate_content w
  = Some {| text := Some ((if tagged then json_fence else fence)
                          ++ pre ++ payload ++ post ++ fence) |} ->
  result_of (translate audio_data sample_rate config w self) = Returned value.
Proof.
  intros Hmodel Hwav Hup Hcomplete Hpre Hpost Hvalue Hno Hreply.
  destruct (render_entries_complete Hcomplete) as [lines Hlines].
  destruct (loads_core _ Hvalue)
    as (a & core & b & c & rest & Hp & Ha & Hb & Hcore & Hs & He & Hv).
  destruct (start_facts _ Hs) as (Hc1 & Hc2 & Hc3).
  destruct (end_facts _ He) as (He1 & He2).
  assert (Hclean : clean ((if tagged then json_fence else fence)
                          ++ pre ++ payload ++ post ++ fence) = core).
  { replace (pre ++ payload ++ post ++ fence)
      with ((pre ++ a) ++ core ++ (b ++ post) ++ fence)
      by (rewrite Hp; now rewrite <- !app_assoc).
    apply clean_fenced with (c := c) (rest := rest); try assumption.
    - rewrite forallb_app, Hpre. now apply ws_text_is_space.
    - rewrite forallb_app, Hpost, andb_true_r. now apply ws_text_is_space.
    - rewrite Hp in Hno. apply contains_behind in Hno.
      now apply contains_before in Hno. }
  erewrite translate_run by eassumption. rewrite Hreply. cbn [text].
  now rewrite Hclean, Hv.
Qed.
End ClientClaims.

Module ClientExamples.
Import Examples GeminiService Rendering TranslateFacts PromptFacts.

(** C8 on the key [None]. *)
Lemma missing_api_key_witness :
  exists service,
    GeminiService.__init__ None calm tt = ([], tt, Returned service)
    /\ model service = None
    /\ translate [1; 2; 3]%Z 16000 two_entries calm service
       = ([], service, Returned (error_result (str "API Key Missing"))).
Proof.
  exact (@missing_api_key Z int_audio None calm calm [1; 2; 3]%Z 16000
           two_entries (or_introl eq_refl)).
Defined.

(** C2 fails on the code: when [generate_content] raises, [translate]
    goes to its handler at once; neither [audio_file.delete()] nor
    [os.remove] is attempted, and the staged audio stays behind. *)
Theorem cleanup_skipped_when_model_call_raises :
  generate_content model_down = None
  /\ translate [1; 2; 3]%Z 16000 default_config model_down flash
     = ([WavWrite temp_audio 16000 [1; 2; 3]%Z;
         UploadFile temp_audio;
         GenerateContent (str "gemini-2.5-flash-preview-09-2025")
           (prompt default_config [] []) (UploadedFile temp_audio);
         Print (TranslationError APIError)],
        flash, Returned failed)
  /\ existsb is_cleanup
       (trace_of (translate [1; 2; 3]%Z 16000 default_config model_down flash))
     = false.
Proof.
  repeat split.
Qed.

(** C1, as stated, fails: a reply that is valid JSON and lacks a required
    field is returned as parsed, not replaced by the error result. *)
Lemma reply_missing_field_is_returned :
  loads (clean only_balti) = Some (JObject [(str "balti", JString (str "kho"))])
  /\ result_of (translate [1; 2; 3]%Z 16000 default_config
                  (world_replying only_balti) flash)
     = Returned (JObject [(str "balti", JString (str "kho"))])
  /\ result_of (translate [1; 2; 3]%Z 16000 default_config
                  (world_replying only_balti) flash)
     <> Returned failed.
Proof.
  repeat split. discriminate.
Qed.

(** The amended C1 on that reply. *)
Lemma reply_is_parsed_not_validated_witness :
  result_of (translate [1; 2; 3]%Z 16000 default_config
               (world_replying only_balti) flash)
  = Returned match loads (clean only_balti) with
             | Some value => value
             | None => error_result (str "Translation Failed")
             end
  /\ forall w' self' config',
       exists result,
         result_of (translate [1; 2; 3]%Z 16000 config' w' self')
         = Returned result.
Proof.
  exact (@reply_is_parsed_not_validated Z int_audio [1; 2; 3]%Z 16000
           default_config (world_replying only_balti) flash
           (str "gemini-2.5-flash-preview-09-2025") only_balti
           eq_refl eq_refl eq_refl (Forall_nil _) eq_refl).
Defined.

(** C7 on the configuration with two entries, both complete. *)
Lemma prompt_dictionary_lines_witness :
  Forall complete (get_default (dictionary two_entries) [])
  /\ let entries := get_default (dictionary two_entries) [] in
     let events :=
       trace_of (translate [1; 2; 3]%Z 16000 two_entries calm flash) in
     (forall m sent f, In (GenerateContent m sent f) events ->
        exists lines,
          Forall2 is_line_of entries lines
          /\ sent = before_dictionary two_entries ++ join nl lines
                    ++ after_dictionary
          /\ (entries = [] ->
              sent = before_dictionary two_entries ++ after_dictionary)
          /\ (entries <> [] -> Forall one_line entries ->
              split line_feed (join nl lines) = lines))
     /\ (Forall complete entries ->
         exists m sent f, In (GenerateContent m sent f) events).
Proof.
  split.
  - repeat constructor; discriminate.
  - exact (@prompt_dictionary_lines Z int_audio [1; 2; 3]%Z 16000 two_entries
             calm flash (str "gemini-2.5-flash-preview-09-2025")
             eq_refl eq_refl eq_refl).
Defined.

(** C7, as stated, fails: the dictionary has one entry, complete, whose
    source holds a line feed, and the text sent to the model has two
    lines between the heading of the custom dictionary and the task, not
    one; it is the text sent for the dictionary of the two entries
    [x], [y] and [z], [w]. *)
Lemma entry_with_line_feed_takes_two_lines :
  let entries := get_default (dictionary line_feed_in_source) [] in
  let events :=
    trace_of (translate [1; 2; 3]%Z 16000 line_feed_in_source calm flash) in
  List.length entries = 1%nat
  /\ Forall complete entries
  /\ exists m sent f lines,
       In (GenerateContent m sent f) events
       /\ Forall2 is_line_of entries lines
       /\ sent = before_dictionary line_feed_in_source ++ join nl lines
                 ++ after_dictionary
       /\ split line_feed (join nl lines) = [str "- x -> y"; str "- z -> w"]
       /\ split line_feed (join nl lines) <> lines
       /\ In (GenerateContent m sent f)
             (trace_of (translate [1; 2; 3]%Z 16000 two_short_entries calm
                          flash)).
Proof.
  cbv zeta. split; [reflexivity|]. split.
  - repeat constructor; discriminate.
  - exists (str "gemini-2.5-flash-preview-09-2025"),
      (prompt line_feed_in_source
         (str "- x -> y" ++ nl ++ str "- z -> w")
         (forbidden_str line_feed_in_source)),
      (UploadedFile temp_audio),
      [str "- x -> y" ++ nl ++ str "- z -> w"].
    split; [right; right; left; reflexivity|].
    split.
    { constructor; [|constructor].
      exists (str "x -> y" ++ [10%N] ++ str "- z"), (str "w").
      repeat split. }
    split; [reflexivity|]. split; [reflexivity|].
    split; [discriminate|].
    right. right. left. reflexivity.
Qed.

(** C9, as stated, fails: the payload is valid JSON with the two string
    fields, and [translate] on the fenced payload returns another value
    than the payload parses to: the backquotes inside the string are
    gone. *)
Lemma fence_inside_payload_is_removed :
  loads ticks_inside
  = Some (JObject [(str "balti", JString (str "a```b"));
                   (str "english", JString (str "c"))])
  /\ result_of (translate [1; 2; 3]%Z 16000 default_config
                  (world_replying (fenced ticks_inside)) flash)
     = Returned (JObject [(str "balti", JString (str "ab"));
                          (str "english", JString (str "c"))])
  /\ Some (result_of (translate [1; 2; 3]%Z 16000 default_config
                        (world_replying (fenced ticks_inside)) flash))
     <> option_map (@Returned json) (loads ticks_inside).
Proof.
  repeat split. discriminate.
Qed.

(** The amended C9 on the fenced reply [{"balti": "kho", "english":
    "this"}]. *)
Lemma fenced_reply_parses_as_payload_witness :
  result_of (translate [1; 2; 3]%Z 16000 default_config
               (world_replying (fenced kho_this)) flash)
  = Returned (JObject [(str "balti", JString (str "kho"));
                       (str "english", JString (str "this"))]).
Proof.
  exact (@fenced_reply_parses_as_payload Z int_audio [1; 2; 3]%Z 16000
           default_config (world_replying (fenced kho_this)) flash
           (str "gemini-2.5-flash-preview-09-2025") true nl kho_this nl
           (JObject [(str "balti", JString (str "kho"));
                     (str "english", JString (str "this"))])
           eq_refl eq_refl eq_refl (Forall_nil _) eq_refl eq_refl eq_refl
           eq_refl eq_refl).
Defined.

End ClientExamples.

Module HandlerExamples.
Import Examples.



(** C5 on a session that never recorded. *)
Lemma empty_capture_is_reported_witness :
  let r := handle_record (request "stop") calm fresh_app in
  result_of r = Returned (Some (error_result (str "No audio captured")))
  /\ trace_of r = trace_of (AudioRecorder.stop calm (recorder fresh_app))
  /\ (forall ev, In ev (trace_of r) ->
        is_model_call ev = false /\ is_file_or_network ev = false).
Proof.
  exact (@empty_capture_is_reported Z int_audio calm fresh_app
           [(str "action", JString (str "stop"))] [] eq_refl eq_refl eq_refl).
Defined.

(** C10 on the action [pause]. *)
Lemma unknown_action_returns_nothing_witness :
  handle_record (request "pause") calm fresh_app = ([], fresh_app, Returned None).
Proof.
  apply (@unknown_action_returns_nothing Z int_audio calm fresh_app
           [(str "action", JString (str "pause"))]); discriminate.
Defined.

End HandlerExamples.
(* ================================================================== *)
(** * Facts about [json.dump] *)
(* ================================================================== *)

Module EncoderFacts.
Local Open Scope N_scope.

(** A property checked on every number below [k] holds below [k]. *)
Lemma checked_below (f : N -> bool) (k : nat) :
  forallb f (map N.of_nat (seq 0 k)) = true ->
  forall x, x < N.of_nat k -> f x = true.
Proof.
  intros Hall x Hx. rewrite forallb_forall in Hall. apply Hall.
  apply in_map_iff. exists (N.to_nat x). split; [apply N2Nat.id|].
  apply in_seq. lia.
Qed.

(** ** Strings *)

Lemma hexval_hexdigit (d : N) : d < 16 -> hexval (hexdigit d) = Some d.
Proof.
  intros Hd.
  apply (checked_below
           (fun d => match hexval (hexdigit d) with
                     | Some e => e =? d
                     | None => false
                     end) 16 eq_refl) in Hd.
  destruct (hexval (hexdigit d)) as [e|]; [|discriminate].
  apply N.eqb_eq in Hd. now subst.
Qed.

(** The decoder reads back the four digits the encoder writes. *)
Lemma hex4_hex4_of (n : N) :
  n < 65536 ->
  hex4 (hexdigit (n / 4096 mod 16)) (hexdigit (n / 256 mod 16))
       (hexdigit (n / 16 mod 16)) (hexdigit (n mod 16)) = Some n.
Proof.
  intros Hn. unfold hex4.
  rewrite !hexval_hexdigit by (apply N.mod_lt; discriminate).
  f_equal. zify. Z.to_euclidean_division_equations. lia.
Qed.

Lemma lor_high (x : N) : x < 1024 -> N.lor 55296 x = 55296 + x.
Proof.
  intros Hx.
  apply (checked_below (fun x => N.lor 55296 x =? 55296 + x) 1024 eq_refl) in Hx.
  now apply N.eqb_eq in Hx.
Qed.

Lemma lor_low (x : N) : x < 1024 -> N.lor 56320 x = 56320 + x.
Proof.
  intros Hx.
  apply (checked_below (fun x => N.lor 56320 x =? 56320 + x) 1024 eq_refl) in Hx.
  now apply N.eqb_eq in Hx.
Qed.

(** The two surrogates written for a code point beyond the basic
    plane. *)
Lemma surrogates_of (n : N) :
  n < 1048576 ->
  N.lor 55296 (N.land (N.shiftr n 10) 1023) = 55296 + n / 1024
  /\ N.lor 56320 (N.land n 1023) = 56320 + n mod 1024.
Proof.
  intros Hn. change 1023 with (N.ones 10).
  rewrite !N.land_ones, N.shiftr_div_pow2. change (2 ^ 10) with 1024.
  assert (n / 1024 < 1024) by (apply N.Div0.div_lt_upper_bound; lia).
  rewrite (N.mod_small (n / 1024)) by assumption.
  rewrite lor_high by assumption.
  rewrite lor_low by (apply N.mod_lt; discriminate). auto.
Qed.

Lemma scanstring_unicode (h1 h2 h3 h4 : char) (s3 : pystr) :
  scanstring (92 :: 117 :: h1 :: h2 :: h3 :: h4 :: s3) =
    match hex4 h1 h2 h3 h4 with
    | None => None
    | Some u =>
        if is_high_surrogate u then
          match s3 with
          | b :: e' :: g1 :: g2 :: g3 :: g4 :: s4 =>
              if (b =? 92) && (e' =? 117) then
                match hex4 g1 g2 g3 g4 with
                | None => None
                | Some u2 =>
                    if is_low_surrogate u2
                    then push (join_surrogates u u2) (scanstring s4)
                    else push u (scanstring s3)
                end
              else push u (scanstring s3)
          | _ => push u (scanstring s3)
          end
        else push u (scanstring s3)
    end.
Proof. reflexivity. Qed.

Lemma cons_eq {A} (a b : A) (l l' : list A) :
  a :: l = b :: l' -> a = b /\ l = l'.
Proof. intros E. now injection E. Qed.

Lemma scanstring_lone (u : N) (r : pystr) :
  u < 65536 -> no_low_escape r ->
  scanstring (escape_u u ++ r) = push u (scanstring r).
Proof.
  intros Hu Hr. unfold escape_u, hex4_of. cbn [app].
  rewrite scanstring_unicode, hex4_hex4_of by assumption.
  destruct (is_high_surrogate u); [|reflexivity].
  destruct r as [|b [|e' [|g1 [|g2 [|g3 [|g4 s4]]]]]]; try reflexivity.
  destruct (N.eqb_spec b 92) as [->|_]; [|reflexivity].
  destruct (N.eqb_spec e' 117) as [->|_]; [|reflexivity].
  destruct (Hr _ _ _ _ _ eq_refl) as (u2 & -> & ->). reflexivity.
Qed.

(** Beyond the basic plane the escape is that of a high surrogate, then
    that of a low one, which join to the code point. *)
Lemma escape_astral (c : N) :
  65536 <= c -> c < 1114112 ->
  exists hi lo,
    escape c = escape_u hi ++ escape_u lo
    /\ 55296 <= hi <= 56319 /\ 56320 <= lo <= 57343
    /\ join_surrogates hi lo = c.
Proof.
  intros Hlo Hhi. unfold escape.
  repeat match goal with
         | |- context [c =? ?k] =>
             destruct (N.eqb_spec c k) as [->|_]; [lia|]
         end.
  replace ((32 <=? c) && (c <=? 126)) with false
    by (symmetry; apply andb_false_iff; right; apply N.leb_gt; lia).
  replace (c <? 65536) with false by (symmetry; apply N.ltb_ge; lia).
  cbv zeta.
  destruct (@surrogates_of (c - 65536)) as [-> ->]; [lia|].
  remember (c - 65536) as n eqn:En.
  assert (Hn : n < 1048576) by lia.
  assert (Hq : n / 1024 < 1024) by (apply N.Div0.div_lt_upper_bound; lia).
  assert (Hm : n mod 1024 < 1024) by (apply N.mod_lt; discriminate).
  pose proof (N.div_mod n 1024) as Hdiv.
  exists (55296 + n / 1024), (56320 + n mod 1024).
  split; [reflexivity|]. unfold join_surrogates.
  remember (n / 1024) as q. remember (n mod 1024) as m.
  replace (55296 + q - 55296) with q by lia.
  replace (56320 + m - 56320) with m by lia.
  lia.
Qed.

Lemma high_range (u : N) : 55296 <= u <= 56319 -> is_high_surrogate u = true.
Proof.
  intros Hu. unfold is_high_surrogate. apply andb_true_iff.
  split; apply N.leb_le; lia.
Qed.

Lemma low_range (u : N) : 56320 <= u <= 57343 -> is_low_surrogate u = true.
Proof.
  intros Hu. unfold is_low_surrogate. apply andb_true_iff.
  split; apply N.leb_le; lia.
Qed.

Lemma high_not_low (u : N) : 55296 <= u <= 56319 -> is_low_surrogate u = false.
Proof.
  intros Hu. unfold is_low_surrogate. apply andb_false_iff. left.
  apply N.leb_gt. lia.
Qed.

Lemma scanstring_pair (c : N) (r : pystr) :
  65536 <= c -> c < 1114112 ->
  scanstring (escape c ++ r) = push c (scanstring r).
Proof.
  intros Hlo Hhi.
  destruct (escape_astral Hlo Hhi) as (hi & lo & -> & Hh & Hl & <-).
  unfold escape_u, hex4_of. cbn [app].
  rewrite scanstring_unicode, hex4_hex4_of by lia.
  rewrite (high_range Hh). cbn [N.eqb Pos.eqb andb].
  rewrite hex4_hex4_of by lia. now rewrite (low_range Hl).
Qed.

(** The decoder reads back one escaped code point. *)
Lemma scanstring_escape (c : N) (r : pystr) :
  c < 1114112 ->
  (is_high_surrogate c = true -> no_low_escape r) ->
  scanstring (escape c ++ r) = push c (scanstring r).
Proof.
  intros Hc Hr.
  destruct (N.ltb_spec c 65536) as [Hbasic|Hastral];
    [|now apply scanstring_pair].
  unfold escape.
  repeat match goal with
         | |- context [c =? ?k] =>
             destruct (N.eqb_spec c k) as [->|?]; [reflexivity|]
         end.
  destruct ((32 <=? c) && (c <=? 126)) eqn:Hprint.
  - apply andb_true_iff in Hprint as [H1 H2]. apply N.leb_le in H1.
    cbn [app scanstring].
    destruct (N.eqb_spec c 34); [contradiction|].
    destruct (N.eqb_spec c 92); [contradiction|].
    now replace (c <? 32) with false by (symmetry; apply N.ltb_ge; lia).
  - replace (c <? 65536) with true by (symmetry; now apply N.ltb_lt).
    destruct (is_high_surrogate c) eqn:Hhigh.
    + apply scanstring_lone; auto.
    + unfold escape_u, hex4_of. cbn [app].
      rewrite scanstring_unicode, hex4_hex4_of by assumption.
      now rewrite Hhigh.
Qed.

(** The text written for a string that does not begin with a low
    surrogate does not begin with the escape of one. *)
Lemma escaped_head (s rest : pystr) :
  match s with
  | d :: _ => d < 1114112 /\ is_low_surrogate d = false
  | [] => True
  end ->
  no_low_escape (flat_map escape s ++ 34 :: rest).
Proof.
  intros Hs g1 g2 g3 g4 s4 E. destruct s as [|d s]; [discriminate|].
  destruct Hs as [Hd Hlow]. cbn [flat_map] in E. rewrite <- app_assoc in E.
  revert E. destruct (N.ltb_spec d 65536) as [Hbasic|Hastral].
  - unfold escape.
    repeat match goal with
           | |- context [d =? ?k] =>
               destruct (N.eqb_spec d k) as [->|?]; [discriminate|]
           end.
    destruct ((32 <=? d) && (d <=? 126)).
    { cbn [app]. intros E. apply cons_eq in E as [E _]. contradiction. }
    replace (d <? 65536) with true by (symmetry; now apply N.ltb_lt).
    unfold escape_u, hex4_of. cbn [app]. intros E.
    do 2 apply cons_eq in E as [_ E].
    do 4 apply cons_eq in E as [<- E]. exists d. split; [|assumption].
    now apply hex4_hex4_of.
  - destruct (@escape_astral d Hastral Hd) as (hi & lo & -> & Hh & _ & _).
    unfold escape_u, hex4_of. cbn [app]. intros E.
    do 2 apply cons_eq in E as [_ E].
    do 4 apply cons_eq in E as [<- E]. exists hi.
    split; [apply hex4_hex4_of; lia|now apply high_not_low].
Qed.

(** The decoder reads back the string the encoder writes. *)
Lemma scanstring_escaped (s rest : pystr) :
  well_formed s = true ->
  scanstring (flat_map escape s ++ 34 :: rest) = Some (s, rest).
Proof.
  induction s as [|c s IH]; [reflexivity|].
  cbn [well_formed flat_map]. intros Hwf.
  apply andb_true_iff in Hwf as [Hwf Hs].
  apply andb_true_iff in Hwf as [Hc Hpair].
  apply N.ltb_lt in Hc. rewrite <- app_assoc.
  rewrite scanstring_escape, IH; try assumption; [reflexivity|].
  intros Hhigh. rewrite Hhigh in Hpair. apply escaped_head.
  destruct s as [|d s']; [exact I|].
  cbn [well_formed] in Hs. apply andb_true_iff in Hs as [Hs _].
  apply andb_true_iff in Hs as [Hd _]. apply N.ltb_lt in Hd.
  split; [assumption|]. now destruct (is_low_surrogate d).
Qed.


(** ** Integers *)

Lemma digits_of_acc (fuel : nat) :
  forall n acc, digits_of fuel n acc = digits_of fuel n [] ++ acc.
Proof.
  induction fuel as [|fuel IH]; intros n acc; [reflexivity|].
  cbn [digits_of]. destruct (n <? 10); [reflexivity|].
  rewrite IH, (IH _ [_]). now rewrite <- app_assoc.
Qed.

Lemma digits_of_step (fuel : nat) (n : N) :
  digits_of (S fuel) n [] =
    if n <? 10 then [48 + n]
    else digits_of fuel (n / 10) [] ++ [48 + n mod 10].
Proof.
  cbn [digits_of]. destruct (n <? 10); [reflexivity|apply digits_of_acc].
Qed.

Lemma digit_of (d : N) : d < 10 -> is_digit (48 + d) = true.
Proof.
  intros Hd. unfold is_digit. apply andb_true_iff.
  split; apply N.leb_le; lia.
Qed.

Lemma digits_of_digits (fuel : nat) :
  forall n, forallb is_digit (digits_of fuel n []) = true.
Proof.
  induction fuel as [|fuel IH]; intros n; [reflexivity|].
  rewrite digits_of_step. destruct (N.ltb_spec n 10) as [Hn|Hn].
  - cbn [forallb]. now rewrite digit_of.
  - rewrite forallb_app, IH. cbn [forallb].
    rewrite digit_of by (apply N.mod_lt; discriminate). reflexivity.
Qed.

Lemma decimal_snoc (ds : pystr) (d : N) :
  decimal (ds ++ [d]) = (decimal ds * 10 + Z.of_N (d - 48))%Z.
Proof. unfold decimal. now rewrite fold_left_app. Qed.

(** The digits written denote the number. *)
Lemma decimal_digits_of (fuel : nat) :
  forall n, n < 2 ^ N.of_nat fuel ->
    decimal (digits_of (S fuel) n []) = Z.of_N n.
Proof.
  induction fuel as [|fuel IH]; intros n Hn; rewrite digits_of_step;
    destruct (N.ltb_spec n 10) as [Hs|Hs].
  - unfold decimal. cbn [fold_left]. lia.
  - change (2 ^ N.of_nat 0) with 1 in Hn. lia.
  - unfold decimal. cbn [fold_left]. lia.
  - rewrite decimal_snoc, IH.
    + pose proof (N.div_mod n 10) as Hdiv.
      pose proof (N.mod_lt n 10) as Hmod.
      remember (n / 10) as q. remember (n mod 10) as m. lia.
    + rewrite Nat2N.inj_succ, N.pow_succ_r' in Hn.
      apply N.Div0.div_lt_upper_bound. lia.
Qed.

(** A number above zero is written without a leading zero. *)
Lemma digits_of_head (fuel : nat) :
  forall n, 0 < n -> n < 2 ^ N.of_nat fuel ->
    exists d ds, digits_of (S fuel) n [] = d :: ds
                 /\ is_digit d = true /\ d <> 48.
Proof.
  induction fuel as [|fuel IH]; intros n Hpos Hn; rewrite digits_of_step;
    destruct (N.ltb_spec n 10) as [Hs|Hs].
  - exists (48 + n), []. repeat split; [now apply digit_of|lia].
  - change (2 ^ N.of_nat 0) with 1 in Hn. lia.
  - exists (48 + n), []. repeat split; [now apply digit_of|lia].
  - destruct (IH (n / 10)) as (d & ds & -> & Hd & Hne).
    + apply N.div_str_pos. lia.
    + rewrite Nat2N.inj_succ, N.pow_succ_r' in Hn.
      apply N.Div0.div_lt_upper_bound. lia.
    + exists d, (ds ++ [48 + n mod 10]). auto.
Qed.

Lemma size_bound (p : positive) :
  N.pos p < 2 ^ N.of_nat (N.to_nat (N.size (N.pos p))).
Proof. rewrite N2Nat.id. apply N.size_gt. Qed.

Lemma ends_number_digit (rest : pystr) :
  ends_number rest = true ->
  match rest with
  | [] => True
  | c :: _ => is_digit c = false /\ c <> 46 /\ c <> 101 /\ c <> 69
  end.
Proof.
  destruct rest as [|c rest]; [auto|]. cbn [ends_number]. intros E.
  apply negb_true_iff in E. apply orb_false_iff in E as [E E3].
  apply orb_false_iff in E as [E E2]. apply orb_false_iff in E as [E0 E1].
  apply N.eqb_neq in E1, E2, E3. auto.
Qed.

Lemma span_digits_app (ds rest : pystr) :
  forallb is_digit ds = true -> ends_number rest = true ->
  span_digits (ds ++ rest) = (ds, rest).
Proof.
  intros Hds Hrest. induction ds as [|d ds IH].
  - destruct rest as [|c rest]; [reflexivity|].
    apply ends_number_digit in Hrest as (Hc & _). cbn [app span_digits].
    now rewrite Hc.
  - cbn [forallb] in Hds. apply andb_true_iff in Hds as [Hd Hds].
    cbn [app span_digits]. rewrite Hd, IH by assumption. reflexivity.
Qed.

Lemma scan_frac_none (rest : pystr) :
  ends_number rest = true -> scan_frac rest = None.
Proof.
  intros Hrest. destruct rest as [|c rest]; [reflexivity|].
  apply ends_number_digit in Hrest as (_ & Hc & _). cbn [scan_frac].
  now destruct (N.eqb_spec c 46).
Qed.

Lemma scan_exp_none (rest : pystr) :
  ends_number rest = true -> scan_exp rest = None.
Proof.
  intros Hrest. destruct rest as [|c rest]; [reflexivity|].
  apply ends_number_digit in Hrest as (_ & _ & H1 & H2). cbn [scan_exp].
  destruct (N.eqb_spec c 101); [contradiction|].
  now destruct (N.eqb_spec c 69).
Qed.

Lemma digit_not (d k : N) :
  is_digit d = true -> k < 48 \/ 57 < k -> (d =? k) = false.
Proof.
  unfold is_digit. intros Hd Hk. apply andb_true_iff in Hd as [H1 H2].
  apply N.leb_le in H1, H2. apply N.eqb_neq. lia.
Qed.

(** The integer part of the digits written for a number above zero, or
    of the digits behind a minus sign. *)
Lemma scan_int_digits (sign : bool) (d : N) (ds rest : pystr) :
  is_digit d = true -> d <> 48 -> forallb is_digit ds = true ->
  ends_number rest = true ->
  scan_int ((if sign then [45] else []) ++ d :: ds ++ rest)
  = Some ((if sign then [45] else []) ++ d :: ds, rest).
Proof.
  intros Hd Hne Hds Hrest. unfold scan_int. destruct sign; cbn [app].
  - change (45 =? 45) with true. cbv iota.
    destruct (N.eqb_spec d 48); [contradiction|].
    rewrite Hd, span_digits_app by assumption. reflexivity.
  - rewrite (@digit_not d 45 Hd) by lia.
    destruct (N.eqb_spec d 48); [contradiction|].
    rewrite Hd, span_digits_app by assumption. reflexivity.
Qed.

Lemma scan_number_int (i rest : pystr) :
  scan_int (i ++ rest) = Some (i, rest) -> ends_number rest = true ->
  scan_number (i ++ rest) = Some (TInt (int_of i), rest).
Proof.
  intros Hi Hrest. unfold scan_number.
  now rewrite Hi, scan_frac_none, scan_exp_none.
Qed.

(** The number at the head of the text written for an [int]. *)
Lemma scan_number_int_repr (z : Z) (rest : pystr) :
  ends_number rest = true ->
  scan_number (int_repr z ++ rest) = Some (TInt z, rest).
Proof.
  intros Hrest. destruct z as [|p|p]; unfold int_repr.
  - now rewrite scan_number_int.
  - destruct (@digits_of_head (N.to_nat (N.size (N.pos p))) (N.pos p))
      as (d & ds & E & Hd & Hne); [reflexivity|apply size_bound|].
    pose proof (digits_of_digits (S (N.to_nat (N.size (N.pos p)))) (N.pos p))
      as Hall.
    pose proof (@decimal_digits_of (N.to_nat (N.size (N.pos p))) (N.pos p)
                  (size_bound p)) as Hval.
    rewrite E in *. cbn [forallb] in Hall.
    apply andb_true_iff in Hall as [_ Hds].
    rewrite scan_number_int;
      [|exact (@scan_int_digits false d ds rest Hd Hne Hds Hrest)|assumption].
    unfold int_of. rewrite (@digit_not d 45 Hd) by lia. now rewrite Hval.
  - destruct (@digits_of_head (N.to_nat (N.size (N.pos p))) (N.pos p))
      as (d & ds & E & Hd & Hne); [reflexivity|apply size_bound|].
    pose proof (digits_of_digits (S (N.to_nat (N.size (N.pos p)))) (N.pos p))
      as Hall.
    pose proof (@decimal_digits_of (N.to_nat (N.size (N.pos p))) (N.pos p)
                  (size_bound p)) as Hval.
    rewrite E in *. cbn [forallb] in Hall.
    apply andb_true_iff in Hall as [_ Hds].
    change (45 :: d :: ds) with ([45] ++ d :: ds). rewrite <- app_assoc.
    pose proof (@scan_int_digits true d ds rest Hd Hne Hds Hrest) as Hint.
    cbn [app] in Hint |- *.
    change (45 :: d :: ds ++ rest) with ((45 :: d :: ds) ++ rest).
    rewrite scan_number_int by assumption.
    unfold int_of. change (45 =? 45) with true. cbv iota.
    now rewrite Hval.
Qed.

(** The text written for an [int] begins with a digit or a minus
    sign. *)
Lemma int_repr_head (z : Z) :
  exists c s, int_repr z = c :: s /\ (is_digit c = true \/ c = 45).
Proof.
  destruct z as [|p|p]; unfold int_repr.
  - exists 48, []. auto.
  - destruct (@digits_of_head (N.to_nat (N.size (N.pos p))) (N.pos p))
      as (d & ds & -> & Hd & _); [reflexivity|apply size_bound|]. eauto.
  - eauto.
Qed.


(** ** The tokens of the text written *)

Lemma tokens_token (c : char) (s r : pystr) (t : token) :
  is_ws c = false -> next_token (c :: s) = Some (t, r) ->
  tokens (c :: s) = option_map (cons t) (tokens r).
Proof. intros Hc E. now rewrite LexFacts.tokens_cons, Hc, E. Qed.

(** A token of one code point. *)
Lemma tokens_single (c : char) (t : token) (s : pystr) :
  is_ws c = false -> (forall s', next_token (c :: s') = Some (t, s')) ->
  tokens ([c] ++ s) = option_map (cons t) (tokens s).
Proof. intros Hc Ht. now apply tokens_token. Qed.

Lemma next_token_quote (s : pystr) :
  next_token (34 :: s) =
    match scanstring s with
    | Some (v, r) => Some (TString v, r)
    | None => None
    end.
Proof. reflexivity. Qed.

Lemma tokens_string (s rest : pystr) :
  well_formed s = true ->
  tokens (encode_basestring_ascii s ++ rest)
  = option_map (cons (TString s)) (tokens rest).
Proof.
  intros Hs. unfold encode_basestring_ascii. cbn [app].
  rewrite <- app_assoc. cbn [app]. apply tokens_token; [reflexivity|].
  now rewrite next_token_quote, scanstring_escaped.
Qed.

Lemma next_token_number (c : char) (s : pystr) :
  is_digit c = true \/ c = 45 ->
  is_ws c = false
  /\ next_token (c :: s) =
       match scan_number (c :: s) with
       | Some r => Some r
       | None => scan_literal (c :: s)
       end.
Proof.
  intros [Hc| ->]; [|split; reflexivity]. unfold is_ws, next_token.
  now rewrite !(@digit_not c _ Hc) by lia.
Qed.

Lemma tokens_int (z : Z) (rest : pystr) :
  ends_number rest = true ->
  tokens (int_repr z ++ rest) = option_map (cons (TInt z)) (tokens rest).
Proof.
  intros Hrest. pose proof (@scan_number_int_repr z rest Hrest) as Hscan.
  destruct (int_repr_head z) as (c & s & E & Hc). rewrite E in *.
  cbn [app] in *. destruct (@next_token_number c (s ++ rest) Hc) as [Hws Hnext].
  apply tokens_token; [assumption|]. now rewrite Hnext, Hscan.
Qed.

Lemma newline_indent_ws (level : nat) :
  forallb is_ws (newline_indent level) = true.
Proof.
  unfold newline_indent. cbn [forallb]. change (is_ws 10) with true.
  cbn [andb]. induction (2 * level)%nat as [|n IH]; [reflexivity|].
  cbn [repeat forallb]. now rewrite IH.
Qed.

Lemma tokens_indent (level : nat) (s : pystr) :
  tokens (newline_indent level ++ s) = tokens s.
Proof. apply LexFacts.tokens_leading, newline_indent_ws. Qed.

Lemma ends_number_indent (level : nat) (s : pystr) :
  ends_number (newline_indent level ++ s) = true.
Proof. reflexivity. Qed.

Lemma join_more (sep x y : pystr) (rest : list pystr) :
  join sep (x :: y :: rest) = x ++ sep ++ join sep (y :: rest).
Proof. reflexivity. Qed.

Lemma separated_more (sep : token) (g h : list token)
    (rest : list (list token)) :
  separated sep (g :: h :: rest) = g ++ sep :: separated sep (h :: rest).
Proof. reflexivity. Qed.

(** The items of a list or a dict, written with the separator between
    them. *)
Lemma tokens_joined {A} (enc : A -> pystr) (tok : A -> list token)
    (level : nat) (items : list A) (tail : pystr) :
  Forall (fun x => forall rest, ends_number rest = true ->
            tokens (enc x ++ rest) = option_map (app (tok x)) (tokens rest))
         items ->
  items <> [] -> ends_number tail = true ->
  tokens (join (44 :: newline_indent level) (map enc items) ++ tail)
  = option_map (app (separated TComma (map tok items))) (tokens tail).
Proof.
  intros Hall Hne Htail.
  induction items as [|x [|y l] IH]; [contradiction| |].
  - cbn [map join separated]. apply Forall_inv in Hall. now apply Hall.
  - inversion Hall as [|? ? Hx Hrest]; subst.
    specialize (IH Hrest ltac:(discriminate)).
    cbn [map] in IH |- *. rewrite join_more, separated_more.
    rewrite <- !app_assoc. rewrite Hx by reflexivity.
    change ((44 :: newline_indent level) ++ ?rest)
      with ([44] ++ newline_indent level ++ rest).
    rewrite (@tokens_single 44 TComma _ eq_refl (fun _ => eq_refl)).
    rewrite tokens_indent, IH.
    destruct (tokens tail); cbn [option_map]; [|reflexivity].
    now rewrite <- app_assoc.
Qed.

Section Text.
Context `{Float}.

Lemma iterencode_array (level : nat) (x : json) (xs : list json) :
  iterencode level (JArray (x :: xs)) =
    [91] ++ newline_indent (S level)
    ++ join (44 :: newline_indent (S level))
            (map (iterencode (S level)) (x :: xs))
    ++ newline_indent level ++ [93].
Proof. reflexivity. Qed.

Lemma iterencode_object (level : nat) (kv : pystr * json)
    (items : list (pystr * json)) :
  iterencode level (JObject (kv :: items)) =
    [123] ++ newline_indent (S level)
    ++ join (44 :: newline_indent (S level))
            (map (fun kv => encode_basestring_ascii (fst kv) ++ [58; 32]
                            ++ iterencode (S level) (snd kv))
                 (kv :: items))
    ++ newline_indent level ++ [125].
Proof. reflexivity. Qed.

(** The tokens of the text written for a plain value, with what follows
    it. *)
Lemma tokens_iterencode (o : json) :
  plain o = true ->
  forall level rest, ends_number rest = true ->
    tokens (iterencode level o ++ rest)
    = option_map (app (tokens_of o)) (tokens rest).
Proof.
  induction o as [|b|z|lexeme|s|items IH|items IH] using json_induction;
    intros Hplain level rest Hrest.
  - now apply tokens_token.
  - destruct b; now apply tokens_token.
  - now apply tokens_int.
  - discriminate.
  - now apply tokens_string.
  - destruct items as [|x xs].
    { change (tokens ([91] ++ [93] ++ rest)
              = option_map (app [TLBracket; TRBracket]) (tokens rest)).
      rewrite (@tokens_single 91 TLBracket _ eq_refl (fun _ => eq_refl)).
      rewrite (@tokens_single 93 TRBracket _ eq_refl (fun _ => eq_refl)).
      now destruct (tokens rest). }
    rewrite iterencode_array. rewrite <- !app_assoc.
    rewrite (@tokens_single 91 TLBracket _ eq_refl (fun _ => eq_refl)).
    rewrite tokens_indent.
    rewrite (@tokens_joined _ (iterencode (S level)) tokens_of);
      [|  |discriminate|apply ends_number_indent].
    + rewrite tokens_indent.
      rewrite (@tokens_single 93 TRBracket _ eq_refl (fun _ => eq_refl)).
      destruct (tokens rest); cbn [option_map]; [|reflexivity].
      cbn [tokens_of]. cbn [app]. now rewrite <- app_assoc.
    + cbn [plain] in Hplain. rewrite forallb_forall in Hplain.
      rewrite Forall_forall in IH |- *. intros y Hy. auto.
  - destruct items as [|kv kvs].
    { change (tokens ([123] ++ [125] ++ rest)
              = option_map (app [TLBrace; TRBrace]) (tokens rest)).
      rewrite (@tokens_single 123 TLBrace _ eq_refl (fun _ => eq_refl)).
      rewrite (@tokens_single 125 TRBrace _ eq_refl (fun _ => eq_refl)).
      now destruct (tokens rest). }
    rewrite iterencode_object. rewrite <- !app_assoc.
    rewrite (@tokens_single 123 TLBrace _ eq_refl (fun _ => eq_refl)).
    rewrite tokens_indent.
    rewrite (@tokens_joined _
               (fun kv => encode_basestring_ascii (fst kv) ++ [58; 32]
                          ++ iterencode (S level) (snd kv))
               (fun kv => TString (fst kv) :: TColon :: tokens_of (snd kv)));
      [|  |discriminate|apply ends_number_indent].
    + rewrite tokens_indent.
      rewrite (@tokens_single 125 TRBrace _ eq_refl (fun _ => eq_refl)).
      destruct (tokens rest); cbn [option_map]; [|reflexivity].
      cbn [tokens_of]. cbn [app]. now rewrite <- app_assoc.
    + cbn [plain] in Hplain. apply andb_true_iff in Hplain as [_ Hplain].
      rewrite forallb_forall in Hplain.
      rewrite Forall_forall in IH |- *. intros y Hy rest' Hrest'.
      specialize (Hplain y Hy). apply andb_true_iff in Hplain as [Hk Hv].
      rewrite <- !app_assoc. rewrite tokens_string by assumption.
      change ([58; 32] ++ iterencode (S level) (snd y) ++ rest')
        with ([58] ++ 32 :: iterencode (S level) (snd y) ++ rest').
      rewrite (@tokens_single 58 TColon _ eq_refl (fun _ => eq_refl)).
      rewrite LexFacts.tokens_ws by reflexivity.
      rewrite (IH y Hy Hv) by assumption.
      now destruct (tokens rest').
Qed.
End Text.


(** ** The value of the tokens *)

Lemma distinct_NoDup (keys : list pystr) :
  distinct keys = true -> NoDup keys.
Proof.
  induction keys as [|k keys IH]; cbn [distinct]; intros E; constructor;
    apply andb_true_iff in E as [E1 E2]; [|now apply IH].
  apply negb_true_iff in E1. intros Hin.
  assert (existsb (PyStr.eqb k) keys = true); [|congruence].
  apply existsb_exists. exists k. split; [assumption|now apply pystr_eqb_eq].
Qed.

(** A new key is put behind the items of the dict. *)
Lemma dict_set_fresh (k : pystr) (v : json) (d : list (pystr * json)) :
  ~ In k (map fst d) -> dict_set k v d = d ++ [(k, v)].
Proof.
  induction d as [|[k' v'] d IH]; [reflexivity|]. cbn [map fst In dict_set app].
  intros Hnot. destruct (PyStr.eqb k' k) eqn:E.
  - apply pystr_eqb_eq in E. tauto.
  - rewrite IH by tauto. reflexivity.
Qed.

Lemma dict_fold_fresh (items acc : list (pystr * json)) :
  NoDup (map fst (acc ++ items)) ->
  fold_left (fun d kv => dict_set (fst kv) (snd kv) d) items acc = acc ++ items.
Proof.
  revert acc. induction items as [|[k v] items IH]; intros acc Hnd.
  - now rewrite app_nil_r.
  - cbn [fold_left fst snd]. rewrite dict_set_fresh.
    + rewrite IH; rewrite <- app_assoc; [reflexivity|assumption].
    + rewrite map_app in Hnd. cbn [map fst] in Hnd.
      apply NoDup_remove_2 in Hnd. intros Hin. apply Hnd.
      apply in_or_app. now left.
Qed.

(** The pairs of a dict whose keys are distinct are its items. *)
Lemma dict_distinct (items : list (pystr * json)) :
  distinct (map fst items) = true -> dict items = items.
Proof.
  intros E. unfold dict. rewrite dict_fold_fresh; [reflexivity|].
  now apply distinct_NoDup.
Qed.

(** The tokens of a value begin with none of the closing tokens. *)
Lemma tokens_of_head (o : json) :
  exists t ts, tokens_of o = t :: ts /\ t <> TRBracket.
Proof.
  destruct o as [|[|]|z|l|s|items|items]; cbn [tokens_of];
    do 2 eexists; (split; [reflexivity|discriminate]).
Qed.

Lemma value_step_array (fuel : nat) (t : token) (ts : list token) :
  t <> TRBracket ->
  parse_value (S fuel) (TLBracket :: t :: ts) =
    match parse_elements fuel (t :: ts) with
    | Some (xs, r') => Some (JArray xs, r')
    | None => None
    end.
Proof. intros Ht. destruct t; try reflexivity. contradiction. Qed.

Lemma value_step_object (fuel : nat) (k : pystr) (ts : list token) :
  parse_value (S fuel) (TLBrace :: TString k :: ts) =
    match parse_members fuel (TString k :: ts) with
    | Some (ms, r') => Some (JObject (dict ms), r')
    | None => None
    end.
Proof. reflexivity. Qed.

Lemma elements_joined (items : list json) :
  Forall (fun x => reads parse_value (tokens_of x) x) items -> items <> [] ->
  reads parse_elements
    (separated TComma (map tokens_of items) ++ [TRBracket]) items.
Proof.
  intros Hall Hne. induction items as [|x [|y l] IH]; [contradiction| |].
  - apply Forall_inv in Hall. destruct Hall as [fuel Hx].
    exists (S fuel). intros r. cbn [map separated].
    rewrite <- app_assoc, GrammarFacts.elements_step, Hx. reflexivity.
  - inversion Hall as [|? ? [fx Hx] Hrest]; subst.
    destruct (IH Hrest ltac:(discriminate)) as [fl Hl].
    exists (S (Nat.max fx fl)). intros r. specialize (Hl r).
    specialize (Hx (TComma :: separated TComma (map tokens_of (y :: l))
                    ++ TRBracket :: r)).
    cbn [map] in Hl, Hx |- *. rewrite separated_more.
    repeat rewrite <- app_assoc. repeat rewrite <- app_assoc in Hl.
    cbn [app] in Hl |- *. rewrite GrammarFacts.elements_step.
    rewrite (GrammarFacts.value_more _ Hx (Nat.le_max_l fx fl)).
    rewrite (GrammarFacts.elements_more _ Hl (Nat.le_max_r fx fl)).
    reflexivity.
Qed.

Lemma members_joined (items : list (pystr * json)) :
  Forall (fun kv => reads parse_value (tokens_of (snd kv)) (snd kv)) items ->
  items <> [] ->
  reads parse_members
    (separated TComma
       (map (fun kv => TString (fst kv) :: TColon :: tokens_of (snd kv)) items)
     ++ [TRBrace]) items.
Proof.
  intros Hall Hne. induction items as [|[k v] [|y l] IH]; [contradiction| |].
  - apply Forall_inv in Hall. destruct Hall as [fuel Hx].
    exists (S fuel). intros r. cbn [map separated fst snd] in *.
    cbn [app]. rewrite GrammarFacts.members_step.
    rewrite <- app_assoc, Hx. reflexivity.
  - inversion Hall as [|? ? [fx Hx] Hrest]; subst.
    destruct (IH Hrest ltac:(discriminate)) as [fl Hl].
    exists (S (Nat.max fx fl)). intros r. specialize (Hl r).
    cbn [map fst snd] in Hx, Hl |- *.
    specialize (Hx (TComma
                    :: separated TComma
                         ((TString (fst y) :: TColon :: tokens_of (snd y))
                          :: map (fun kv => TString (fst kv) :: TColon
                                            :: tokens_of (snd kv)) l)
                    ++ TRBrace :: r)).
    rewrite separated_more.
    repeat rewrite <- app_assoc. repeat rewrite <- app_assoc in Hl.
    cbn [app] in Hl |- *. rewrite GrammarFacts.members_step.
    rewrite (GrammarFacts.value_more _ Hx (Nat.le_max_l fx fl)).
    rewrite (GrammarFacts.members_more _ Hl (Nat.le_max_r fx fl)).
    reflexivity.
Qed.

Lemma separated_head (g : list token) (gs : list (list token))
    (t : token) (ts : list token) :
  g = t :: ts -> exists ts', separated TComma (g :: gs) = t :: ts'.
Proof. intros ->. destruct gs; cbn [separated app]; eauto. Qed.

Lemma value_array (fuel : nat) (ts r : list token) (items : list json) :
  (exists t ts', ts = t :: ts' /\ t <> TRBracket) ->
  parse_elements fuel ts = Some (items, r) ->
  parse_value (S fuel) (TLBracket :: ts) = Some (JArray items, r).
Proof.
  intros (t & ts' & -> & Ht) E. now rewrite value_step_array, E.
Qed.

Lemma value_object (fuel : nat) (k : pystr) (ts r : list token)
    (items : list (pystr * json)) :
  parse_members fuel (TString k :: ts) = Some (items, r) ->
  parse_value (S fuel) (TLBrace :: TString k :: ts)
  = Some (JObject (dict items), r).
Proof. intros E. now rewrite value_step_object, E. Qed.

(** The grammar reads the tokens of a plain value as that value. *)
Lemma parse_tokens_of (o : json) :
  plain o = true -> reads parse_value (tokens_of o) o.
Proof.
  induction o as [|b|z|lexeme|s|items IH|items IH] using json_induction;
    intros Hplain; try (exists 1%nat; intros r; reflexivity).
  - exists 1%nat. intros r. now destruct b.
  - destruct items as [|x xs]; [exists 1%nat; intros r; reflexivity|].
    cbn [plain] in Hplain. rewrite forallb_forall in Hplain.
    destruct (@elements_joined (x :: xs)) as [fuel Hl];
      [|discriminate|].
    { rewrite Forall_forall in IH |- *. intros y Hy. auto. }
    exists (S fuel). intros r. specialize (Hl r). cbn [tokens_of app].
    apply value_array; [|exact Hl].
    destruct (tokens_of_head x) as (t & ts & Et & Ht).
    destruct (@separated_head _ (map tokens_of xs) _ _ Et) as [ts' Es].
    cbn [map]. rewrite Es. cbn [app]. eauto.
  - destruct items as [|[k v] kvs]; [exists 1%nat; intros r; reflexivity|].
    cbn [plain] in Hplain. apply andb_true_iff in Hplain as [Hkeys Hplain].
    rewrite forallb_forall in Hplain.
    destruct (@members_joined ((k, v) :: kvs)) as [fuel Hl];
      [|discriminate|].
    { rewrite Forall_forall in IH |- *. intros y Hy. apply IH; [assumption|].
      specialize (Hplain y Hy). now apply andb_true_iff in Hplain as [_ Hv]. }
    exists (S fuel). intros r. specialize (Hl r). cbn [tokens_of app].
    destruct (@separated_head
                (TString k :: TColon :: tokens_of v)
                (map (fun kv => TString (fst kv) :: TColon :: tokens_of (snd kv))
                     kvs) _ _ eq_refl) as [ts' Es].
    cbn [map fst snd] in Hl |- *. rewrite Es in Hl |- *. cbn [app] in Hl |- *.
    rewrite (@value_object _ _ _ _ _ Hl). now rewrite dict_distinct.
Qed.

Section RoundTrip.
Context `{Float}.

(** [json.loads] reads back what [json.dump] wrote for a plain value. *)
Lemma loads_iterencode (o : json) (level : nat) :
  plain o = true -> loads (iterencode level o) = Some o.
Proof.
  intros Hplain. destruct (parse_tokens_of o Hplain) as [fuel Hparse].
  pose proof (@tokens_iterencode _ o Hplain level [] eq_refl) as Hlex.
  rewrite app_nil_r in Hlex. change (tokens []) with (Some (@nil token)) in Hlex.
  cbn [option_map] in Hlex. rewrite app_nil_r in Hlex.
  specialize (Hparse []). rewrite app_nil_r in Hparse.
  exact (@GrammarFacts.loads_fuel _ _ _ _ _ Hlex Hparse).
Qed.
End RoundTrip.


(** ** The code points of the text written *)

Lemma hexdigit_ascii (d : N) : is_ascii_text (hexdigit (d mod 16)) = true.
Proof.
  exact (checked_below (fun d => is_ascii_text (hexdigit d)) 16 eq_refl
           (N.mod_lt d 16 ltac:(discriminate))).
Qed.

Lemma escape_u_ascii (n : N) : forallb is_ascii_text (escape_u n) = true.
Proof.
  unfold escape_u, hex4_of. cbn [forallb]. now rewrite !hexdigit_ascii.
Qed.

Lemma escape_ascii (c : char) : forallb is_ascii_text (escape c) = true.
Proof.
  unfold escape.
  repeat match goal with
         | |- context [c =? ?k] => destruct (c =? k); [reflexivity|]
         end.
  destruct ((32 <=? c) && (c <=? 126)) eqn:Hprint.
  - cbn [forallb]. unfold is_ascii_text. now rewrite Hprint.
  - destruct (c <? 65536); [apply escape_u_ascii|]. cbv zeta.
    now rewrite forallb_app, !escape_u_ascii.
Qed.

Lemma encode_basestring_ascii_ascii (s : pystr) :
  forallb is_ascii_text (encode_basestring_ascii s) = true.
Proof.
  unfold encode_basestring_ascii. cbn [forallb]. rewrite forallb_app.
  cbn [forallb]. change (is_ascii_text 34) with true. cbn [andb].
  rewrite andb_true_r. induction s as [|c s IH]; [reflexivity|].
  cbn [flat_map]. now rewrite forallb_app, escape_ascii, IH.
Qed.

Lemma digit_ascii (c : char) : is_digit c = true -> is_ascii_text c = true.
Proof.
  unfold is_digit, is_ascii_text. intros E.
  apply andb_true_iff in E as [E1 E2]. apply N.leb_le in E1, E2.
  apply orb_true_iff. left. apply andb_true_iff. split; apply N.leb_le; lia.
Qed.

Lemma digits_ascii (ds : pystr) :
  forallb is_digit ds = true -> forallb is_ascii_text ds = true.
Proof.
  induction ds as [|d ds IH]; [reflexivity|]. cbn [forallb]. intros E.
  apply andb_true_iff in E as [E1 E2]. now rewrite digit_ascii, IH.
Qed.

Lemma int_repr_ascii (z : Z) : forallb is_ascii_text (int_repr z) = true.
Proof.
  destruct z as [|p|p]; unfold int_repr; [reflexivity| |];
    cbn [forallb]; rewrite ?digits_ascii by apply digits_of_digits;
    reflexivity.
Qed.

Lemma newline_indent_ascii (level : nat) :
  forallb is_ascii_text (newline_indent level) = true.
Proof.
  unfold newline_indent. cbn [forallb]. change (is_ascii_text 10) with true.
  cbn [andb]. induction (2 * level)%nat as [|n IH]; [reflexivity|].
  cbn [repeat forallb]. now rewrite IH.
Qed.

Lemma forallb_join (p : char -> bool) (sep : pystr) (items : list pystr) :
  forallb p sep = true -> Forall (fun x => forallb p x = true) items ->
  forallb p (join sep items) = true.
Proof.
  intros Hsep Hall. induction items as [|x [|y l] IH]; [reflexivity| |].
  - apply Forall_inv in Hall. exact Hall.
  - inversion Hall as [|? ? Hx Hrest]; subst.
    rewrite join_more, !forallb_app, Hx, Hsep. now rewrite IH.
Qed.

Section Ascii.
Context `{Float}.

(** [json.dump] writes printable ASCII and line feeds only, for a value
    without a float. *)
Lemma iterencode_ascii (o : json) :
  float_free o = true ->
  forall level, forallb is_ascii_text (iterencode level o) = true.
Proof.
  induction o as [|b|z|lexeme|s|items IH|items IH] using json_induction;
    intros Hfree level.
  - reflexivity.
  - now destruct b.
  - apply int_repr_ascii.
  - discriminate.
  - apply encode_basestring_ascii_ascii.
  - destruct items as [|x xs]; [reflexivity|]. rewrite iterencode_array.
    rewrite !forallb_app, !newline_indent_ascii. cbn [forallb].
    change (is_ascii_text 91) with true. change (is_ascii_text 93) with true.
    change (is_ascii_text 123) with true. change (is_ascii_text 125) with true.
    cbn [andb]. rewrite andb_true_r. apply forallb_join.
    + cbn [forallb]. now rewrite newline_indent_ascii.
    + cbn [float_free] in Hfree. rewrite forallb_forall in Hfree.
      rewrite Forall_forall in IH |- *. intros t Ht.
      apply in_map_iff in Ht as (y & <- & Hy). auto.
  - destruct items as [|kv kvs]; [reflexivity|]. rewrite iterencode_object.
    rewrite !forallb_app, !newline_indent_ascii. cbn [forallb].
    change (is_ascii_text 91) with true. change (is_ascii_text 93) with true.
    change (is_ascii_text 123) with true. change (is_ascii_text 125) with true.
    cbn [andb]. rewrite andb_true_r. apply forallb_join.
    + cbn [forallb]. now rewrite newline_indent_ascii.
    + cbn [float_free] in Hfree. rewrite forallb_forall in Hfree.
      rewrite Forall_forall in IH |- *. intros t Ht.
      apply in_map_iff in Ht as (y & <- & Hy).
      rewrite !forallb_app, encode_basestring_ascii_ascii. cbn [forallb].
      change (is_ascii_text 58) with true. change (is_ascii_text 32) with true.
      cbn [andb]. auto.
Qed.
End Ascii.

End EncoderFacts.

(* ================================================================== *)
(** * Facts about dicts and the configuration file *)
(* ================================================================== *)

Module DictFacts.

Lemma eqb_sym (s t : pystr) : PyStr.eqb s t = PyStr.eqb t s.
Proof.
  destruct (PyStr.eqb s t) eqn:E; symmetry.
  - apply pystr_eqb_eq in E. now apply pystr_eqb_eq.
  - apply pystr_eqb_neq in E. apply pystr_eqb_neq. congruence.
Qed.

Lemma eqb_same (s : pystr) : PyStr.eqb s s = true.
Proof. now apply pystr_eqb_eq. Qed.

Lemma dict_get_set (k k' : pystr) (v : json) (d : list (pystr * json)) :
  dict_get k' (dict_set k v d)
  = if PyStr.eqb k k' then Some v else dict_get k' d.
Proof.
  induction d as [|[k0 v0] d IH]; [reflexivity|]. cbn [dict_set].
  destruct (PyStr.eqb k0 k) eqn:E0; cbn [dict_get].
  - apply pystr_eqb_eq in E0. subst k0. now destruct (PyStr.eqb k k').
  - rewrite IH. destruct (PyStr.eqb k0 k') eqn:E1; [|reflexivity].
    apply pystr_eqb_eq in E1. subst k0. now rewrite eqb_sym, E0.
Qed.

Lemma dict_get_app (k : pystr) (d d' : list (pystr * json)) :
  dict_get k (d ++ d')
  = match dict_get k d with Some v => Some v | None => dict_get k d' end.
Proof.
  induction d as [|[k0 v0] d IH]; [reflexivity|]. cbn [app dict_get].
  now destruct (PyStr.eqb k0 k).
Qed.

Lemma dict_get_absent (k : pystr) (d : list (pystr * json)) :
  ~ In k (map fst d) -> dict_get k d = None.
Proof.
  induction d as [|[k0 v0] d IH]; [reflexivity|]. cbn [map fst In dict_get].
  intros Hnot. destruct (PyStr.eqb k0 k) eqn:E.
  - apply pystr_eqb_eq in E. tauto.
  - apply IH. tauto.
Qed.

Lemma dict_get_present (k : pystr) (d : list (pystr * json)) :
  In k (map fst d) -> dict_get k d <> None.
Proof.
  induction d as [|[k0 v0] d IH]; [contradiction|]. cbn [map fst In dict_get].
  intros [->|Hin]; [now rewrite eqb_same|].
  destruct (PyStr.eqb k0 k); [discriminate|auto].
Qed.

(** In a dict every key has the value of its one item. *)
Lemma dict_get_item (k : pystr) (v : json) (d : list (pystr * json)) :
  NoDup (map fst d) -> (dict_get k d = Some v <-> In (k, v) d).
Proof.
  induction d as [|[k0 v0] d IH]; cbn [map fst dict_get In]; intros Hnd.
  - split; [discriminate|contradiction].
  - inversion Hnd as [|? ? Hnot Hnd']; subst.
    destruct (PyStr.eqb k0 k) eqn:E.
    + apply pystr_eqb_eq in E. subst k0. split.
      * intros F. injection F as ->. now left.
      * intros [F|F]; [now injection F as ->|].
        exfalso. apply Hnot. apply in_map_iff. now exists (k, v).
    + rewrite IH by assumption. split; [now right|].
      intros [F|F]; [|assumption]. injection F as -> ->.
      now rewrite eqb_same in E.
Qed.

Lemma dict_get_rev (k : pystr) (d : list (pystr * json)) :
  NoDup (map fst d) -> dict_get k (rev d) = dict_get k d.
Proof.
  intros Hnd.
  assert (Hrev : NoDup (map fst (rev d)))
    by (rewrite map_rev; now apply NoDup_rev).
  destruct (dict_get k d) as [v|] eqn:E.
  - apply dict_get_item; [assumption|]. apply in_rev. rewrite rev_involutive.
    now apply dict_get_item in E.
  - destruct (dict_get k (rev d)) as [v|] eqn:E'; [|reflexivity].
    apply dict_get_item in E'; [|assumption]. apply in_rev in E'.
    apply dict_get_item in E'; [congruence|assumption].
Qed.

(** [d[k] = v] keeps the keys in place and puts a new key last. *)
Lemma keys_set (k : pystr) (v : json) (d : list (pystr * json)) :
  map fst (dict_set k v d)
  = map fst d ++ (if existsb (PyStr.eqb k) (map fst d) then [] else [k]).
Proof.
  induction d as [|[k0 v0] d IH]; [reflexivity|].
  cbn [dict_set map fst existsb].
  destruct (PyStr.eqb k0 k) eqn:E.
  - apply pystr_eqb_eq in E. subst k0.
    rewrite eqb_same. cbn [orb map fst].
    now rewrite app_nil_r.
  - rewrite (eqb_sym k k0), E. cbn [orb map fst app]. now rewrite IH.
Qed.

Lemma existsb_eqb (k : pystr) (keys : list pystr) :
  existsb (PyStr.eqb k) keys = true <-> In k keys.
Proof.
  rewrite existsb_exists. split.
  - intros (x & Hx & E). apply pystr_eqb_eq in E. now subst.
  - intros Hin. exists k. split; [assumption|now apply pystr_eqb_eq].
Qed.

Lemma dict_set_NoDup (k : pystr) (v : json) (d : list (pystr * json)) :
  NoDup (map fst d) -> NoDup (map fst (dict_set k v d)).
Proof.
  intros Hnd. rewrite keys_set.
  destruct (existsb (PyStr.eqb k) (map fst d)) eqn:E.
  - now rewrite app_nil_r.
  - apply NoDup_app; [assumption|repeat constructor; auto|].
    intros x Hx [<-|[]]. apply existsb_eqb in Hx. congruence.
Qed.

Lemma fold_set_NoDup (pairs acc : list (pystr * json)) :
  NoDup (map fst acc) ->
  NoDup (map fst (fold_left (fun d kv => dict_set (fst kv) (snd kv) d)
                            pairs acc)).
Proof.
  revert acc. induction pairs as [|[k v] pairs IH]; intros acc Hnd;
    [assumption|].
  cbn [fold_left fst snd]. apply IH. now apply dict_set_NoDup.
Qed.

Lemma dict_NoDup (pairs : list (pystr * json)) : NoDup (map fst (dict pairs)).
Proof. apply fold_set_NoDup. constructor. Qed.

(** The keys of a dict [json.loads] returns are distinct. *)
Lemma parse_object_keys (fuel : nat) (ts r : list token)
    (items : list (pystr * json)) :
  parse_value fuel ts = Some (JObject items, r) -> NoDup (map fst items).
Proof.
  destruct fuel as [|fuel]; [discriminate|].
  destruct ts as [|t ts]; [discriminate|].
  destruct t; try discriminate; cbn [parse_value].
  - destruct ts as [|t2 ts2].
    + destruct (parse_members fuel []) as [[ms r']|]; [|discriminate].
      intros E. injection E as <- _. apply dict_NoDup.
    + destruct t2;
        try (destruct (parse_members fuel _) as [[ms r']|]; [|discriminate];
             intros E; injection E as <- _; apply dict_NoDup).
      intros E. injection E as <- _. constructor.
  - destruct ts as [|t2 ts2].
    + destruct (parse_elements fuel []) as [[ms r']|]; discriminate.
    + destruct t2;
        try (destruct (parse_elements fuel _) as [[ms r']|]; discriminate).
      discriminate.
Qed.

Lemma loads_object_keys (s : pystr) (items : list (pystr * json)) :
  loads s = Some (JObject items) -> NoDup (map fst items).
Proof.
  unfold loads. destruct (lex (List.length s) s) as [ts|]; [|discriminate].
  destruct (parse_value (S (List.length ts)) ts) as [[v [|t r]]|] eqn:E;
    try discriminate.
  intros F. injection F as ->. now apply parse_object_keys in E.
Qed.

End DictFacts.

Module SettingsFacts.
Import ConfigManager DictFacts EncoderFacts.

Lemma dict_get_merge (b a : list (pystr * json)) (k : pystr) :
  dict_get k (merge a b)
  = match dict_get k (rev b) with
    | Some v => Some v
    | None => dict_get k a
    end.
Proof.
  unfold merge. revert a. induction b as [|[k1 v1] b IH]; intros a;
    [reflexivity|].
  cbn [fold_left fst snd rev]. rewrite IH, dict_get_app, dict_get_set.
  cbn [dict_get]. rewrite (eqb_sym k1 k).
  destruct (dict_get k (rev b)); [reflexivity|].
  now destruct (PyStr.eqb k k1).
Qed.

(** [{**a, **b}] keeps the keys of [a] first, in their order. *)
Lemma keys_merge (b a : list (pystr * json)) :
  exists extra, map fst (merge a b) = map fst a ++ extra.
Proof.
  unfold merge. revert a. induction b as [|[k1 v1] b IH]; intros a.
  - exists []. now rewrite app_nil_r.
  - cbn [fold_left fst snd]. destruct (IH (dict_set k1 v1 a)) as [extra ->].
    rewrite keys_set, <- app_assoc. eauto.
Qed.

Lemma merge_NoDup (a b : list (pystr * json)) :
  NoDup (map fst a) -> NoDup (map fst (merge a b)).
Proof. apply fold_set_NoDup. Qed.

(** Two dicts with the same keys in the same order and the same value at
    every key are equal. *)
Lemma dict_ext (d1 : list (pystr * json)) :
  forall d2, map fst d1 = map fst d2 -> NoDup (map fst d1) ->
    (forall k, dict_get k d1 = dict_get k d2) -> d1 = d2.
Proof.
  induction d1 as [|[k1 v1] d1 IH]; intros [|[k2 v2] d2] Hkeys Hnd Hget;
    try discriminate; [reflexivity|].
  cbn [map fst] in Hkeys, Hnd. injection Hkeys as <- Hkeys.
  inversion Hnd as [|? ? Hnot Hnd']; subst.
  pose proof (Hget k1) as H1. cbn [dict_get] in H1.
  rewrite eqb_same in H1. injection H1 as <-. f_equal.
  apply IH; [assumption|assumption|]. intros k. specialize (Hget k).
  cbn [dict_get] in Hget. destruct (PyStr.eqb k1 k) eqn:E; [|assumption].
  apply pystr_eqb_eq in E. subst k.
  rewrite !dict_get_absent; [reflexivity| |assumption]. now rewrite <- Hkeys.
Qed.

(** Adding the keys of a list that are not yet there. *)
Lemma keys_fold (b a : list (pystr * json)) :
  map fst (merge a b)
  = fold_left (fun ks k => ks ++ (if existsb (PyStr.eqb k) ks then [] else [k]))
              (map fst b) (map fst a).
Proof.
  unfold merge. revert a. induction b as [|[k1 v1] b IH]; intros a;
    [reflexivity|].
  cbn [fold_left fst snd map]. now rewrite IH, keys_set.
Qed.

Lemma add_keys_known (l ks : list pystr) :
  incl l ks ->
  fold_left (fun ks k => ks ++ (if existsb (PyStr.eqb k) ks then [] else [k]))
            l ks = ks.
Proof.
  revert ks. induction l as [|k l IH]; intros ks Hincl; [reflexivity|].
  cbn [fold_left].
  replace (existsb (PyStr.eqb k) ks) with true
    by (symmetry; apply existsb_eqb; apply Hincl; now left).
  rewrite app_nil_r. apply IH. intros x Hx. apply Hincl. now right.
Qed.

Lemma add_keys_new (l ks : list pystr) :
  NoDup (ks ++ l) ->
  fold_left (fun ks k => ks ++ (if existsb (PyStr.eqb k) ks then [] else [k]))
            l ks = ks ++ l.
Proof.
  revert ks. induction l as [|k l IH]; intros ks Hnd;
    [now rewrite app_nil_r|].
  cbn [fold_left]. destruct (existsb (PyStr.eqb k) ks) eqn:E.
  - apply existsb_eqb in E. apply NoDup_remove_2 in Hnd.
    exfalso. apply Hnd. apply in_or_app. now left.
  - rewrite IH; rewrite <- app_assoc; [reflexivity|assumption].
Qed.

(** Merging a dict that already begins with the keys of [a] into [a]
    gives that dict. *)
Lemma merge_absorbs (a m : list (pystr * json)) (extra : list pystr) :
  NoDup (map fst m) -> map fst m = map fst a ++ extra -> merge a m = m.
Proof.
  intros Hnd Hkeys.
  assert (Hka : NoDup (map fst a))
    by (rewrite Hkeys in Hnd; now apply NoDup_app_remove_r in Hnd).
  apply dict_ext.
  - rewrite keys_fold, Hkeys, fold_left_app.
    rewrite (@add_keys_known (map fst a) (map fst a)) by apply incl_refl.
    apply add_keys_new. now rewrite <- Hkeys.
  - now apply merge_NoDup.
  - intros k. rewrite dict_get_merge, dict_get_rev by assumption.
    destruct (dict_get k m) eqn:E; [reflexivity|].
    apply dict_get_absent. intros Hin.
    apply (@dict_get_present k m); [|assumption].
    rewrite Hkeys. apply in_or_app. now left.
Qed.

(** The merge is idempotent. *)
Lemma merge_merge (a b : list (pystr * json)) :
  NoDup (map fst a) -> merge a (merge a b) = merge a b.
Proof.
  intros Hnd. destruct (keys_merge b a) as [extra Hkeys].
  apply merge_absorbs with (extra := extra); [|assumption].
  now apply merge_NoDup.
Qed.

Lemma defaults_NoDup : NoDup (map fst defaults).
Proof. apply distinct_NoDup. reflexivity. Qed.

End SettingsFacts.

Module RouteFacts.
Import ConfigManager Settings DictFacts SettingsFacts EncoderFacts.

(** The shape of what [load] returns. *)
Lemma load_keys (d : disk) :
  exists items extra,
    load d = JObject items
    /\ map fst items = map fst defaults ++ extra
    /\ NoDup (map fst items).
Proof.
  assert (Hdefault : exists items extra,
            default_config = JObject items
            /\ map fst items = map fst defaults ++ extra
            /\ NoDup (map fst items)).
  { exists defaults, []. rewrite app_nil_r. repeat split.
    apply defaults_NoDup. }
  unfold load. destruct (config_file d) as [| |content]; try exact Hdefault.
  destruct (loads content) as [[| | | | | |items]|]; try exact Hdefault.
  destruct (keys_merge items defaults) as [extra Hkeys].
  exists (merge defaults items), extra. repeat split; [exact Hkeys|].
  apply merge_NoDup, defaults_NoDup.
Qed.

Section Runs.
Context `{Float}.

Lemma save_run (config : json) (w : world) (d : disk) :
  save config w d =
    if writable d
    then ([], {| config_file := Text (dump config); writable := true |},
          Returned tt)
    else ([], d, Raised OSError).
Proof. unfold save, bind, get, put, raise. now destruct (writable d). Qed.

(** What [load] finds in a file [save] wrote. *)
Lemma load_written (config : json) (b : bool) :
  plain config = true ->
  load {| config_file := Text (dump config); writable := b |} =
    match config with
    | JObject items => JObject (merge defaults items)
    | _ => default_config
    end.
Proof.
  intros Hplain. unfold load, dump. cbn [config_file].
  rewrite loads_iterencode by assumption. now destruct config.
Qed.

Lemma handle_config_post (posted : json) (w : world) (s : state) :
  handle_config (str "POST") posted w s =
    if writable (files s)
    then ([], {| config := posted;
                 files := {| config_file := Text (dump posted);
                            writable := true |} |},
          Returned saved)
    else ([], {| config := posted; files := files s |}, Raised OSError).
Proof.
  unfold handle_config. cbn [PyStr.eqb str].
  change (PyStr.eqb (str "POST") (str "POST")) with true. cbv iota.
  unfold bind, get, put, zoom, ret, with_config, with_files.
  cbn [config files]. rewrite save_run. now destruct (writable (files s)).
Qed.

Lemma handle_config_get (method : pystr) (body : json) (w : world)
    (s : state) :
  method <> str "POST" ->
  handle_config method body w s = ([], s, Returned (config s)).
Proof.
  intros Hm. unfold handle_config. apply pystr_eqb_neq in Hm. now rewrite Hm.
Qed.
End Runs.

End RouteFacts.

(* ================================================================== *)
(** * Facts about the pipeline *)
(* ================================================================== *)

Module PipelineFacts.
Import GeminiService Rendering TranslateFacts PromptFacts.

(** An entry that lacks a key stops the list comprehension with the
    [KeyError] of that key. *)
Lemma render_entries_incomplete (entries : list DictEntry) :
  ~ Forall complete entries ->
  exists key, render_entries entries = Raised (KeyError key)
              /\ (key = str "balti" \/ key = str "english").
Proof.
  induction entries as [|d ds IH]; intros Hnot.
  - destruct Hnot. constructor.
  - cbn [render_entries]. unfold render_entry.
    destruct (balti d) as [b|] eqn:Eb; [|eauto].
    destruct (english d) as [e|] eqn:Ee; [|eauto].
    destruct IH as (key & -> & Hkey); [|eauto].
    intros Hall. apply Hnot. constructor; [|assumption].
    split; congruence.
Qed.

Lemma render_entries_returns (entries : list DictEntry) (lines : list pystr) :
  render_entries entries = Returned lines -> Forall complete entries.
Proof.
  revert lines. induction entries as [|d ds IH]; intros lines E;
    [constructor|].
  cbn [render_entries] in E. unfold render_entry in E.
  destruct (balti d) as [b|] eqn:Eb; [|discriminate].
  destruct (english d) as [e|] eqn:Ee; [|discriminate].
  destruct (render_entries ds) as [ls|] eqn:Er; [|discriminate].
  constructor; [split; congruence|eauto].
Qed.

Section Trace.
Context {sample : Type} `{Audio sample}.
Variables (audio_data : list sample) (sample_rate : Z) (config : Config).
Variables (w : world) (self : t) (model_name : pystr).
Hypothesis Hmodel : model self = Some model_name.

(** The events of [translate] on every path. *)
Lemma translate_trace :
  trace_of (translate audio_data sample_rate config w self) =
    WavWrite temp_audio sample_rate (map to_int16 audio_data)
    :: if wav_write_ok w then
         UploadFile temp_audio
         :: if upload_file_ok w then
              match render_entries (get_default (dictionary config) []) with
              | Raised e => [Print (TranslationError e)]
              | Returned lines =>
                  GenerateContent model_name
                    (prompt config (join nl lines) (forbidden_str config))
                    (UploadedFile temp_audio)
                  :: match generate_content w with
                     | None => [Print (TranslationError APIError)]
                     | Some response =>
                         cleanup_trace w (UploadedFile temp_audio)
                         ++ match text response with
                            | None => [Print (TranslationError ValueError)]
                            | Some reply =>
                                match loads (clean reply) with
                                | Some _ => []
                                | None =>
                                    [Print (TranslationError JSONDecodeError)]
                                end
                            end
                     end
              end
            else [Print (TranslationError APIError)]
       else [Print (TranslationError OSError)].
Proof.
  destruct (wav_write_ok w) eqn:Hwav.
  2:{ unfold translate. unfold bind at 1, get. rewrite Hmodel.
      unfold try_except at 1. unfold bind at 1. unfold call at 1.
      rewrite Hwav. reflexivity. }
  destruct (upload_file_ok w) eqn:Hup.
  2:{ unfold translate. unfold bind at 1, get. rewrite Hmodel.
      unfold try_except at 1. unfold bind at 1. unfold call at 1.
      rewrite Hwav. cbn [ok_unit]. unfold bind at 1. unfold call at 1.
      rewrite Hup. reflexivity. }
  destruct (render_entries (get_default (dictionary config) []))
    as [lines|e] eqn:Hlines.
  2:{ unfold translate. unfold bind at 1, get. rewrite Hmodel.
      unfold try_except at 1. unfold bind at 1. unfold call at 1.
      rewrite Hwav. cbn [ok_unit]. unfold bind at 1. unfold call at 1.
      rewrite Hup. unfold bind at 1. rewrite dict_str_run, Hlines.
      reflexivity. }
  rewrite (@translate_run _ _ audio_data sample_rate config w self model_name
             Hmodel lines Hwav Hup Hlines).
  destruct (generate_content w) as [response|]; [|reflexivity].
  destruct (text response) as [reply|];
    [destruct (loads (clean reply))|]; unfold trace_of; cbn [fst app];
    rewrite ?app_nil_r; reflexivity.
Qed.
End Trace.

End PipelineFacts.

Module HandlerFacts.
Import AudioRecorder RecorderFacts GeminiService TranslateFacts.

Lemma run_trace {S A} (t : trace) (s : S) (r : outcome A) :
  trace_of (t, s, r) = t.
Proof. reflexivity. Qed.

Lemma run_state {S A} (t : trace) (s : S) (r : outcome A) :
  state_of (t, s, r) = s.
Proof. reflexivity. Qed.

Section Facts.
Context {sample : Type} `{Audio sample}.
Implicit Types (app : App sample) (w : world).

(** [translate] leaves the service as it is. *)
Lemma translate_state (audio : list sample) (rate : Z) (config : Config) w
    (self : GeminiService.t) :
  state_of (translate audio rate config w self) = self.
Proof.
  destruct (model self) as [name|] eqn:Hmodel.
  - destruct (@translate_returns _ _ audio rate config w self name Hmodel)
      as (events & result & ->). reflexivity.
  - now rewrite translate_without_model.
Qed.

Lemma translate_returned (audio : list sample) (rate : Z) (config : Config) w
    (self : GeminiService.t) :
  exists result,
    result_of (translate audio rate config w self) = Returned result.
Proof.
  destruct (model self) as [name|] eqn:Hmodel.
  - destruct (@translate_returns _ _ audio rate config w self name Hmodel)
      as (events & result & ->). now exists result.
  - rewrite translate_without_model by assumption. eexists. reflexivity.
Qed.

Lemma with_gemini_same app : with_gemini (gemini app) app = app.
Proof. now destruct app. Qed.

Lemma action_start_not_stop :
  action_is (Some (JString (str "stop"))) (str "start") = false.
Proof. reflexivity. Qed.

(** The [stop] branch. *)
Lemma handle_record_stop w app items :
  dict_get (str "action") items = Some (JString (str "stop")) ->
  let audio := List.concat (audio_data (recorder app)) in
  let stopped := with_recorder (state_of (stop w (recorder app))) app in
  let translated := translate audio 16000 (config app) w (gemini app) in
  handle_record (JObject items) w app =
    if Nat.eqb (List.length audio) 0
    then (trace_of (stop w (recorder app)), stopped,
          Returned (Some (error_result (str "No audio captured"))))
    else (trace_of (stop w (recorder app)) ++ trace_of translated, stopped,
          match result_of translated with
          | Returned v => Returned (Some v)
          | Raised e => Raised e
          end).
Proof.
  intros Ha audio stopped translated. unfold handle_record.
  unfold bind at 1. unfold ret at 1. rewrite Ha.
  rewrite action_start_not_stop.
  change (action_is (Some (JString (str "stop"))) (str "stop")) with true.
  cbv iota. unfold bind at 1. unfold zoom at 1. rewrite stop_run.
  fold audio. unfold stopped, trace_of, state_of. rewrite stop_run.
  cbn [fst snd List.app].
  destruct (Nat.eqb (List.length audio) 0).
  - unfold ret. now rewrite app_nil_r.
  - unfold bind at 1, get. unfold bind at 1. unfold zoom.
    cbn [gemini recorder config with_recorder].
    pose proof (translate_state audio 16000 (config app) w (gemini app)) as Hs.
    fold translated in Hs |- *.
    destruct translated as [[t g] res]. unfold state_of in Hs.
    cbn [fst snd] in Hs. subst g. unfold result_of. cbn [fst snd].
    destruct res as [v|e]; unfold ret, with_gemini, with_recorder;
      cbn [gemini recorder config List.app]; rewrite ?app_nil_r; reflexivity.
Qed.
Lemma zoom_deliver w app (frames : list (frame sample)) :
  zoom recorder with_recorder (deliver frames) w app =
    ([], with_recorder (state_of (deliver frames w (recorder app))) app,
     Returned tt).
Proof.
  unfold zoom, state_of.
  destruct (recording (recorder app)) eqn:Hrec.
  - now rewrite deliver_recording.
  - now rewrite deliver_idle.
Qed.
End Facts.
End HandlerFacts.

Module SessionFacts.
Import AudioRecorder RecorderFacts GeminiService Rendering TranslateFacts
  PipelineFacts HandlerFacts.

Section Facts.
Context {sample : Type} `{Audio sample}.
Implicit Types (app : App sample) (w : world).

(** What [translate] does outside: it writes the audio it was given, at
    the rate it was given, and touches no stream. *)
Lemma translate_events (audio : list sample) (rate : Z) (config : Config) w
    (self : GeminiService.t) (ev : event) :
  In ev (trace_of (translate audio rate config w self)) ->
  match ev with
  | WavWrite filename rate' data =>
      filename = temp_audio /\ rate' = rate /\ data = map to_int16 audio
  | StreamOpen _ _ | StreamStart | StreamStop | StreamClose => False
  | _ => True
  end.
Proof.
  destruct (model self) as [name|] eqn:Hmodel.
  2:{ now rewrite translate_without_model. }
  rewrite (@translate_trace _ _ audio rate config w self name Hmodel).
  assert (Hprint : forall m, In ev [Print m] -> ev = Print m)
    by (intros m [<-|[]]; reflexivity).
  assert (Htail : forall response,
            In ev (cleanup_trace w (UploadedFile temp_audio)
                   ++ match text response with
                      | Some reply =>
                          match loads (clean reply) with
                          | Some _ => []
                          | None => [Print (TranslationError JSONDecodeError)]
                          end
                      | None => [Print (TranslationError ValueError)]
                      end) ->
            is_cleanup ev = true \/ exists m, ev = Print m).
  { intros response. unfold cleanup_trace.
    destruct (file_delete_ok w);
      (destruct (text response) as [reply|];
       [destruct (loads (clean reply))|]);
      cbn [In List.app]; intuition (subst; eauto). }
  intros [<-|Hin]; [auto|].
  destruct (wav_write_ok w); [|apply Hprint in Hin; now subst].
  destruct Hin as [<-|Hin]; [exact I|].
  destruct (upload_file_ok w); [|apply Hprint in Hin; now subst].
  destruct (render_entries (get_default (dictionary config) []));
    [|apply Hprint in Hin; now subst].
  destruct Hin as [<-|Hin]; [exact I|].
  destruct (generate_content w) as [response|];
    [|apply Hprint in Hin; now subst].
  destruct (Htail _ Hin) as [Hc|[m ->]]; [|exact I].
  now destruct ev.
Qed.
End Facts.
End SessionFacts.

Module CleanFacts.
Import GeminiService Rendering FenceFacts.
Local Open Scope N_scope.

(** The scan of [replace] behind a match resumes past the match. *)
Lemma replace_from_skip (old new : pystr) (k : nat) (s : pystr) :
  replace_from old new k s = replace_from old new 0 (skipn k s).
Proof.
  revert s. induction k as [|k IH]; intros s; [reflexivity|].
  destruct s as [|c s]; [reflexivity|]. cbn [replace_from skipn]. apply IH.
Qed.

(** Removing the fences: behind a fence the scan goes on, elsewhere the
    code point is kept. *)
Lemma remove_fence_step (c : char) (s : pystr) :
  replace_from fence [] 0 (c :: s) =
    if startswith (c :: s) fence
    then replace_from fence [] 0 (skipn 2 s)
    else c :: replace_from fence [] 0 s.
Proof.
  cbn [replace_from]. destruct (startswith (c :: s) fence); [|reflexivity].
  cbn [app]. apply (replace_from_skip fence [] 2 s).
Qed.

Lemma startswith_fence (s : pystr) :
  startswith s fence = true -> exists rest, s = tick :: tick :: tick :: rest.
Proof.
  intros E. apply LexFacts.startswith_app in E. exists (skipn 3 s). exact E.
Qed.

(** What the text without its fences begins with, the text began
    with. *)
Lemma remove_fence_head :
  forall n s, (List.length s <= n)%nat ->
    (startswith (replace_from fence [] 0 s) [tick] = true ->
     startswith s [tick] = true)
    /\ (startswith (replace_from fence [] 0 s) [tick; tick] = true ->
        startswith s [tick; tick] = true).
Proof.
  induction n as [|n IH]; intros s Hlen.
  - destruct s; [split; discriminate|simpl in Hlen; lia].
  - destruct s as [|c s]; [split; discriminate|]. simpl in Hlen.
    rewrite remove_fence_step.
    destruct (startswith (c :: s) fence) eqn:Ef.
    + destruct (startswith_fence _ Ef) as [rest E]. rewrite E.
      split; reflexivity.
    + destruct (IH s ltac:(lia)) as [H1 H2]. cbn [startswith]. split.
      * intros E. apply andb_true_iff in E as [E _]. now rewrite E.
      * intros E. apply andb_true_iff in E as [Ec E]. rewrite Ec.
        cbn [andb]. apply H1. destruct (replace_from fence [] 0 s) as [|d r];
          [discriminate|]. cbn [startswith] in *.
        apply andb_true_iff in E as [-> _]. reflexivity.
Qed.

(** The text without its fences holds no fence. *)
Lemma remove_fence_clean :
  forall n s, (List.length s <= n)%nat ->
    contains (replace_from fence [] 0 s) fence = false.
Proof.
  induction n as [|n IH]; intros s Hlen.
  - destruct s; [reflexivity|simpl in Hlen; lia].
  - destruct s as [|c s]; [reflexivity|]. simpl in Hlen.
    rewrite remove_fence_step.
    destruct (startswith (c :: s) fence) eqn:Ef.
    + apply IH. rewrite length_skipn. lia.
    + apply contains_cons_false. split; [|apply IH; lia].
      destruct (startswith (c :: replace_from fence [] 0 s) fence) eqn:E;
        [|reflexivity].
      destruct (remove_fence_head (n := n) s ltac:(lia)) as [_ H2].
      destruct (startswith_fence _ E) as [rest Er].
      injection Er as -> Er. rewrite Er in H2.
      specialize (H2 eq_refl). apply LexFacts.startswith_app in H2.
      rewrite H2 in Ef. discriminate Ef.
Qed.

Lemma lstrip_suffix (s : pystr) : exists a, s = a ++ lstrip s.
Proof.
  induction s as [|c s [a IH]]; [now exists []|]. cbn [lstrip].
  destruct (isspace c); [|now exists []].
  exists (c :: a). cbn [app]. now f_equal.
Qed.

Lemma rstrip_prefix (s : pystr) : exists b, s = rstrip s ++ b.
Proof.
  unfold rstrip. destruct (lstrip_suffix (rev s)) as [a E].
  exists (rev a). rewrite <- rev_app_distr, <- E. now rewrite rev_involutive.
Qed.

(** Stripping keeps a text free of what it was free of. *)
Lemma strip_contains (s sub : pystr) :
  contains s sub = false -> contains (strip s) sub = false.
Proof.
  intros E. unfold strip. destruct (lstrip_suffix s) as [a Ea].
  rewrite Ea in E. apply contains_behind in E.
  destruct (rstrip_prefix (lstrip s)) as [b Eb]. rewrite Eb in E.
  now apply contains_before in E.
Qed.

End CleanFacts.

Module TemplateFacts.
Import GeminiService Rendering TranslateFacts PromptFacts PipelineFacts.

Lemma join_free (c : char) (sep : pystr) (items : list pystr) :
  ~ In c sep -> Forall (fun x => ~ In c x) items -> ~ In c (join sep items).
Proof.
  intros Hsep Hall. induction items as [|x [|y l] IH]; [auto| |].
  - now apply Forall_inv in Hall.
  - inversion Hall as [|? ? Hx Hrest]; subst.
    change (join sep (x :: y :: l)) with (x ++ sep ++ join sep (y :: l)).
    rewrite !in_app_iff. intuition.
Qed.

Lemma indent_free : ~ In line_feed indent.
Proof.
  unfold indent, line_feed. cbn [str map list_ascii_of_string In chr].
  intuition discriminate.
Qed.

(** One line of the template is one line of the prompt. *)
Lemma split_template_line (content rest : pystr) :
  ~ In line_feed content ->
  split line_feed (template_line content ++ rest)
  = (indent ++ content) :: split line_feed rest.
Proof.
  intros Hc. unfold template_line, nl. rewrite <- !app_assoc.
  rewrite app_assoc. apply split_line. rewrite in_app_iff.
  pose proof indent_free. tauto.
Qed.

Lemma literal_free (s : string) :
  forallb (fun c => negb (N.eqb c line_feed)) (str s) = true ->
  ~ In line_feed (str s).
Proof.
  intros E Hin. rewrite forallb_forall in E. apply E in Hin.
  now rewrite N.eqb_refl in Hin.
Qed.

Section Call.
Context {sample : Type} `{Audio sample}.

(** The prompt of a model call. *)
Lemma model_call_prompt (audio : list sample) (rate : Z) (config : Config)
    (w : world) (self : GeminiService.t) (m sent : pystr) (f : File) :
  In (GenerateContent m sent f) (trace_of (translate audio rate config w self)) ->
  exists lines,
    render_entries (get_default (dictionary config) []) = Returned lines
    /\ sent = prompt config (join nl lines) (forbidden_str config).
Proof.
  destruct (model self) as [name|] eqn:Hmodel.
  2:{ now rewrite translate_without_model. }
  rewrite (@translate_trace _ _ audio rate config w self name Hmodel).
  intros [F|Hin]; [discriminate|].
  destruct (wav_write_ok w); [|destruct Hin as [F|[]]; discriminate].
  destruct Hin as [F|Hin]; [discriminate|].
  destruct (upload_file_ok w); [|destruct Hin as [F|[]]; discriminate].
  destruct (render_entries (get_default (dictionary config) []))
    as [lines|e]; [|destruct Hin as [F|[]]; discriminate].
  exists lines. split; [reflexivity|].
  destruct Hin as [F|Hin]; [now injection F|]. exfalso.
  destruct (generate_content w) as [response|];
    [|destruct Hin as [F|[]]; discriminate].
  unfold cleanup_trace in Hin.
  destruct (file_delete_ok w);
    (destruct (text response) as [reply|];
     [destruct (loads (clean reply))|]);
    cbn [In List.app] in Hin; intuition discriminate.
Qed.
End Call.

End TemplateFacts.

(* ================================================================== *)
(** * Properties of the configuration file and of [/api/config] *)
(* ================================================================== *)

Section SettingsProperties.
Context `{Float}.
Import ConfigManager Settings DictFacts SettingsFacts EncoderFacts RouteFacts.

(** X1.  [ConfigManager.load] always returns a dict that begins with
    the four keys of the defaults, in their order: [dictionary], [tone],
    [context], [forbiddenWords]; the keys the file adds come behind, and
    a lookup of each of the four finds a value. *)
Theorem load_has_the_default_keys (d : disk) :
  exists items extra,
    load d = JObject items
    /\ map fst items
       = [str "dictionary"; str "tone"; str "context"; str "forbiddenWords"]
         ++ extra
    /\ forall k,
         In k [str "dictionary"; str "tone"; str "context";
               str "forbiddenWords"] ->
         dict_get k items <> None.
Proof.
  destruct (load_keys d) as (items & extra & E & Hkeys & _).
  exists items, extra. repeat split; [assumption|assumption|].
  intros k Hk. apply dict_get_present. rewrite Hkeys.
  apply in_or_app. now left.
Qed.

(** X2.  When the file holds a JSON object, [load] returns at every
    key the value the file gives it, and at a key the file lacks the
    default. *)
Theorem load_overrides_the_defaults (d : disk) (content : pystr)
    (items : list (pystr * json)) (k : pystr) :
  config_file d = Text content -> loads content = Some (JObject items) ->
  exists merged,
    load d = JObject merged
    /\ dict_get k merged
       = match dict_get k items with
         | Some v => Some v
         | None => dict_get k defaults
         end.
Proof.
  intros Hfile Hloads. exists (merge defaults items). unfold load.
  rewrite Hfile, Hloads. split; [reflexivity|].
  rewrite dict_get_merge, dict_get_rev; [reflexivity|].
  exact (loads_object_keys _ Hloads).
Qed.

(** X3.  When the file is missing, cannot be read, is no JSON, or is
    JSON but no object, [load] returns the defaults: the exception is
    discarded. *)
Theorem load_falls_back_to_the_defaults (d : disk) :
  (forall content items,
     config_file d = Text content -> loads content <> Some (JObject items)) ->
  load d = default_config.
Proof.
  intros Hno. unfold load. destruct (config_file d) as [| |content];
    try reflexivity.
  destruct (loads content) as [[| | | | | |items]|] eqn:E; try reflexivity.
  now destruct (Hno content items eq_refl).
Qed.

(** X4.  A plain dict saved by [ConfigManager.save] is loaded back by
    [ConfigManager.load] as the defaults updated with its items. *)
Theorem saved_config_is_loaded_back (w : world) (d : disk)
    (items : list (pystr * json)) :
  writable d = true -> plain (JObject items) = true ->
  let r := save (JObject items) w d in
  result_of r = Returned tt
  /\ load (state_of r) = JObject (merge defaults items).
Proof.
  intros Hw Hplain r. subst r. rewrite save_run, Hw.
  unfold result_of, state_of. cbn [fst snd]. split; [reflexivity|].
  now rewrite load_written.
Qed.

(** X5.  The file [ConfigManager.save] writes for a configuration
    without a float holds printable ASCII and line feeds only. *)
Theorem saved_file_is_ascii (w : world) (d : disk) (config : json) :
  writable d = true -> float_free config = true ->
  exists content,
    config_file (state_of (save config w d)) = Text content
    /\ forallb is_ascii_text content = true.
Proof.
  intros Hw Hfree. exists (dump config). rewrite save_run, Hw.
  split; [reflexivity|]. now apply iterencode_ascii.
Qed.

(** X6.  Saving what [load] returned and loading again gives the same
    configuration. *)
Theorem load_is_stable_under_save (w : world) (d : disk) :
  writable d = true -> plain (load d) = true ->
  load (state_of (save (load d) w d)) = load d.
Proof.
  intros Hw Hplain.
  destruct (load_keys d) as (items & extra & E & Hkeys & Hnd).
  rewrite save_run, Hw. unfold state_of. cbn [fst snd].
  rewrite load_written by assumption. rewrite E. f_equal.
  now apply merge_absorbs with (extra := extra).
Qed.

(** X7.  After a [POST], a [GET] (any other method) answers the posted
    document as it was posted, whether or not it could be saved: it is
    neither merged with the defaults nor checked. *)
Theorem posted_config_is_served (w w' : world) (s : state)
    (posted body : json) (method : pystr) :
  method <> str "POST" ->
  result_of (handle_config method body w'
               (state_of (handle_config (str "POST") posted w s)))
  = Returned posted.
Proof.
  intros Hm. rewrite handle_config_post.
  destruct (writable (files s)); unfold state_of; cbn [fst snd];
    now rewrite handle_config_get.
Qed.

(** X8.  When the file cannot be opened for writing, the [POST] raises; the
    module-level [config] is already the posted document, while the disk
    is as before, so the next start of the server loads the old file. *)
Theorem failed_save_keeps_the_posted_config (w : world) (s : state)
    (posted : json) :
  writable (files s) = false ->
  let r := handle_config (str "POST") posted w s in
  result_of r = Raised OSError
  /\ config (state_of r) = posted
  /\ files (state_of r) = files s
  /\ startup (files (state_of r)) = startup (files s).
Proof.
  intros Hw r. subst r. rewrite handle_config_post, Hw. repeat split.
Qed.

(** X9.  A posted document that is plain JSON but no object is
    accepted, saved and served; the next start of the server reads the
    file, finds no dict, and falls back to the defaults. *)
Theorem posted_non_object_is_lost_at_restart (w : world) (s : state)
    (posted : json) :
  writable (files s) = true -> plain posted = true ->
  (forall items, posted <> JObject items) ->
  let r := handle_config (str "POST") posted w s in
  result_of r = Returned saved
  /\ config (state_of r) = posted
  /\ config (startup (files (state_of r))) = default_config.
Proof.
  intros Hw Hplain Hno r. subst r. rewrite handle_config_post, Hw.
  unfold result_of, state_of, startup. cbn [fst snd config files].
  repeat split. rewrite load_written by assumption.
  destruct posted; try reflexivity. now destruct (Hno items).
Qed.

(** X10.  A posted plain object is saved, and the next start of the
    server loads it merged into the defaults: a key it lacks, absent
    from the running server's [config], is there after the restart. *)
Theorem posted_object_gains_defaults_at_restart (w : world) (s : state)
    (items : list (pystr * json)) (k : pystr) :
  writable (files s) = true -> plain (JObject items) = true ->
  let r := handle_config (str "POST") (JObject items) w s in
  result_of r = Returned saved
  /\ config (state_of r) = JObject items
  /\ exists merged,
       config (startup (files (state_of r))) = JObject merged
       /\ dict_get k merged
          = match dict_get k items with
            | Some v => Some v
            | None => dict_get k defaults
            end.
Proof.
  intros Hw Hplain r. subst r. rewrite handle_config_post, Hw.
  unfold result_of, state_of, startup. cbn [fst snd config files].
  repeat split. exists (merge defaults items).
  rewrite load_written by assumption. split; [reflexivity|].
  rewrite dict_get_merge, dict_get_rev; [reflexivity|].
  cbn [plain] in Hplain. apply andb_true_iff in Hplain as [Hkeys _].
  now apply distinct_NoDup.
Qed.
End SettingsProperties.

Module SettingsExamples.
Import Examples Samples ConfigManager Settings.

(** X2 on a file that sets the tone: the tone of the file is loaded. *)
Lemma load_overrides_the_defaults_witness :
  exists merged,
    load tuned = JObject merged
    /\ dict_get (str "tone") merged = Some (JString (str "Formal")).
Proof.
  exact (@load_overrides_the_defaults tuned tuned_text tuned_items (str "tone")
           eq_refl eq_refl).
Defined.

(** X3 on a file that holds a list. *)
Lemma load_falls_back_to_the_defaults_witness :
  load list_on_disk = default_config.
Proof.
  apply (@load_falls_back_to_the_defaults list_on_disk).
  intros content items E. injection E as <-. discriminate.
Defined.

(** X4 on a posted configuration with two keys, and no file yet. *)
Lemma saved_config_is_loaded_back_witness :
  let r := save (JObject formal) calm no_file in
  result_of r = Returned tt
  /\ load (state_of r) = JObject (merge defaults formal).
Proof.
  exact (@saved_config_is_loaded_back written_as_read calm no_file formal
           eq_refl eq_refl).
Defined.

(** X5 on the same configuration. *)
Lemma saved_file_is_ascii_witness :
  exists content,
    config_file (state_of (save (JObject formal) calm no_file)) = Text content
    /\ forallb is_ascii_text content = true.
Proof.
  exact (@saved_file_is_ascii written_as_read calm no_file (JObject formal)
           eq_refl eq_refl).
Defined.

(** X6 on the file that sets the tone and a key of its own. *)
Lemma load_is_stable_under_save_witness :
  load (state_of (save (load tuned) calm tuned)) = load tuned.
Proof.
  exact (@load_is_stable_under_save written_as_read calm tuned eq_refl eq_refl).
Defined.

(** X7 on a server started without a file. *)
Lemma posted_config_is_served_witness :
  result_of (handle_config (str "GET") JNull calm
               (state_of (handle_config (str "POST") (JObject formal) calm
                            (startup no_file))))
  = Returned (JObject formal).
Proof.
  apply (@posted_config_is_served written_as_read calm calm (startup no_file)
           (JObject formal) JNull (str "GET")).
  discriminate.
Defined.

(** X8 on the disk whose file cannot be opened for writing. *)
Lemma failed_save_keeps_the_posted_config_witness :
  let r := handle_config (str "POST") (JObject formal) calm (startup read_only) in
  result_of r = Raised OSError
  /\ config (state_of r) = JObject formal
  /\ files (state_of r) = read_only
  /\ startup (files (state_of r)) = startup read_only.
Proof.
  exact (@failed_save_keeps_the_posted_config written_as_read calm
           (startup read_only) (JObject formal) eq_refl).
Defined.

(** X9 on a posted list. *)
Lemma posted_non_object_is_lost_at_restart_witness :
  let r := handle_config (str "POST") (JArray [JInt 1]) calm (startup no_file) in
  result_of r = Returned saved
  /\ config (state_of r) = JArray [JInt 1]
  /\ config (startup (files (state_of r))) = default_config.
Proof.
  apply (@posted_non_object_is_lost_at_restart written_as_read calm
           (startup no_file) (JArray [JInt 1]) eq_refl eq_refl).
  intros items. discriminate.
Defined.

(** X10 on the posted configuration with two keys, at the key
    [context]: absent while the server runs, the default after the
    restart. *)
Lemma posted_object_gains_defaults_at_restart_witness :
  let r := handle_config (str "POST") (JObject formal) calm (startup no_file) in
  result_of r = Returned saved
  /\ config (state_of r) = JObject formal
  /\ exists merged,
       config (startup (files (state_of r))) = JObject merged
       /\ dict_get (str "context") merged = Some (JString []).
Proof.
  exact (@posted_object_gains_defaults_at_restart written_as_read calm
           (startup no_file) formal (str "context") eq_refl eq_refl).
Defined.

End SettingsExamples.

(* ================================================================== *)
(** * Properties of the translation client *)
(* ================================================================== *)

Section ClientProperties.
Context {sample : Type} `{Audio sample}.
Import GeminiService Rendering TranslateFacts PromptFacts PipelineFacts.
Implicit Types (w : world) (self : GeminiService.t) (config : Config).

(** X11.  The key handed to [genai.configure] is the value of
    [VITE_GEMINI_API_KEY] when that is set and not empty, else the value
    of [GEMINI_API_KEY] when that is set and not empty; with neither,
    the service is built without a model and without a call. *)
Theorem api_key_precedence (getenv : pystr -> option pystr) w :
  let r := GeminiService.__init__ (API_KEY getenv) w tt in
  match getenv (str "VITE_GEMINI_API_KEY"), getenv (str "GEMINI_API_KEY") with
  | Some (c :: key), _
  | Some [], Some (c :: key)
  | None, Some (c :: key) =>
      hd_error (trace_of r) = Some (GenaiConfigure (c :: key))
  | _, _ => r = ([], tt, Returned {| model := None |})
  end.
Proof.
  unfold API_KEY, or_else.
  destruct (getenv (str "VITE_GEMINI_API_KEY")) as [[|c key]|];
    destruct (getenv (str "GEMINI_API_KEY")) as [[|c' key']|];
    cbv zeta; try reflexivity;
    unfold __init__, try_except, bind, call, trace_of;
    destruct (genai_configure_ok w); reflexivity.
Qed.

(** X12.  When [genai.configure] raises, the error is printed, the
    service is left without a model, and [translate] then answers
    "API Key Missing" without a call to the outside, although a key was
    given. *)
Theorem failed_configure_reads_as_missing_key (key : pystr) w0 w
    (audio_data : list sample) (sample_rate : Z) config :
  key <> [] -> genai_configure_ok w0 = false ->
  exists service,
    GeminiService.__init__ (Some key) w0 tt
    = ([GenaiConfigure key; Print (GeminiConfigError APIError)], tt,
       Returned service)
    /\ translate audio_data sample_rate config w service
       = ([], service, Returned (error_result (str "API Key Missing"))).
Proof.
  intros Hkey Hfail. exists {| model := None |}.
  destruct key as [|c key]; [contradiction|]. split; [|reflexivity].
  unfold __init__, try_except, bind, call, print, emit, ret.
  now rewrite Hfail.
Qed.

(** X13.  [translate] attempts the cleanup exactly when the model call
    returned: it deletes the uploaded file if and only if the audio was
    written and uploaded, every entry of the dictionary has both keys
    and [generate_content] returned; it removes the local file if and
    only if, besides, the deletion of the uploaded file returned. *)
Theorem cleanup_only_after_the_model_replied (audio_data : list sample)
    (sample_rate : Z) config w self :
  let events := trace_of (translate audio_data sample_rate config w self) in
  let replied :=
    model self <> None /\ wav_write_ok w = true /\ upload_file_ok w = true
    /\ Forall complete (get_default (dictionary config) [])
    /\ generate_content w <> None in
  (In (FileDelete (UploadedFile temp_audio)) events <-> replied)
  /\ (In (OsRemove temp_audio) events <-> replied /\ file_delete_ok w = true).
Proof.
  cbv zeta. destruct (model self) as [name|] eqn:Hmodel.
  2:{ rewrite translate_without_model by assumption.
      unfold trace_of. cbn [fst In]. intuition congruence. }
  rewrite (@translate_trace _ _ audio_data sample_rate config w self name Hmodel).
  destruct (wav_write_ok w).
  2:{ cbn [In]. intuition congruence. }
  destruct (upload_file_ok w).
  2:{ cbn [In]. intuition congruence. }
  destruct (render_entries (get_default (dictionary config) []))
    as [lines|e] eqn:Hlines.
  2:{ assert (~ Forall complete (get_default (dictionary config) [])).
      { intros Hall. destruct (render_entries_complete Hall) as [ls E].
        congruence. }
      cbn [In]. intuition congruence. }
  apply render_entries_returns in Hlines.
  destruct (generate_content w) as [response|].
  2:{ cbn [In]. intuition congruence. }
  assert (Hrest : forall ev,
            is_cleanup ev = true ->
            ~ In ev match text response with
                    | Some reply =>
                        match loads (clean reply) with
                        | Some _ => []
                        | None => [Print (TranslationError JSONDecodeError)]
                        end
                    | None => [Print (TranslationError ValueError)]
                    end).
  { intros ev Hev. destruct (text response) as [reply|];
      [destruct (loads (clean reply))|]; cbn [In];
      intuition (subst; discriminate). }
  pose proof (Hrest (FileDelete (UploadedFile temp_audio)) eq_refl) as H1.
  pose proof (Hrest (OsRemove temp_audio) eq_refl) as H2.
  unfold cleanup_trace. destruct (file_delete_ok w); cbn [In app];
    rewrite ?in_app_iff; cbn [In]; split; split;
    intuition (try discriminate; try congruence).
Qed.

(** X14.  When an entry of the dictionary lacks [balti] or [english],
    [translate] has written and uploaded the audio, prints the
    [KeyError], and answers "Translation Failed": the model is not
    called and nothing is cleaned up. *)
Theorem incomplete_entry_fails_the_translation (audio_data : list sample)
    (sample_rate : Z) config w self (model_name : pystr) :
  model self = Some model_name ->
  wav_write_ok w = true -> upload_file_ok w = true ->
  ~ Forall complete (get_default (dictionary config) []) ->
  exists key,
    (key = str "balti" \/ key = str "english")
    /\ translate audio_data sample_rate config w self
       = ([WavWrite temp_audio sample_rate (map to_int16 audio_data);
           UploadFile temp_audio;
           Print (TranslationError (KeyError key))],
          self, Returned failed).
Proof.
  intros Hmodel Hwav Hup Hnot.
  destruct (render_entries_incomplete Hnot) as (key & Hkey & Hcases).
  exists key. split; [assumption|].
  unfold translate. unfold bind at 1, get. rewrite Hmodel.
  unfold try_except at 1. unfold bind at 1. unfold call at 1.
  rewrite Hwav. cbn [ok_unit]. unfold bind at 1. unfold call at 1.
  rewrite Hup. unfold bind at 1. rewrite dict_str_run, Hkey. reflexivity.
Qed.

(** X15.  In every run of [translate] the audio is uploaded only if
    [wav.write] returned, the model is called only if the upload
    returned too, with the uploaded file and the model of the service,
    and at most once. *)
Theorem staging_precedes_the_model_call (audio_data : list sample)
    (sample_rate : Z) config w self :
  let events := trace_of (translate audio_data sample_rate config w self) in
  (forall path, In (UploadFile path) events -> wav_write_ok w = true)
  /\ (forall m sent f, In (GenerateContent m sent f) events ->
        wav_write_ok w = true /\ upload_file_ok w = true
        /\ model self = Some m /\ f = UploadedFile temp_audio)
  /\ (List.length (filter is_model_call events) <= 1)%nat.
Proof.
  cbv zeta. destruct (model self) as [name|] eqn:Hmodel.
  2:{ rewrite translate_without_model by assumption.
      unfold trace_of. cbn [fst In filter List.length].
      intuition. }
  rewrite (@translate_trace _ _ audio_data sample_rate config w self name Hmodel).
  assert (Htail : forall response,
            let tail :=
              cleanup_trace w (UploadedFile temp_audio)
              ++ match text response with
                 | Some reply =>
                     match loads (clean reply) with
                     | Some _ => []
                     | None => [Print (TranslationError JSONDecodeError)]
                     end
                 | None => [Print (TranslationError ValueError)]
                 end in
            filter is_model_call tail = []
            /\ forall m sent f, ~ In (GenerateContent m sent f) tail).
  { intros response. cbv zeta. unfold cleanup_trace.
    destruct (file_delete_ok w);
      (destruct (text response) as [reply|];
       [destruct (loads (clean reply))|]);
      (split; [reflexivity|]); intros m sent f; cbn [In app];
      intuition discriminate. }
  destruct (wav_write_ok w).
  2:{ cbn [In filter is_model_call List.length].
      split; [|split]; [intros ? Hin|intros ? ? ? Hin|lia];
        intuition discriminate. }
  destruct (upload_file_ok w).
  2:{ cbn [In filter is_model_call List.length].
      split; [|split]; [intros ? Hin|intros ? ? ? Hin|lia];
        intuition discriminate. }
  destruct (render_entries (get_default (dictionary config) []))
    as [lines|e].
  2:{ cbn [In filter is_model_call List.length].
      split; [|split]; [intros ? Hin|intros ? ? ? Hin|lia];
        intuition discriminate. }
  destruct (generate_content w) as [response|].
  2:{ cbn [In filter is_model_call List.length].
      split; [|split]; [reflexivity|intros m sent f Hin|lia].
      destruct Hin as [F|[F|[F|[F|[]]]]]; try discriminate.
      now injection F as <- _ <-. }
  destruct (Htail response) as [Hnone Hno].
  cbn [In filter is_model_call]. rewrite Hnone. cbn [List.length].
  split; [|split]; [reflexivity|intros m sent f Hin|lia].
  destruct Hin as [F|[F|[F|F]]]; try discriminate.
  - now injection F as <- _ <-.
  - now apply Hno in F.
Qed.
End ClientProperties.

Section ReplyProperties.
Import GeminiService Rendering CleanFacts.

(** X22.  The text [translate] hands to [json.loads] never holds three
    backquotes in a row, whatever the model replied. *)
Theorem cleaned_reply_holds_no_fence (response_text : pystr) :
  contains (clean response_text) fence = false.
Proof.
  unfold clean. apply strip_contains.
  exact (@remove_fence_clean _ (replace response_text json_fence [])
           (le_n _)).
Qed.
End ReplyProperties.

Section PromptProperties.
Context {sample : Type} `{Audio sample}.
Import GeminiService Rendering TranslateFacts PromptFacts TemplateFacts.

(** X23.  In every prompt sent to the model, the fifth, sixth and
    seventh lines carry the context, the tone and the blocked words
    joined by a comma and a space; a configuration without [context],
    [tone] or [forbiddenWords] reads [General], [Casual] and nothing.
    The values hold no line feed. *)
Theorem prompt_configuration_lines (audio_data : list sample)
    (sample_rate : Z) (config : Config) (w : world) (self : GeminiService.t)
    (m sent : pystr) (f : File) :
  let ctx := get_default (context config) (str "General") in
  let tn := get_default (tone config) (str "Casual") in
  let words := get_default (forbiddenWords config) [] in
  ~ In line_feed ctx -> ~ In line_feed tn ->
  Forall (fun word => ~ In line_feed word) words ->
  In (GenerateContent m sent f)
     (trace_of (translate audio_data sample_rate config w self)) ->
  nth_error (split line_feed sent) 4 = Some (indent ++ str "- Context: " ++ ctx)
  /\ nth_error (split line_feed sent) 5 = Some (indent ++ str "- Tone: " ++ tn)
  /\ nth_error (split line_feed sent) 6
     = Some (indent ++ str "- Blocked Words: " ++ join (str ", ") words).
Proof.
  intros ctx tn words Hctx Htn Hwords Hin.
  destruct (@model_call_prompt _ _ _ _ _ _ _ _ _ _ Hin) as (lines & _ & ->).
  unfold prompt. fold ctx tn. unfold forbidden_str. fold words.
  change (nl ++ ?x) with ([] ++ line_feed :: x).
  assert (Hfs : ~ In line_feed (join (str ", ") words)).
  { apply join_free; [|assumption]. now apply literal_free. }
  rewrite split_line by auto.
  rewrite split_template_line by now apply literal_free.
  rewrite split_template_line by auto.
  rewrite split_template_line by now apply literal_free.
  rewrite split_template_line
    by (rewrite in_app_iff; pose proof (@literal_free "- Context: " eq_refl);
        tauto).
  rewrite split_template_line
    by (rewrite in_app_iff; pose proof (@literal_free "- Tone: " eq_refl);
        tauto).
  rewrite split_template_line
    by (rewrite in_app_iff;
        pose proof (@literal_free "- Blocked Words: " eq_refl); tauto).
  repeat split.
Qed.
End PromptProperties.

Module ClientSamples.
Import Examples Samples GeminiService Rendering.

(** X12 on a key that [genai.configure] refuses. *)
Lemma failed_configure_reads_as_missing_key_witness :
  exists service,
    GeminiService.__init__ (Some (str "secret")) configure_fails tt
    = ([GenaiConfigure (str "secret"); Print (GeminiConfigError APIError)], tt,
       Returned service)
    /\ translate [1; 2; 3]%Z 16000 default_config calm service
       = ([], service, Returned (error_result (str "API Key Missing"))).
Proof.
  apply (@failed_configure_reads_as_missing_key Z int_audio (str "secret")
           configure_fails calm [1; 2; 3]%Z 16000 default_config);
    [discriminate|reflexivity].
Defined.

(** X14 on the dictionary whose second entry lacks [english]. *)
Lemma incomplete_entry_fails_the_translation_witness :
  exists key,
    (key = str "balti" \/ key = str "english")
    /\ translate [1; 2; 3]%Z 16000 missing_english calm flash
       = ([WavWrite temp_audio 16000 [1; 2; 3]%Z;
           UploadFile temp_audio;
           Print (TranslationError (KeyError key))],
          flash, Returned failed).
Proof.
  apply (@incomplete_entry_fails_the_translation Z int_audio [1; 2; 3]%Z 16000
           missing_english calm flash
           (str "gemini-2.5-flash-preview-09-2025") eq_refl eq_refl eq_refl).
  intros Hall. apply Forall_inv_tail, Forall_inv in Hall.
  destruct Hall as [_ Hall]. now apply Hall.
Defined.

(** X23 on the configuration of [Examples]: no context, the tone
    [Formal], two blocked words. *)
Lemma prompt_configuration_lines_witness :
  let sent := prompt two_entries
                (str "- chu -> water" ++ nl ++ str "- khi -> dog")
                (forbidden_str two_entries) in
  nth_error (split line_feed sent) 4
  = Some (indent ++ str "- Context: " ++ str "General")
  /\ nth_error (split line_feed sent) 5
     = Some (indent ++ str "- Tone: " ++ str "Formal")
  /\ nth_error (split line_feed sent) 6
     = Some (indent ++ str "- Blocked Words: " ++ str "foo, bar").
Proof.
  apply (@prompt_configuration_lines Z int_audio [1; 2; 3]%Z 16000 two_entries
           calm flash (str "gemini-2.5-flash-preview-09-2025")
           (prompt two_entries
              (str "- chu -> water" ++ nl ++ str "- khi -> dog")
              (forbidden_str two_entries))
           (UploadedFile temp_audio)).
  - cbn. intuition discriminate.
  - cbn. intuition discriminate.
  - repeat constructor; cbn; intuition discriminate.
  - right. right. left. reflexivity.
Defined.

End ClientSamples.

(* ================================================================== *)
(** * Properties of the recording session and of [/api/record] *)
(* ================================================================== *)

Section SessionProperties.
Context {sample : Type}.
Import AudioRecorder RecorderFacts.
Implicit Types (self : AudioRecorder.t sample) (w : world).

(** X16.  [start] never stops or closes a stream: on a session that
    already holds one, it drops the frames buffered so far and, when the
    device opens, puts a new stream object in place of the old, which is
    left open. *)
Theorem start_never_closes_a_stream w self :
  let r := start w self in
  ~ In StreamStop (trace_of r) /\ ~ In StreamClose (trace_of r)
  /\ audio_data (state_of r) = []
  /\ (stream_open_ok w = true ->
      stream (state_of r) = Some (InputStream 1 (sample_rate self)))
  /\ (stream_open_ok w = false -> stream (state_of r) = stream self).
Proof.
  cbv zeta.
  destruct (stream_open_ok w) eqn:Ho; [destruct (stream_start_ok w) eqn:Hs|].
  - rewrite start_opened by assumption. unfold trace_of, state_of.
    cbn [fst snd In audio_data stream]. intuition discriminate.
  - rewrite start_start_raises by assumption. unfold trace_of, state_of.
    cbn [fst snd In audio_data stream]. intuition discriminate.
  - rewrite start_open_raises by assumption. unfold trace_of, state_of.
    cbn [fst snd In audio_data stream]. intuition discriminate.
Qed.

(** X17.  The frames the device delivers after [stop] are dropped: the
    session stays as [stop] left it, and a later [stop] returns what the
    first returned. *)
Theorem frames_after_stop_are_dropped (w1 w2 w3 : world) self
    (late : list (frame sample)) :
  let stopped := state_of (stop w1 self) in
  let later := state_of (deliver late w2 stopped) in
  later = stopped
  /\ result_of (stop w3 later) = result_of (stop w1 self)
  /\ state_of (stop w3 later) = stopped.
Proof.
  cbv zeta. rewrite (stop_run w1 self). unfold state_of, result_of.
  cbn [fst snd]. rewrite deliver_idle by reflexivity. cbn [fst snd].
  rewrite stop_run. cbn [fst snd audio_data stream sample_rate].
  repeat split.
Qed.
End SessionProperties.

Section PipelineProperties.
Context {sample : Type} `{Audio sample}.
Import AudioRecorder RecorderFacts GeminiService Rendering TranslateFacts
  PipelineFacts HandlerFacts SessionFacts.
Implicit Types (app : App sample) (w : world).

(** X18.  A second [stop] request does what the first did: with the
    same answers from the outside it has the same events, the same
    result and leaves the same state, so the audio of the last
    recording is written, uploaded and translated again. *)
Theorem repeated_stop_repeats_the_translation w app items :
  dict_get (str "action") items = Some (JString (str "stop")) ->
  let first := handle_record (JObject items) w app in
  handle_record (JObject items) w (state_of first) = first.
Proof.
  intros Ha first. subst first.
  rewrite (@handle_record_stop _ _ w app _ Ha). cbv zeta.
  set (first := if Nat.eqb _ 0 then _ else _).
  assert (Hstate : state_of first
                   = with_recorder (state_of (stop w (recorder app))) app)
    by (subst first; now destruct (Nat.eqb _ 0)).
  rewrite Hstate, (@handle_record_stop _ _ w _ _ Ha). cbv zeta.
  unfold with_recorder. cbn [recorder gemini config].
  rewrite !stop_run. unfold state_of, trace_of. cbn [fst snd].
  cbn [audio_data stream sample_rate]. subst first.
  rewrite !stop_run. unfold state_of, trace_of, with_recorder.
  cbn [fst snd recorder gemini config]. reflexivity.
Qed.

(** X19.  After a [start] request that opened the stream, the frames
    the device delivers, and a [stop] request, the handler has stopped
    and closed the stream and called [translate] on the frames
    concatenated in order, at 16000 Hz, with the configuration of the
    application; it answers what [translate] returns, and with a model
    configured the samples written to the audio file are those
    recorded. *)
Theorem recorded_audio_reaches_the_model w app
    (start_request stop_request : list (pystr * json))
    (frames : list (frame sample)) :
  dict_get (str "action") start_request = Some (JString (str "start")) ->
  dict_get (str "action") stop_request = Some (JString (str "stop")) ->
  stream_open_ok w = true -> stream_start_ok w = true ->
  List.concat frames <> [] ->
  let app1 := state_of (handle_record (JObject start_request) w app) in
  let app2 := state_of (zoom recorder with_recorder (deliver frames) w app1) in
  let r := handle_record (JObject stop_request) w app2 in
  let translated :=
    translate (List.concat frames) 16000 (config app) w (gemini app) in
  trace_of r
  = [StreamStop; StreamClose; Print RecordingStopped] ++ trace_of translated
  /\ (exists v, result_of translated = Returned v
                /\ result_of r = Returned (Some v))
  /\ (model (gemini app) <> None ->
      In (WavWrite temp_audio 16000 (map to_int16 (List.concat frames)))
         (trace_of r)).
Proof.
  intros Hstart Hstop Ho Hs Hne app1 app2 r translated.
  assert (E1 : app1 = with_recorder
                        {| recording := true; audio_data := [];
                           stream := Some (InputStream 1
                                             (sample_rate (recorder app)));
                           sample_rate := sample_rate (recorder app) |} app).
  { subst app1. rewrite handle_record_start by assumption.
    now rewrite start_opened. }
  assert (E2 : app2 = with_recorder
                        {| recording := true; audio_data := frames;
                           stream := Some (InputStream 1
                                             (sample_rate (recorder app)));
                           sample_rate := sample_rate (recorder app) |} app).
  { subst app2. rewrite zoom_deliver, E1. unfold with_recorder.
    cbn [recorder gemini config]. now rewrite deliver_recording. }
  subst r. rewrite (@handle_record_stop _ _ w app2 _ Hstop). cbv zeta.
  rewrite E2. unfold with_recorder. cbn [recorder gemini config audio_data].
  rewrite stop_run. unfold trace_of at 1 2. cbn [fst stream].
  fold translated.
  destruct (Nat.eqb (List.length (List.concat frames)) 0) eqn:Hlen.
  { apply Nat.eqb_eq, length_zero_iff_nil in Hlen. contradiction. }
  unfold trace_of at 1, result_of at 2. cbn [fst snd].
  split; [reflexivity|]. split.
  - destruct (translate_returned (List.concat frames) 16000 (config app) w
                (gemini app)) as [v Hv].
    fold translated in Hv. exists v. now rewrite Hv.
  - intros Hmodel. apply in_or_app. right.
    destruct (model (gemini app)) as [name|] eqn:Hm; [|contradiction].
    subst translated.
    rewrite (@translate_trace _ _ _ _ _ _ _ name Hm). now left.
Qed.


(** X21.  The handler keeps the sample rate of the session, and with
    the rate 16000 of [AudioRecorder()] the stream is opened, with one
    channel, at the rate written into the audio file. *)
Theorem recording_rate_is_the_rate_written w app (data : json) :
  sample_rate (recorder app) = 16000%Z ->
  let r := handle_record data w app in
  sample_rate (recorder (state_of r)) = 16000%Z
  /\ (forall channels rate, In (StreamOpen channels rate) (trace_of r) ->
        channels = 1%Z /\ rate = 16000%Z)
  /\ (forall filename rate samples,
        In (WavWrite filename rate samples) (trace_of r) -> rate = 16000%Z).
Proof.
  intros Hrate r. subst r.
  destruct data as [| | | | | |items];
    try (unfold handle_record, bind, raise, state_of, trace_of;
         cbn [fst snd In]; now intuition).
  destruct (action_is (dict_get (str "action") items) (str "start")) eqn:Ea.
  { apply action_is_true in Ea. rewrite handle_record_start by assumption.
    unfold state_of at 1, trace_of at 1 2. cbn [fst snd with_recorder recorder].
    destruct (stream_open_ok w) eqn:Ho;
      [destruct (stream_start_ok w) eqn:Hs|];
      [rewrite start_opened by assumption
      |rewrite start_start_raises by assumption
      |rewrite start_open_raises by assumption];
      unfold state_of, trace_of; cbn [fst snd sample_rate In]; rewrite Hrate;
      (split; [reflexivity|]); split; intros ? ? ?;
      intuition (try discriminate);
      match goal with F : StreamOpen _ _ = StreamOpen _ _ |- _ =>
        now injection F end. }
  destruct (action_is (dict_get (str "action") items) (str "stop")) eqn:Eb.
  { apply action_is_true in Eb. rewrite (@handle_record_stop _ _ w app _ Eb).
    cbv zeta.
    assert (Hstop : forall ev, In ev (trace_of (stop w (recorder app))) ->
                      ev = StreamStop \/ ev = StreamClose
                      \/ ev = Print RecordingStopped).
    { intros ev. rewrite stop_run. unfold trace_of. cbn [fst].
      destruct (stream (recorder app)); cbn [In]; intuition. }
    assert (Hstate : sample_rate (state_of (stop w (recorder app))) = 16000%Z)
      by (rewrite stop_run; exact Hrate).
    destruct (Nat.eqb _ 0); rewrite run_state, run_trace;
      cbn [with_recorder recorder];
      (split; [exact Hstate|]);
      (split; [intros ? ? Hin|intros ? ? ? Hin]);
      rewrite ?in_app_iff in Hin;
      repeat match goal with
             | Hin : _ \/ _ |- _ => destruct Hin as [Hin|Hin]
             | Hin : In _ (trace_of (stop _ _)) |- _ =>
                 apply Hstop in Hin; intuition discriminate
             | Hin : In _ (trace_of (translate _ _ _ _ _)) |- _ =>
                 apply translate_events in Hin; now intuition
             end. }
  unfold handle_record. unfold bind, ret. rewrite Ea, Eb.
  unfold state_of, trace_of. cbn [fst snd In]. now intuition.
Qed.
End PipelineProperties.

Module SessionSamples.
Import Examples Samples.

(** X18 on the application whose session recorded three samples. *)
Lemma repeated_stop_repeats_the_translation_witness :
  handle_record (request "stop") calm
    (state_of (handle_record (request "stop") calm recorded_app))
  = handle_record (request "stop") calm recorded_app.
Proof.
  exact (@repeated_stop_repeats_the_translation Z int_audio calm recorded_app
           [(str "action", JString (str "stop"))] eq_refl).
Defined.

(** X19 on a fresh application and two buffers. *)
Lemma recorded_audio_reaches_the_model_witness :
  let app1 := state_of (handle_record (request "start") calm fresh_app) in
  let app2 :=
    state_of (zoom recorder with_recorder
                (AudioRecorder.deliver [[1; 2]; [3]]%Z) calm app1) in
  let r := handle_record (request "stop") calm app2 in
  let translated :=
    GeminiService.translate [1; 2; 3]%Z 16000 default_config calm flash in
  trace_of r
  = [StreamStop; StreamClose; Print RecordingStopped] ++ trace_of translated
  /\ (exists v, result_of translated = Returned v
                /\ result_of r = Returned (Some v))
  /\ (GeminiService.model flash <> None ->
      In (WavWrite Rendering.temp_audio 16000 [1; 2; 3]%Z) (trace_of r)).
Proof.
  apply (@recorded_audio_reaches_the_model Z int_audio calm fresh_app
           [(str "action", JString (str "start"))]
           [(str "action", JString (str "stop"))]
           [[1; 2]; [3]]%Z eq_refl eq_refl eq_refl eq_refl).
  discriminate.
Defined.


(** X21 on a [start] request to a fresh application. *)
Lemma recording_rate_is_the_rate_written_witness :
  let r := handle_record (request "start") calm fresh_app in
  AudioRecorder.sample_rate (recorder (state_of r)) = 16000%Z
  /\ (forall channels rate, In (StreamOpen channels rate) (trace_of r) ->
        channels = 1%Z /\ rate = 16000%Z)
  /\ (forall filename rate samples,
        In (WavWrite filename rate samples) (trace_of r) -> rate = 16000%Z).
Proof.
  exact (@recording_rate_is_the_rate_written Z int_audio calm fresh_app
           (request "start") eq_refl).
Defined.

End SessionSamples.

